(** * Turn engine of the Ito card game (ito_graph.py): a shallow embedding

    The development follows the Python sources:
    - [utils/deck.py]       : [create_deck], [draw_card]
    - [utils/parsing.py]    : [parse_json_object]
    - [agents/speaker.py], [agents/estimator.py], [agents/discussion.py]
    - [ito_graph.py]        : the nodes of [ItoGameGraph] and the graph wiring

    Python [str] values are kept as their UTF-8 byte strings, Python [int]
    as [Z], [dict] as insertion-ordered association lists.  Everything the
    program gets from outside (the random module, standard input, the chat
    model behind [chain.invoke]) is read from an explicit [World]. *)

From Stdlib Require Import ZArith List String Ascii Bool Lia Arith.
From Stdlib Require Import Permutation DecimalString.
Import ListNotations.
Open Scope string_scope.
Open Scope Z_scope.

Set Implicit Arguments.

(* ===================================================================== *)
(** ** Python strings *)
(* ===================================================================== *)

Module PyStr.

(** [str.strip()] removes the code points for which [str.isspace()] holds
    from both ends.  On the UTF-8 encoding these are the byte sequences
    recognised below (U+0009..U+000D, U+001C..U+0020, U+0085, U+00A0,
    U+1680, U+2000..U+200A, U+2028, U+2029, U+202F, U+205F, U+3000). *)

Definition byte (c : ascii) : nat := nat_of_ascii c.

Definition is_ws1 (c : ascii) : bool :=
  let n := byte c in
  ((9 <=? n) && (n <=? 13) || (28 <=? n) && (n <=? 32))%nat.

Definition is_ws2 (c d : ascii) : bool :=
  ((byte c =? 194) && ((byte d =? 133) || (byte d =? 160)))%nat.

Definition is_ws3 (c d e : ascii) : bool :=
  let x := byte e in
  ((byte c =? 225) && (byte d =? 154) && (x =? 128)
   || (byte c =? 226) && (byte d =? 128)
      && ((128 <=? x) && (x <=? 138) || (x =? 168) || (x =? 169) || (x =? 175))
   || (byte c =? 226) && (byte d =? 129) && (x =? 159)
   || (byte c =? 227) && (byte d =? 128) && (x =? 128))%nat.

(** Number of leading bytes that encode one whitespace code point
    (0 when the list does not start with whitespace). *)
Definition ws_prefix (l : list ascii) : nat :=
  match l with
  | c :: r =>
      if is_ws1 c then 1%nat
      else match r with
           | d :: r2 =>
               if is_ws2 c d then 2%nat
               else match r2 with
                    | e :: _ => if is_ws3 c d e then 3%nat else 0%nat
                    | [] => 0%nat
                    end
           | [] => 0%nat
           end
  | [] => 0%nat
  end.

(** The same test on the reversed list: the last code point of the
    original text comes first, its bytes in reverse order. *)
Definition ws_suffix_rev (l : list ascii) : nat :=
  match l with
  | c :: r =>
      if is_ws1 c then 1%nat
      else match r with
           | d :: r2 =>
               if is_ws2 d c then 2%nat
               else match r2 with
                    | e :: _ => if is_ws3 e d c then 3%nat else 0%nat
                    | [] => 0%nat
                    end
           | [] => 0%nat
           end
  | [] => 0%nat
  end.

(** Repeatedly drop what [width] recognises at the head of the list. *)
Fixpoint drop_ws (width : list ascii -> nat) (fuel : nat) (l : list ascii)
  : list ascii :=
  match fuel with
  | O => l
  | S fuel' =>
      match width l with
      | O => l
      | S k => drop_ws width fuel' (skipn (S k) l)
      end
  end.

Definition lstrip_bytes (l : list ascii) : list ascii :=
  drop_ws ws_prefix (List.length l) l.

Definition rstrip_bytes (l : list ascii) : list ascii :=
  rev (drop_ws ws_suffix_rev (List.length l) (rev l)).

Definition strip (s : string) : string :=
  string_of_list_ascii (rstrip_bytes (lstrip_bytes (list_ascii_of_string s))).

(** Truth value of a string: [if s] holds for every text but the empty one. *)
Definition nonempty (s : string) : bool :=
  match s with EmptyString => false | String _ _ => true end.

(** [sep.join(parts)] *)
Fixpoint join (sep : string) (parts : list string) : string :=
  match parts with
  | [] => EmptyString
  | [p] => p
  | p :: rest => p ++ sep ++ join sep rest
  end.

(** [str(n)] for an [int]. *)
Definition of_int (n : Z) : string := NilZero.string_of_int (Z.to_int n).

Definition newline : string := String (ascii_of_nat 10) EmptyString.

(** [s.startswith(p)] *)
Definition startswith (p s : string) : bool := String.prefix p s.

End PyStr.

(* ===================================================================== *)
(** ** Python values, dictionaries and exceptions *)
(* ===================================================================== *)

(** Values found in a decoded JSON object.  Containers and floats are kept
    with the text [str()] gives for them. *)
Inductive pyval : Type :=
| PyNone
| PyBool (b : bool)
| PyInt (n : Z)
| PyStr (s : string)
| PyOther (rendered : string).

(** [str(v)] *)
Definition py_str (v : pyval) : string :=
  match v with
  | PyNone => "None"
  | PyBool true => "True"
  | PyBool false => "False"
  | PyInt n => PyStr.of_int n
  | PyStr s => s
  | PyOther rendered => rendered
  end.

(** A [dict] with string keys: association list in insertion order. *)
Definition dict (V : Type) : Type := list (string * V).

Section Dict.
Variable V : Type.

(** [d.get(k)] *)
Fixpoint dict_get (d : dict V) (k : string) : option V :=
  match d with
  | [] => None
  | (k', v) :: rest => if String.eqb k' k then Some v else dict_get rest k
  end.

(** [d.get(k, default)] *)
Definition dict_get_default (d : dict V) (k : string) (default : V) : V :=
  match dict_get d k with Some v => v | None => default end.

(** [d[k] = v]: an existing key keeps its position, a new key goes last. *)
Fixpoint dict_set (d : dict V) (k : string) (v : V) : dict V :=
  match d with
  | [] => [(k, v)]
  | (k', v') :: rest =>
      if String.eqb k' k then (k', v) :: rest
      else (k', v') :: dict_set rest k v
  end.

Definition dict_keys (d : dict V) : list string := map fst d.
Definition dict_values (d : dict V) : list V := map snd d.

(** [if d] / [not d] *)
Definition dict_truthy (d : dict V) : bool :=
  match d with [] => false | _ :: _ => true end.
End Dict.

(** [x in l] for a list (or set) of strings. *)
Definition str_in (x : string) (l : list string) : bool :=
  existsb (String.eqb x) l.

(** [set(a) == set(b)] *)
Definition set_eqb (a b : list string) : bool :=
  forallb (fun x => str_in x b) a && forallb (fun x => str_in x a) b.

(** Exceptions that leave a node of the graph. *)
Inductive exn : Type :=
| IndexError (msg : string)
| KeyError (key : string)
| ValueError (msg : string).

Inductive Result (A : Type) : Type :=
| Ok (a : A)
| Raise (e : exn).
Arguments Ok {A} a.
Arguments Raise {A} e.

(** Outcome of a call made inside [try: ... except Exception as e]:
    either a value or the text [str(e)] of the exception. *)
Inductive attempt (A : Type) : Type :=
| Returned (a : A)
| Raised (text : string).
Arguments Returned {A} a.
Arguments Raised {A} text.

(** [d[k]] *)
Definition dict_index {V} (d : dict V) (k : string) : Result V :=
  match dict_get d k with
  | Some v => Ok v
  | None => Raise (KeyError k)
  end.

(* ===================================================================== *)
(** ** The outside world *)
(* ===================================================================== *)

Inductive Role : Type := RSpeaker | REstimator | RDiscussion.

Inductive Prompt : Type :=
| SPEAKER_SYSTEM_PROMPT
| ESTIMATOR_SYSTEM_PROMPT
| DISCUSSION_SYSTEM_PROMPT
| DISCUSSION_PLAYER_QUESTION_SYSTEM_PROMPT
| DISCUSSION_ANSWER_SYSTEM_PROMPT.

(** What [chain.invoke] is given: the prompt template and its variables,
    each already rendered as the template renders it. *)
Record LlmRequest : Type := {
  req_prompt : Prompt;
  req_inputs : dict string
}.

(** The world answers, call after call: the random module, [input()] and
    the chat model.  [llm_role r] tells whether [create_chat_llm] resolves a
    chat model for role [r] ([false]: mock mode). *)
Record World : Type := {
  rand : nat -> nat;
  rand_pos : nat;
  stdin : nat -> string;
  stdin_pos : nat;
  llm : nat -> LlmRequest -> attempt string;
  llm_pos : nat;
  llm_role : Role -> bool
}.

(** Computations of a node: they read the world and may raise. *)
Definition M (A : Type) : Type := World -> Result (A * World).

Definition ret {A} (a : A) : M A := fun w => Ok (a, w).

Definition bind {A B} (m : M A) (f : A -> M B) : M B :=
  fun w => match m w with
           | Ok (a, w') => f a w'
           | Raise e => Raise e
           end.

Definition raise {A} (e : exn) : M A := fun _ => Raise e.

Definition lift {A} (r : Result A) : M A :=
  fun w => match r with Ok a => Ok (a, w) | Raise e => Raise e end.

Declare Scope py_scope.
Delimit Scope py_scope with py.
Notation "x <- m ;; k" := (bind m (fun x => k))
  (at level 61, m at next level, right associativity) : py_scope.
Notation "' p <- m ;; k" := (bind m (fun x => match x with p => k end))
  (at level 61, p pattern, m at next level, right associativity) : py_scope.
Open Scope py_scope.

(** The next random number, brought below [n] (for [n > 0]). *)
Definition randbelow (n : nat) : M nat :=
  fun w => Ok ((rand w (rand_pos w) mod n)%nat,
               {| rand := rand w; rand_pos := S (rand_pos w);
                  stdin := stdin w; stdin_pos := stdin_pos w;
                  llm := llm w; llm_pos := llm_pos w; llm_role := llm_role w |}).

(** [input(prompt)] *)
Definition input : M string :=
  fun w => Ok (stdin w (stdin_pos w),
               {| rand := rand w; rand_pos := rand_pos w;
                  stdin := stdin w; stdin_pos := S (stdin_pos w);
                  llm := llm w; llm_pos := llm_pos w; llm_role := llm_role w |}).

(** [chain.invoke(inputs)] with [chain = prompt | llm | StrOutputParser()]. *)
Definition chain_invoke (req : LlmRequest) : World -> attempt string * World :=
  fun w => (llm w (llm_pos w) req,
            {| rand := rand w; rand_pos := rand_pos w;
               stdin := stdin w; stdin_pos := stdin_pos w;
               llm := llm w; llm_pos := S (llm_pos w); llm_role := llm_role w |}).

Definition try_chain (req : LlmRequest) : M (attempt string) :=
  fun w => Ok (chain_invoke req w).

Definition get_llm (r : Role) : M bool :=
  fun w => Ok (llm_role w r, w).

(* ===================================================================== *)
(** ** utils/deck.py *)
(* ===================================================================== *)

(** [list(range(lo, lo + n))] *)
Fixpoint py_range (lo : Z) (n : nat) : list Z :=
  match n with
  | O => []
  | S n' => lo :: py_range (lo + 1) n'
  end.

Fixpoint remove_nth (i : nat) (l : list Z) : list Z :=
  match l, i with
  | [], _ => []
  | _ :: r, O => r
  | x :: r, S i' => x :: remove_nth i' r
  end.

(** [random.shuffle]: the world picks the permutation, one position at a
    time among the elements not yet placed. *)
Fixpoint shuffle (n : nat) (pool : list Z) : M (list Z) :=
  match n with
  | O => ret pool
  | S n' =>
      i <- randbelow (List.length pool) ;;
      rest <- shuffle n' (remove_nth i pool) ;;
      ret (nth i pool 0 :: rest)
  end.

Definition create_deck : M (list Z) :=
  let deck := py_range 1 100 in
  shuffle (List.length deck) deck.

(** [draw_card(deck)] returns the card and the deck it leaves behind
    ([deck.pop()] takes the last element). *)
Definition draw_card (deck : list Z) : Result (Z * list Z) :=
  match deck with
  | [] => Raise (IndexError "Deck is empty")
  | _ :: _ => Ok (last deck 0, removelast deck)
  end.

(* ===================================================================== *)
(** ** utils/parsing.py *)
(* ===================================================================== *)

(** What [json.loads] returns, as far as [isinstance(value, dict)] tells. *)
Inductive json_top : Type :=
| JObject (d : dict pyval)
| JNotObject.

Module Re.

Definition is_fence_lang_char (c : ascii) : bool :=
  let n := nat_of_ascii c in
  ((97 <=? n) && (n <=? 122) || (65 <=? n) && (n <=? 90)
   || (48 <=? n) && (n <=? 57) || (n =? 95) || (n =? 45))%nat.

Fixpoint skip_fence_lang (s : string) : string :=
  match s with
  | String c r => if is_fence_lang_char c then skip_fence_lang r else s
  | EmptyString => s
  end.

Definition drop (n : nat) (s : string) : string :=
  substring n (String.length s - n) s.

Definition endswith (suffix s : string) : bool :=
  let k := String.length suffix in
  let n := String.length s in
  ((k <=? n)%nat && String.eqb (substring (n - k) k s) suffix)%bool.

(** [re.sub] deleting the pattern [^```[a-zA-Z0-9_-]*\n]: an opening
    fence with its language tag, at the start of the text only. *)
Definition sub_fence_open (s : string) : string :=
  if String.prefix "```" s then
    match skip_fence_lang (drop 3 s) with
    | String c r => if (nat_of_ascii c =? 10)%nat then r else s
    | EmptyString => s
    end
  else s.

(** [re.sub] deleting the pattern [\n```$]: [$] matches at the end of the
    text and just before a final newline. *)
Definition sub_fence_close (s : string) : string :=
  let n := String.length s in
  if endswith (PyStr.newline ++ "```") s then substring 0 (n - 4) s
  else if endswith (PyStr.newline ++ "```" ++ PyStr.newline) s
       then substring 0 (n - 5) s ++ PyStr.newline
       else s.

Fixpoint rindex (c : ascii) (s : string) : option nat :=
  match s with
  | EmptyString => None
  | String a r =>
      match rindex c r with
      | Some j => Some (S j)
      | None => if Ascii.eqb a c then Some O else None
      end
  end.

(** [_JSON_BLOCK_RE.search(s)], pattern [\{.*\}] with DOTALL: from the
    first opening brace to the last closing brace after it. *)
Definition search_json_block (s : string) : option string :=
  match String.index 0 "{" s, rindex "}"%char s with
  | Some i, Some j => if (i <? j)%nat then Some (substring i (j - i + 1) s) else None
  | _, _ => None
  end.

End Re.

(* ===================================================================== *)
(** ** models/schemas.py and the engine object *)
(* ===================================================================== *)

Inductive Status : Type := ACTIVE | FAILED | SUCCESS.

Definition status_eqb (a b : Status) : bool :=
  match a, b with
  | ACTIVE, ACTIVE | FAILED, FAILED | SUCCESS, SUCCESS => true
  | _, _ => false
  end.

(** [GameState] once Setup has filled in every key. *)
Record GameState : Type := {
  theme : string;
  history : list string;
  played_cards : list Z;
  last_played_card : Z;
  utterances : dict pyval;
  turn_count : Z;
  status : Status;
  deck : list Z;
  agents : list string;
  hands : dict Z;
  votes : dict string;
  finished_agents : list string;
  speaker_reasonings : dict string;
  estimator_thoughts : dict string;
  debug : bool;
  reveal : bool;
  theme_override : string
}.

(** The keys of the caller's [initial_state] that Setup reads; a key that is
    absent is [None].  Setup overwrites every other key. *)
Record InitialState : Type := {
  init_agents : option (list string);
  init_hands : option (dict Z);
  init_theme_override : option string;
  init_history : option (list string)
}.

(** Arguments of [ItoGameGraph.__init__]. *)
Record Engine : Type := {
  agent_ids : list string;
  human_agent_id : option string;
  self_theme : option string;
  max_turns : Z;
  self_debug : bool;
  reveal_hands : bool
}.

(** The five callables [__init__] stores on the engine. *)
Record Providers : Type := {
  speaker_generate_word : string -> Z -> string -> M (dict pyval);
  estimator_decide_action :
    string -> Z -> dict pyval -> Z -> pyval -> string -> M (dict pyval);
  discussion_generate_question : string -> Z -> dict pyval -> string -> M (dict pyval);
  discussion_generate_player_question :
    string -> Z -> dict pyval -> string -> string -> M (dict pyval);
  discussion_generate_answer : string -> string -> string -> string -> M (dict pyval)
}.

(* ===================================================================== *)
(** ** Functions of the program *)
(* ===================================================================== *)

Section Ito.

(** [json.loads] of the standard library: the decoded value, or the text of
    the exception it raises. *)
Variable json_loads : string -> attempt json_top.

(** [str.upper()], with the Unicode case mapping of the interpreter. *)
Variable str_upper : string -> string.

(** [models.themes.THEMES_JA], the pool of themes. *)
Variable THEMES_JA : list string.

Definition parse_json_object (text : string) : attempt (dict pyval) :=
  let cleaned := PyStr.strip text in
  let cleaned :=
    if PyStr.startswith "```" cleaned
    then PyStr.strip (Re.sub_fence_close (Re.sub_fence_open cleaned))
    else cleaned in
  match json_loads cleaned with
  | Returned (JObject value) => Returned value
  | _ =>
      match Re.search_json_block cleaned with
      | None => Raised "No JSON object found in model output"
      | Some block =>
          match json_loads block with
          | Raised text => Raised text
          | Returned (JObject value) => Returned value
          | Returned JNotObject => Raised "Parsed JSON is not an object"
          end
      end
  end.

(* ===================================================================== *)
(** ** agents/speaker.py, agents/estimator.py, agents/discussion.py *)
(* ===================================================================== *)

(** The list comprehension joined into [utterances_str]. *)
Definition utterances_str (utterances : dict pyval) : string :=
  PyStr.join PyStr.newline
    (map (fun '(agent, word) => agent ++ ": " ++ py_str word) utterances).

Definition generate_word (theme : string) (number : Z) (history : string)
  : M (dict pyval) :=
  has_llm <- get_llm RSpeaker ;;
  if negb has_llm then
    ret [("word", PyStr ("Mock Word (Number: " ++ PyStr.of_int number ++ ")"));
         ("reasoning", PyStr "Mock reasoning because API key is missing.")]
  else
    r <- try_chain {| req_prompt := SPEAKER_SYSTEM_PROMPT;
                      req_inputs := [("theme", theme);
                                     ("number", PyStr.of_int number);
                                     ("history", history)] |} ;;
    match r with
    | Raised e => ret [("word", PyStr "Error"); ("reasoning", PyStr e)]
    | Returned text =>
        match parse_json_object text with
        | Raised e => ret [("word", PyStr "Error"); ("reasoning", PyStr e)]
        | Returned result => ret result
        end
    end.

(** [action = str(result.get(key, WAIT)).strip().upper()] followed by the
    membership test in the set of PLAY and WAIT. *)
Definition normalize_action (raw : pyval) : string :=
  let action := str_upper (PyStr.strip (py_str raw)) in
  if negb (str_in action ["PLAY"; "WAIT"]) then "WAIT" else action.

(** The variables [decide_action] passes to [chain.invoke]. *)
Definition estimator_request (theme : string) (last_played_card : Z)
    (utterances : dict pyval) (my_number : Z) (my_word : pyval)
    (history : string) : LlmRequest :=
  {| req_prompt := ESTIMATOR_SYSTEM_PROMPT;
     req_inputs := [("theme", theme);
                    ("last_played_card", PyStr.of_int last_played_card);
                    ("utterances", utterances_str utterances);
                    ("my_number", PyStr.of_int my_number);
                    ("my_word", py_str my_word);
                    ("history", history)] |}.

Definition decide_action (theme : string) (last_played_card : Z)
    (utterances : dict pyval) (my_number : Z) (my_word : pyval)
    (history : string) : M (dict pyval) :=
  has_llm <- get_llm REstimator ;;
  if negb has_llm then
    let action := if my_number <? 20 then "PLAY" else "WAIT" in
    ret [("thought", PyStr ("Mock thought: Number is " ++ PyStr.of_int my_number
                            ++ ", so " ++ action ++ "."));
         ("action", PyStr action)]
  else
    r <- try_chain (estimator_request theme last_played_card utterances
                      my_number my_word history) ;;
    match r with
    | Raised e => ret [("thought", PyStr e); ("action", PyStr "WAIT")]
    | Returned text =>
        match parse_json_object text with
        | Raised e => ret [("thought", PyStr e); ("action", PyStr "WAIT")]
        | Returned result =>
            let action :=
              normalize_action (dict_get_default result "action" (PyStr "WAIT")) in
            ret (dict_set result "action" (PyStr action))
        end
    end.

Definition GENERIC_QUESTION : string :=
  "それぞれの発言は、どれくらい強い/大きいイメージですか？".

Definition GENERIC_PLAYER_QUESTION : string :=
  "今の発言は、どんなイメージの度合いですか？".

Definition GENERIC_ANSWER : string :=
  "私の発言は、直感的にイメージできる範囲の強さ/大きさを意図しています。".

(** Shared shape of the three functions of discussion.py: one key, one
    fixed text for mock mode, for an empty reply and for any exception. *)
Definition discussion_call (req : LlmRequest) (key fallback : string)
  : M (dict pyval) :=
  has_llm <- get_llm RDiscussion ;;
  if negb has_llm then ret [(key, PyStr fallback)]
  else
    r <- try_chain req ;;
    match r with
    | Raised _ => ret [(key, PyStr fallback)]
    | Returned text =>
        match parse_json_object text with
        | Raised _ => ret [(key, PyStr fallback)]
        | Returned result =>
            let value := PyStr.strip (py_str (dict_get_default result key (PyStr EmptyString))) in
            ret [(key, PyStr (if PyStr.nonempty value then value else fallback))]
        end
    end.

Definition generate_question (theme : string) (last_played_card : Z)
    (utterances : dict pyval) (history : string) : M (dict pyval) :=
  discussion_call
    {| req_prompt := DISCUSSION_SYSTEM_PROMPT;
       req_inputs := [("theme", theme);
                      ("last_played_card", PyStr.of_int last_played_card);
                      ("utterances", utterances_str utterances);
                      ("history", history)] |}
    "question" GENERIC_QUESTION.

Definition generate_player_question (theme : string) (last_played_card : Z)
    (utterances : dict pyval) (my_word : string) (history : string)
  : M (dict pyval) :=
  discussion_call
    {| req_prompt := DISCUSSION_PLAYER_QUESTION_SYSTEM_PROMPT;
       req_inputs := [("theme", theme);
                      ("last_played_card", PyStr.of_int last_played_card);
                      ("utterances", utterances_str utterances);
                      ("my_word", my_word);
                      ("history", history)] |}
    "question" GENERIC_PLAYER_QUESTION.

Definition generate_answer (theme question my_word history : string)
  : M (dict pyval) :=
  discussion_call
    {| req_prompt := DISCUSSION_ANSWER_SYSTEM_PROMPT;
       req_inputs := [("theme", theme);
                      ("question", question);
                      ("my_word", my_word);
                      ("history", history)] |}
    "answer" GENERIC_ANSWER.

(** What [__init__] imports from the agents package. *)
Definition module_providers : Providers := {|
  speaker_generate_word := generate_word;
  estimator_decide_action := decide_action;
  discussion_generate_question := generate_question;
  discussion_generate_player_question := generate_player_question;
  discussion_generate_answer := generate_answer
|}.

(** [agent_id == self.human_agent_id] *)
Definition is_human (e : Engine) (agent_id : string) : bool :=
  match human_agent_id e with
  | Some h => String.eqb agent_id h
  | None => false
  end.

(* ===================================================================== *)
(** ** ito_graph.py: Setup *)
(* ===================================================================== *)

(** [x or default] for a list and for a string. *)
Definition list_or {A} (x : option (list A)) (default : list A) : list A :=
  match x with
  | Some (a :: l) => a :: l
  | _ => default
  end.

Definition str_or (x : option string) (default : string) : string :=
  match x with
  | Some (String c r) => String c r
  | _ => default
  end.

Definition Z_in (x : Z) (l : list Z) : bool := existsb (Z.eqb x) l.

(** The dealing loop: [for agent in agents: hands[agent] = draw_card(deck)]. *)
Fixpoint deal (agent_list : list string) (hand_map : dict Z) (cards : list Z)
  : Result (dict Z * list Z) :=
  match agent_list with
  | [] => Ok (hand_map, cards)
  | agent :: rest =>
      match draw_card cards with
      | Raise e => Raise e
      | Ok (card, cards') => deal rest (dict_set hand_map agent card) cards'
      end
  end.

(** [random.choice(seq)]; the message is the one CPython gives. *)
Definition random_choice (seq : list string) : M string :=
  match seq with
  | [] => raise (IndexError "Cannot choose from an empty sequence")
  | first :: _ =>
      i <- randbelow (List.length seq) ;;
      ret (nth i seq first)
  end.

Definition GAME_START : string := "ゲーム開始。お題: ".

Definition setup_node (e : Engine) (state : InitialState) : M GameState :=
  let agent_list := list_or (init_agents state) (agent_ids e) in
  let provided_hands := match init_hands state with Some h => h | None => [] end in
  '(hand_map, cards) <-
    (if set_eqb (dict_keys provided_hands) agent_list then
       full <- create_deck ;;
       ret (provided_hands,
            filter (fun card => negb (Z_in card (dict_values provided_hands))) full)
     else
       full <- create_deck ;;
       lift (deal agent_list [] full)) ;;
  let override := PyStr.strip (str_or (init_theme_override state) EmptyString) in
  chosen <-
    (if PyStr.nonempty override then ret override
     else match self_theme e with
          | Some (String c r) => ret (String c r)
          | _ => random_choice THEMES_JA
          end) ;;
  let log := list_or (init_history state) [GAME_START ++ chosen] in
  ret {| theme := chosen;
         history := log;
         played_cards := [];
         last_played_card := 0;
         utterances := [];
         turn_count := 0;
         status := ACTIVE;
         deck := cards;
         agents := agent_list;
         votes := [];
         finished_agents := [];
         speaker_reasonings := [];
         estimator_thoughts := [];
         debug := self_debug e;
         reveal := reveal_hands e;
         theme_override := override;
         hands := hand_map |}.

(* ===================================================================== *)
(** ** ito_graph.py: Speaking *)
(* ===================================================================== *)

Definition NO_WORD : string := "（無言）".

Definition utterance_line (agent_id : string) (word : pyval) : string :=
  agent_id ++ " の発言: 『" ++ py_str word ++ "』".

(** The loop of [_speaking_node] over [state.agents]; the accumulator holds
    [utterances], [speaker_reasonings] and [history_update]. *)
Fixpoint speaking_loop (e : Engine) (p : Providers) (state : GameState)
    (history_text : string) (todo : list string)
    (acc : dict pyval * dict string * list string)
  : M (dict pyval * dict string * list string) :=
  match todo with
  | [] => ret acc
  | agent_id :: rest =>
      let '(utt, reasonings, history_update) := acc in
      if str_in agent_id (finished_agents state) then
        speaking_loop e p state history_text rest acc
      else
        card <- lift (dict_index (hands state) agent_id) ;;
        '(word, reasonings') <-
          (if is_human e agent_id then
             raw <- input ;;
             let typed := PyStr.strip raw in
             let typed := if PyStr.nonempty typed then typed else NO_WORD in
             ret (PyStr typed, dict_set reasonings agent_id EmptyString)
           else
             result <- speaker_generate_word p (theme state) card history_text ;;
             ret (dict_get_default result "word" (PyStr "Error"),
                  dict_set reasonings agent_id
                    (py_str (dict_get_default result "reasoning" (PyStr EmptyString))))) ;;
        speaking_loop e p state history_text rest
          (dict_set utt agent_id word, reasonings',
           (history_update ++ [utterance_line agent_id word])%list)
  end.

Definition speaking_node (e : Engine) (p : Providers) (state : GameState)
  : M GameState :=
  let history_text := PyStr.join PyStr.newline (history state) in
  '(utt, reasonings, history_update) <-
    speaking_loop e p state history_text (agents state)
      ([], speaker_reasonings state, []) ;;
  ret {| theme := theme state;
         history := (history state ++ history_update)%list;
         played_cards := played_cards state;
         last_played_card := last_played_card state;
         utterances := utt;
         turn_count := turn_count state;
         status := status state;
         deck := deck state;
         agents := agents state;
         hands := hands state;
         votes := votes state;
         finished_agents := finished_agents state;
         speaker_reasonings := reasonings;
         estimator_thoughts := estimator_thoughts state;
         debug := debug state;
         reveal := reveal state;
         theme_override := theme_override state |}.

(* ===================================================================== *)
(** ** ito_graph.py: Voting and routing *)
(* ===================================================================== *)

(** [{k: v for k, v in utterances.items()
      if k != agent_id and k not in finished_agents}] *)
Definition other_utterances_of (state : GameState) (agent_id : string)
  : dict pyval :=
  filter (fun '(k, _) => negb (String.eqb k agent_id)
                         && negb (str_in k (finished_agents state)))
         (utterances state).

(** Body of the loop of [_voting_node] for an agent that has not played. *)
Definition cast_vote (e : Engine) (p : Providers) (state : GameState)
    (history_text : string) (agent_id : string)
    (acc : dict string * dict string) : M (dict string * dict string) :=
  let '(ballots, thoughts) := acc in
  card <- lift (dict_index (hands state) agent_id) ;;
  let word := dict_get_default (utterances state) agent_id (PyStr EmptyString) in
  let other_utterances := other_utterances_of state agent_id in
  if is_human e agent_id then
    typed <- input ;;
    let raw := str_upper (PyStr.strip typed) in
    ret (dict_set ballots agent_id (if String.eqb raw "PLAY" then "PLAY" else "WAIT"),
         dict_set thoughts agent_id EmptyString)
  else
    decision <- estimator_decide_action p (theme state) (last_played_card state)
                  other_utterances card word history_text ;;
    let ballots1 :=
      dict_set ballots agent_id
        (str_upper (PyStr.strip (py_str (dict_get_default decision "action" (PyStr "WAIT"))))) in
    let ballots2 :=
      if negb (str_in (dict_get_default ballots1 agent_id EmptyString) ["PLAY"; "WAIT"])
      then dict_set ballots1 agent_id "WAIT"
      else ballots1 in
    ret (ballots2,
         dict_set thoughts agent_id
           (py_str (dict_get_default decision "thought" (PyStr EmptyString)))).

Fixpoint voting_loop (e : Engine) (p : Providers) (state : GameState)
    (history_text : string) (todo : list string)
    (acc : dict string * dict string) : M (dict string * dict string) :=
  match todo with
  | [] => ret acc
  | agent_id :: rest =>
      if str_in agent_id (finished_agents state) then
        voting_loop e p state history_text rest acc
      else
        acc' <- cast_vote e p state history_text agent_id acc ;;
        voting_loop e p state history_text rest acc'
  end.

Definition voting_node (e : Engine) (p : Providers) (state : GameState)
  : M GameState :=
  let history_text := PyStr.join PyStr.newline (history state) in
  '(ballots, thoughts) <-
    voting_loop e p state history_text (agents state) ([], []) ;;
  ret {| theme := theme state;
         history := history state;
         played_cards := played_cards state;
         last_played_card := last_played_card state;
         utterances := utterances state;
         turn_count := turn_count state;
         status := status state;
         deck := deck state;
         agents := agents state;
         hands := hands state;
         votes := ballots;
         finished_agents := finished_agents state;
         speaker_reasonings := speaker_reasonings state;
         estimator_thoughts := thoughts;
         debug := debug state;
         reveal := reveal state;
         theme_override := theme_override state |}.

(** [[agent for agent, action in votes.items() if action == PLAY]] *)
Definition play_candidates (ballots : dict string) : list string :=
  map fst (filter (fun '(_, action) => String.eqb action "PLAY") ballots).

Inductive Node : Type :=
| NSpeaking | NVoting | NExecutePlay | NWaitRound | NEnd.

Definition router_node (state : GameState) : Node :=
  match play_candidates (votes state) with
  | _ :: _ => NExecutePlay
  | [] => NWaitRound
  end.

(* ===================================================================== *)
(** ** ito_graph.py: PlayResolution *)
(* ===================================================================== *)

(** [min(candidates, key=...)]: keys are computed in order, the running
    minimum is replaced only by a strictly smaller key, so the first of
    several minimal elements is returned. *)
Fixpoint min_by_from {A} (key : A -> Result Z) (best : A) (best_key : Z)
    (rest : list A) : Result A :=
  match rest with
  | [] => Ok best
  | x :: rest' =>
      match key x with
      | Raise e => Raise e
      | Ok k =>
          if k <? best_key then min_by_from key x k rest'
          else min_by_from key best best_key rest'
      end
  end.

Definition py_min_by {A} (key : A -> Result Z) (l : list A) : Result A :=
  match l with
  | [] => Raise (ValueError "min() arg is an empty sequence")
  | x :: rest =>
      match key x with
      | Raise e => Raise e
      | Ok k => min_by_from key x k rest
      end
  end.

Definition play_line (player : string) (card : Z) : string :=
  player ++ " が " ++ PyStr.of_int card ++ " を出した。".

Definition execute_play_node (state : GameState) : Result GameState :=
  let candidates := play_candidates (votes state) in
  match py_min_by (fun x => dict_index (hands state) x) candidates with
  | Raise e => Raise e
  | Ok player =>
      match dict_index (hands state) player with
      | Raise e => Raise e
      | Ok card =>
          let new_played := (played_cards state ++ [card])%list in
          let finished := (finished_agents state ++ [player])%list in
          let new_status :=
            if card <? last_played_card state then FAILED
            else if (List.length finished =? List.length (agents state))%nat then SUCCESS
            else ACTIVE in
          Ok {| theme := theme state;
                history := (history state ++ [play_line player card])%list;
                played_cards := new_played;
                last_played_card := card;
                utterances := utterances state;
                turn_count := turn_count state;
                status := new_status;
                deck := deck state;
                agents := agents state;
                hands := hands state;
                votes := votes state;
                finished_agents := finished;
                speaker_reasonings := speaker_reasonings state;
                estimator_thoughts := estimator_thoughts state;
                debug := debug state;
                reveal := reveal state;
                theme_override := theme_override state |}
      end
  end.

(* ===================================================================== *)
(** ** ito_graph.py: DiscussionRound *)
(* ===================================================================== *)

Definition WAIT_LINE : string := "全員WAIT。".
Definition STAGNATION_LINE : string := "停滞が続いたため終了。".
Definition MODERATOR : string := "(moderator)".

Definition question_line (q_owner q : string) : string :=
  "質問（" ++ q_owner ++ "）: " ++ q.

Definition answer_line (agent_id q_owner a : string) : string :=
  agent_id ++ " の回答（質問者=" ++ q_owner ++ "）: " ++ a.

(** [[a for a in agents if a not in finished_agents]] *)
Definition active_agents_of (state : GameState) : list string :=
  filter (fun a => negb (str_in a (finished_agents state))) (agents state).

(** [str(utterances.get(agent_id, EMPTY)).strip()] *)
Definition my_word_of (state : GameState) (agent_id : string) : string :=
  PyStr.strip (py_str (dict_get_default (utterances state) agent_id (PyStr EmptyString))).

(** The text an agent proposes: [q_in] for the human agent, [q_text] for
    the others. *)
Definition proposal_text (e : Engine) (p : Providers) (state : GameState)
    (history_text : string) (agent_id : string) : M string :=
  let my_word := my_word_of state agent_id in
  if is_human e agent_id then
    typed <- input ;;
    ret (PyStr.strip typed)
  else
    q_obj <- discussion_generate_player_question p (theme state)
               (last_played_card state) (utterances state) my_word history_text ;;
    ret (PyStr.strip (py_str (dict_get_default q_obj "question" (PyStr EmptyString)))).

(** [if q and q not in seen_questions: proposals[agent_id] = q;
     seen_questions.add(q)] *)
Definition record_proposal (agent_id q : string)
    (acc : dict string * list string) : dict string * list string :=
  let '(proposals, seen_questions) := acc in
  if PyStr.nonempty q && negb (str_in q seen_questions)
  then (dict_set proposals agent_id q, q :: seen_questions)
  else acc.

Fixpoint proposal_loop (e : Engine) (p : Providers) (state : GameState)
    (history_text : string) (todo : list string)
    (acc : dict string * list string) : M (dict string * list string) :=
  match todo with
  | [] => ret acc
  | agent_id :: rest =>
      q <- proposal_text e p state history_text agent_id ;;
      proposal_loop e p state history_text rest (record_proposal agent_id q acc)
  end.

(** The two fallbacks after the proposal loop. *)
Definition moderator_fallback (p : Providers) (state : GameState)
    (history_text : string) (proposals : dict string) : M (dict string) :=
  proposals1 <-
    (if negb (dict_truthy proposals) then
       q_obj <- discussion_generate_question p (theme state)
                  (last_played_card state) (utterances state) history_text ;;
       let q_text :=
         PyStr.strip (py_str (dict_get_default q_obj "question" (PyStr EmptyString))) in
       ret (if PyStr.nonempty q_text then dict_set proposals MODERATOR q_text
            else proposals)
     else ret proposals) ;;
  ret (if negb (dict_truthy proposals1)
       then dict_set proposals1 MODERATOR GENERIC_QUESTION
       else proposals1).

(** Inner loop: every active agent answers question [q] of [q_owner]. *)
Fixpoint answer_loop (e : Engine) (p : Providers) (state : GameState)
    (history_text q_owner q : string) (todo : list string)
    (history_update : list string) : M (list string) :=
  match todo with
  | [] => ret history_update
  | agent_id :: rest =>
      let my_word := my_word_of state agent_id in
      a <-
        (if is_human e agent_id then
           typed <- input ;;
           ret (PyStr.strip typed)
         else
           a_obj <- discussion_generate_answer p (theme state) q my_word history_text ;;
           ret (PyStr.strip (py_str (dict_get_default a_obj "answer" (PyStr EmptyString))))) ;;
      answer_loop e p state history_text q_owner q rest
        (if PyStr.nonempty a
         then (history_update ++ [answer_line agent_id q_owner a])%list
         else history_update)
  end.

(** Outer loop over [proposals.items()]. *)
Fixpoint question_loop (e : Engine) (p : Providers) (state : GameState)
    (history_text : string) (active : list string) (todo : dict string)
    (history_update : list string) : M (list string) :=
  match todo with
  | [] => ret history_update
  | (q_owner, q0) :: rest =>
      let q := PyStr.strip q0 in
      if negb (PyStr.nonempty q) then
        question_loop e p state history_text active rest history_update
      else
        history_update' <-
          answer_loop e p state history_text q_owner q active
            (history_update ++ [question_line q_owner q])%list ;;
        question_loop e p state history_text active rest history_update'
  end.

Definition wait_round_node (e : Engine) (p : Providers) (state : GameState)
  : M GameState :=
  let history_text := PyStr.join PyStr.newline (history state) in
  let active := active_agents_of state in
  '(proposals, _) <- proposal_loop e p state history_text active ([], []) ;;
  proposals <- moderator_fallback p state history_text proposals ;;
  history_update <-
    question_loop e p state history_text active proposals [WAIT_LINE] ;;
  let next_turn := turn_count state + 1 in
  if max_turns e <=? next_turn then
    ret {| theme := theme state;
           history := (history state ++ history_update ++ [STAGNATION_LINE])%list;
           played_cards := played_cards state;
           last_played_card := last_played_card state;
           utterances := utterances state;
           turn_count := next_turn;
           status := FAILED;
           deck := deck state;
           agents := agents state;
           hands := hands state;
           votes := [];
           finished_agents := finished_agents state;
           speaker_reasonings := speaker_reasonings state;
           estimator_thoughts := estimator_thoughts state;
           debug := debug state;
           reveal := reveal state;
           theme_override := theme_override state |}
  else
    ret {| theme := theme state;
           history := (history state ++ history_update)%list;
           played_cards := played_cards state;
           last_played_card := last_played_card state;
           utterances := utterances state;
           turn_count := next_turn;
           status := status state;
           deck := deck state;
           agents := agents state;
           hands := hands state;
           votes := [];
           finished_agents := finished_agents state;
           speaker_reasonings := speaker_reasonings state;
           estimator_thoughts := estimator_thoughts state;
           debug := debug state;
           reveal := reveal state;
           theme_override := theme_override state |}.

(* ===================================================================== *)
(** ** ito_graph.py: the graph *)
(* ===================================================================== *)

Definition check_game_end (state : GameState) : Node :=
  if negb (status_eqb (status state) ACTIVE) then NEnd else NVoting.

(** Running the node the graph is standing on. *)
Definition node_run (e : Engine) (p : Providers) (n : Node) (state : GameState)
  : M GameState :=
  match n with
  | NSpeaking => speaking_node e p state
  | NVoting => voting_node e p state
  | NExecutePlay => lift (execute_play_node state)
  | NWaitRound => wait_round_node e p state
  | NEnd => ret state
  end.

(** The edges of [_build_graph]: the node that follows [n], given the state
    [n] returned. *)
Definition next_node (n : Node) (state' : GameState) : Node :=
  match n with
  | NSpeaking => NVoting
  | NVoting => router_node state'
  | NExecutePlay => check_game_end state'
  | NWaitRound => check_game_end state'
  | NEnd => NEnd
  end.

(** One transition of the compiled graph from a node other than END. *)
Inductive graph_step (e : Engine) (p : Providers)
  : Node * GameState * World -> Node * GameState * World -> Prop :=
| graph_step_intro : forall n s w s' w',
    n <> NEnd ->
    node_run e p n s w = Ok (s', w') ->
    graph_step e p (n, s, w) (next_node n s', s', w').

(** [Reachable e p n s w]: some run of the graph that entered at Setup
    stands on node [n] with state [s] (and the world in condition [w]). *)
Inductive Reachable (e : Engine) (p : Providers)
  : Node -> GameState -> World -> Prop :=
| reach_setup : forall init w s w',
    setup_node e init w = Ok (s, w') ->
    Reachable e p NSpeaking s w'
| reach_step : forall n s w n' s' w',
    Reachable e p n s w ->
    graph_step e p (n, s, w) (n', s', w') ->
    Reachable e p n' s' w'.

(** Zero or more transitions. *)
Inductive graph_steps (e : Engine) (p : Providers)
  : Node * GameState * World -> Node * GameState * World -> Prop :=
| graph_steps_refl : forall c, graph_steps e p c c
| graph_steps_next : forall c1 c2 c3,
    graph_step e p c1 c2 -> graph_steps e p c2 c3 -> graph_steps e p c1 c3.

(** [app.stream] unrolled for at most [fuel] nodes after Setup.  (The graph
    library ends a run that executes more nodes than its recursion limit;
    [fuel] plays that part here, and [graph_step] has no such bound.) *)
Fixpoint stream (e : Engine) (p : Providers) (fuel : nat) (n : Node)
    (state : GameState) : M (Node * GameState) :=
  match fuel, n with
  | _, NEnd => ret (NEnd, state)
  | O, _ => ret (n, state)
  | S fuel', _ =>
      state' <- node_run e p n state ;;
      stream e p fuel' (next_node n state') state'
  end.

(** The state [run] builds when the caller passes none. *)
Definition default_initial_state (e : Engine) : InitialState :=
  {| init_agents := Some (agent_ids e);
     init_hands := None;
     init_theme_override :=
       Some (match self_theme e with Some t => t | None => EmptyString end);
     init_history := None |}.

Definition run (e : Engine) (p : Providers) (fuel : nat)
    (initial_state : option InitialState) : M (Node * GameState) :=
  let initial_state :=
    match initial_state with
    | Some given => given
    | None => default_initial_state e
    end in
  state <- setup_node e initial_state ;;
  stream e p fuel NSpeaking state.


(* ===================================================================== *)
(** ** Vocabulary of the properties *)
(* ===================================================================== *)

(** The highest card of a sequence of played cards, 0 when none was played. *)
Definition highest_card (cards : list Z) : Z :=
  match cards with
  | [] => 0
  | first :: rest => fold_left Z.max rest first
  end.

(** Every entry is at least its predecessor. *)
Fixpoint ascending (cards : list Z) : Prop :=
  match cards with
  | x :: ((y :: _) as rest) => x <= y /\ ascending rest
  | _ => True
  end.

(** The state with another [votes] mapping. *)
Definition with_votes (state : GameState) (ballots : dict string) : GameState :=
  {| theme := theme state;
     history := history state;
     played_cards := played_cards state;
     last_played_card := last_played_card state;
     utterances := utterances state;
     turn_count := turn_count state;
     status := status state;
     deck := deck state;
     agents := agents state;
     hands := hands state;
     votes := ballots;
     finished_agents := finished_agents state;
     speaker_reasonings := speaker_reasonings state;
     estimator_thoughts := estimator_thoughts state;
     debug := debug state;
     reveal := reveal state;
     theme_override := theme_override state |}.

(** Every agent that has not played holds a card. *)
Definition hands_dealt (state : GameState) : Prop :=
  forall a, In a (agents state) -> ~ In a (finished_agents state) ->
            exists c, dict_get (hands state) a = Some c.

(** The five callables return (they do not raise). *)
Definition providers_return (p : Providers) : Prop :=
  (forall th n h w, exists d w', speaker_generate_word p th n h w = Ok (d, w'))
  /\ (forall th lp u n wd h w,
        exists d w', estimator_decide_action p th lp u n wd h w = Ok (d, w'))
  /\ (forall th lp u h w,
        exists d w', discussion_generate_question p th lp u h w = Ok (d, w'))
  /\ (forall th lp u mw h w,
        exists d w', discussion_generate_player_question p th lp u mw h w = Ok (d, w'))
  /\ (forall th q mw h w,
        exists d w', discussion_generate_answer p th q mw h w = Ok (d, w')).

(** [finishedAgents] is a duplicate-free part of [agents], with one played
    card per finished agent. *)
Definition finished_ok (state : GameState) : Prop :=
  incl (finished_agents state) (agents state)
  /\ NoDup (finished_agents state)
  /\ List.length (played_cards state) = List.length (finished_agents state).

(** The PLAY voters PlayResolution chooses from: at least one, each of them
    an agent that has not played and holds a card. *)
Definition voters_ready (state : GameState) : Prop :=
  (exists a, In (a, "PLAY") (votes state))
  /\ forall a, In a (dict_keys (votes state)) ->
       In a (agents state) /\ ~ In a (finished_agents state)
       /\ exists c, dict_get (hands state) a = Some c.

(** What holds whenever the graph stands on node [n] with state [state]. *)
Definition node_inv (n : Node) (state : GameState) : Prop :=
  finished_ok state
  /\ hands_dealt state
  /\ (status state <> ACTIVE -> n = NEnd)
  /\ last_played_card state = last (played_cards state) 0
  /\ (status state <> FAILED -> ascending (0 :: played_cards state))
  /\ (n = NExecutePlay -> voters_ready state).

(** The texts the agents of [todo] propose in a DiscussionRound, in order:
    the calls of [proposal_loop] without the bookkeeping. *)
Fixpoint proposal_texts (e : Engine) (p : Providers) (state : GameState)
    (history_text : string) (todo : list string) : M (list string) :=
  match todo with
  | [] => ret []
  | agent_id :: rest =>
      q <- proposal_text e p state history_text agent_id ;;
      qs <- proposal_texts e p state history_text rest ;;
      ret (q :: qs)
  end.

(** Filters over recorded proposals: the text was not seen before; the
    text differs from [q]. *)
Definition unseen (seen : list string) : string * string -> bool :=
  fun '(_, q) => negb (str_in q seen).

Definition other_text (q : string) : string * string -> bool :=
  fun '(_, q') => negb (String.eqb q' q).

(** Deduplication as the specification words it: an empty text is no
    proposal; the first proposer of a text keeps it, and every later proposal
    of the same text is discarded. *)
Fixpoint first_proposer_wins (raw : list (string * string)) : dict string :=
  match raw with
  | [] => []
  | (agent_id, q) :: later =>
      if PyStr.nonempty q
      then (agent_id, q)
             :: filter (other_text q) (first_proposer_wins later)
      else first_proposer_wins later
  end.

(** The text [parse_json_object] hands to [json.loads]: trimmed, and
    without its code fence. *)
Definition cleaned_text (text : string) : string :=
  let cleaned := PyStr.strip text in
  if PyStr.startswith "```" cleaned
  then PyStr.strip (Re.sub_fence_close (Re.sub_fence_open cleaned))
  else cleaned.

(** [c in s] for a character, and [all(f(c) for c in s)]. *)
Fixpoint has_char (c : ascii) (s : string) : bool :=
  match s with
  | EmptyString => false
  | String a r => Ascii.eqb a c || has_char c r
  end.

Fixpoint all_chars (f : ascii -> bool) (s : string) : bool :=
  match s with
  | EmptyString => true
  | String a r => f a && all_chars f r
  end.

(** Mock mode: [create_chat_llm] resolves no chat model, for any role. *)
Definition mock_mode (w : World) : Prop := forall r, llm_role w r = false.

(** The vote of the mock estimator on a card. *)
Definition mock_vote (card : Z) : string := if card <? 20 then "PLAY" else "WAIT".

Definition mock_thought (card : Z) : string :=
  "Mock thought: Number is " ++ PyStr.of_int card ++ ", so " ++ mock_vote card ++ ".".

(** What a DiscussionRound adds to the history in mock mode when no agent
    is human: the first active agent asks the generic player question and
    every active agent gives the generic answer; with no active agent the
    moderator asks the generic question and nobody answers. *)
Definition mock_discussion (active : list string) : list string :=
  WAIT_LINE ::
  match active with
  | [] => [question_line MODERATOR GENERIC_QUESTION]
  | first :: _ =>
      question_line first GENERIC_PLAYER_QUESTION
      :: map (fun a => answer_line a first GENERIC_ANSWER) active
  end.

(** What holds in addition while a game is played by the mock agents
    alone.  The cards below 20 that are still to come are not below the card
    played last; only cards below 20 were played, in non-decreasing order;
    the game can only fail on the turn budget; and PlayResolution is entered
    with the votes of the mock estimator. *)
Definition mock_inv (e : Engine) (n : Node) (state : GameState) : Prop :=
  (forall a c, In a (agents state) -> ~ In a (finished_agents state) ->
               dict_get (hands state) a = Some c -> c < 20 ->
               last_played_card state <= c)
  /\ (forall c, In c (played_cards state) -> c < 20)
  /\ (status state = FAILED -> max_turns e <= turn_count state)
  /\ ascending (0 :: played_cards state)
  /\ (n = NExecutePlay ->
      NoDup (dict_keys (votes state))
      /\ forall a c, In a (agents state) -> ~ In a (finished_agents state) ->
                     dict_get (hands state) a = Some c ->
                     dict_get (votes state) a = Some (mock_vote c)).

(** The word an agent gives in the Speaking phase, with the reasonings
    updated: the two branches of the loop body of [speaking_loop]. *)
Definition spoken_word (e : Engine) (p : Providers) (state : GameState)
    (history_text agent_id : string) (card : Z) (reasonings : dict string)
  : M (pyval * dict string) :=
  if is_human e agent_id then
    raw <- input ;;
    let typed := PyStr.strip raw in
    let typed := if PyStr.nonempty typed then typed else NO_WORD in
    ret (PyStr typed, dict_set reasonings agent_id EmptyString)
  else
    result <- speaker_generate_word p (theme state) card history_text ;;
    ret (dict_get_default result "word" (PyStr "Error"),
         dict_set reasonings agent_id
           (py_str (dict_get_default result "reasoning" (PyStr EmptyString)))).

(** How a game can end: what holds besides [node_inv] whenever the graph
    stands on node [n].  END is entered with a status other than ACTIVE;
    SUCCESS was returned on equal lengths of [finished_agents] and [agents];
    FAILED comes from a card below its predecessor or from the turn budget;
    the cards on the table are the hands of the agents that played them;
    DiscussionRound is entered without a PLAY vote. *)
Definition end_inv (e : Engine) (n : Node) (state : GameState) : Prop :=
  (n = NEnd -> status state <> ACTIVE)
  /\ (status state = SUCCESS ->
      List.length (finished_agents state) = List.length (agents state))
  /\ (status state = FAILED ->
      (exists before card,
          played_cards state = (before ++ [card])%list /\ card < last before 0)
      \/ max_turns e <= turn_count state)
  /\ map (dict_get (hands state)) (finished_agents state)
     = map Some (played_cards state)
  /\ (n = NWaitRound -> play_candidates (votes state) = [])
  /\ 0 <= turn_count state
  /\ (status state = ACTIVE ->
      turn_count state = 0 \/ turn_count state < max_turns e).

(** An upper bound on the Voting phases still to come: every PlayResolution
    finishes one more agent, every DiscussionRound uses one turn of the
    budget. *)
Definition rounds_left (e : Engine) (state : GameState) : nat :=
  (List.length (agents state) - List.length (finished_agents state))
  + Z.to_nat (Z.max (max_turns e - turn_count state) 1).

End Ito.

(* ===================================================================== *)
(** ** Concrete games *)
(* ===================================================================== *)

(** ASCII letters to upper case: what [str.upper] does on ASCII text. *)
Definition ascii_upper_char (c : ascii) : ascii :=
  let n := nat_of_ascii c in
  if ((97 <=? n) && (n <=? 122))%nat then ascii_of_nat (n - 32) else c.

Fixpoint ascii_upper (s : string) : string :=
  match s with
  | EmptyString => EmptyString
  | String c rest => String (ascii_upper_char c) (ascii_upper rest)
  end.

Definition dquote (s : string) : string :=
  String (ascii_of_nat 34) s ++ String (ascii_of_nat 34) EmptyString.

(** A JSON text and a decoder that knows this text only. *)
Definition PLAY_REPLY : string :=
  "{" ++ dquote "action" ++ ": " ++ dquote " play" ++ "}".

Definition demo_json_loads (text : string) : attempt json_top :=
  if String.eqb text PLAY_REPLY then Returned (JObject [("action", PyStr " play")])
  else Raised "Expecting value: line 1 column 1 (char 0)".

Definition DEMO_THEMES : list string := ["動物の大きさ"; "食べ物の辛さ"].

(** A state after Setup and Speaking, given by the fields that matter. *)
Definition game_state_of (agent_list : list string) (hand_map : dict Z)
    (ballots : dict string) (finished : list string) (played : list Z)
    (turns : Z) : GameState :=
  {| theme := "動物の大きさ";
     history := [GAME_START ++ "動物の大きさ"];
     played_cards := played;
     last_played_card := last played 0;
     utterances := map (fun a => (a, PyStr ("clue of " ++ a))) agent_list;
     turn_count := turns;
     status := ACTIVE;
     deck := [];
     agents := agent_list;
     hands := hand_map;
     votes := ballots;
     finished_agents := finished;
     speaker_reasonings := [];
     estimator_thoughts := [];
     debug := false;
     reveal := false;
     theme_override := EmptyString |}.

(** Three agents, two of them voting PLAY. *)
Definition three_voters_state : GameState :=
  game_state_of ["A"; "B"; "C"] [("A", 50); ("B", 3); ("C", 10)]
    [("A", "PLAY"); ("B", "WAIT"); ("C", "PLAY")] [] [] 0.

(** Two agents that have not voted yet. *)
Definition two_agents_state : GameState :=
  game_state_of ["A"; "B"] [("A", 40); ("B", 70)] [("B", "PLAY")] [] [] 0.

(** Mock mode (no chat model); the human player types a clue, then WAIT,
    then PLAY. *)
Definition mock_world : World :=
  {| rand := fun n => n;
     rand_pos := 0;
     stdin := fun n => match n with
                       | O => "small"
                       | S O => "wait"
                       | _ => " play "
                       end;
     stdin_pos := 0;
     llm := fun _ _ => Raised "no backend";
     llm_pos := 0;
     llm_role := fun _ => false |}.

(** A chat model that answers the estimator with [PLAY_REPLY] and fails on
    every other prompt. *)
Definition llm_world : World :=
  {| rand := fun n => n;
     rand_pos := 0;
     stdin := fun _ => EmptyString;
     stdin_pos := 0;
     llm := fun _ req => match req_prompt req with
                         | ESTIMATOR_SYSTEM_PROMPT => Returned PLAY_REPLY
                         | _ => Raised "timeout"
                         end;
     llm_pos := 0;
     llm_role := fun _ => true |}.

(** Agents A (automated) and B (human), with hands supplied by the caller:
    A holds 10 and B holds 5. *)
Definition descent_engine : Engine :=
  {| agent_ids := ["A"; "B"];
     human_agent_id := Some "B";
     self_theme := Some "動物の大きさ";
     max_turns := 20;
     self_debug := false;
     reveal_hands := false |}.

Definition descent_initial_state : InitialState :=
  {| init_agents := None;
     init_hands := Some [("A", 10); ("B", 5)];
     init_theme_override := None;
     init_history := None |}.

(** The run of that game in mock mode, cut after [fuel] nodes. *)
Definition descent_run (fuel : nat) : Result (Node * GameState * World) :=
  run ascii_upper DEMO_THEMES descent_engine
    (module_providers demo_json_loads ascii_upper) fuel
    (Some descent_initial_state) mock_world.

Definition descent_node (fuel : nat) : Node :=
  match descent_run fuel with
  | Ok (n, _, _) => n
  | Raise _ => NEnd
  end.

Definition descent_state (fuel : nat) : GameState :=
  match descent_run fuel with
  | Ok (_, s, _) => s
  | Raise _ => two_agents_state
  end.

Definition descent_world (fuel : nat) : World :=
  match descent_run fuel with
  | Ok (_, _, w) => w
  | Raise _ => mock_world
  end.

(** Two automated agents and a budget of two discussion rounds. *)
Definition duo_engine : Engine :=
  {| agent_ids := ["A"; "B"];
     human_agent_id := None;
     self_theme := None;
     max_turns := 2;
     self_debug := false;
     reveal_hands := false |}.

(** One agent more than the deck has cards. *)
Definition crowd_engine : Engine :=
  {| agent_ids := map (fun i => "agent" ++ PyStr.of_int i) (py_range 1 101);
     human_agent_id := None;
     self_theme := None;
     max_turns := 20;
     self_debug := false;
     reveal_hands := false |}.

Definition empty_initial_state : InitialState :=
  {| init_agents := None;
     init_hands := None;
     init_theme_override := None;
     init_history := None |}.

(** What a run returned, for the games below. *)
Definition node_of (r : Result (Node * GameState * World)) : Node :=
  match r with
  | Ok (n, _, _) => n
  | Raise _ => NEnd
  end.

Definition state_of (r : Result (Node * GameState * World)) : GameState :=
  match r with
  | Ok (_, s, _) => s
  | Raise _ => two_agents_state
  end.

Definition world_of (r : Result (Node * GameState * World)) : World :=
  match r with
  | Ok (_, _, w) => w
  | Raise _ => mock_world
  end.

(** Two automated agents in mock mode, with hands supplied by the caller:
    A holds 5 and B holds 10.  Both cards are below 20, so both agents vote
    PLAY and the cards come out in order. *)
Definition ascent_initial_state : InitialState :=
  {| init_agents := None;
     init_hands := Some [("A", 5); ("B", 10)];
     init_theme_override := None;
     init_history := None |}.

Definition ascent_run (fuel : nat) : Result (Node * GameState * World) :=
  run ascii_upper DEMO_THEMES duo_engine
    (module_providers demo_json_loads ascii_upper) fuel
    (Some ascent_initial_state) mock_world.


(** Agent B has not been dealt a card, and votes PLAY. *)
Definition no_hand_state : GameState :=
  game_state_of ["A"; "B"] [("A", 40)] [("B", "PLAY")] [] [] 0.


(** The run of [duo_engine] in mock mode when the caller passes no initial
    state: Setup deals the hands from the shuffled deck. *)
Definition fresh_run (fuel : nat) : Result (Node * GameState * World) :=
  run ascii_upper DEMO_THEMES duo_engine
    (module_providers demo_json_loads ascii_upper) fuel None mock_world.


(* ===================================================================== *)
(** * Properties *)
(* ===================================================================== *)

Unset Implicit Arguments.

Section ItoProperties.

Variable json_loads : string -> attempt json_top.
Variable str_upper : string -> string.
Variable THEMES_JA : list string.

(* A proof depends on the section variables of its statement only. *)
Set Default Proof Using "Type".

Local Abbreviation parse_json_object := (parse_json_object json_loads).
Local Abbreviation normalize_action := (normalize_action str_upper).
Local Abbreviation decide_action := (decide_action json_loads str_upper).
Local Abbreviation discussion_call := (discussion_call json_loads).
Local Abbreviation generate_word := (generate_word json_loads).
Local Abbreviation generate_question := (generate_question json_loads).
Local Abbreviation generate_player_question := (generate_player_question json_loads).
Local Abbreviation generate_answer := (generate_answer json_loads).
Local Abbreviation module_providers := (module_providers json_loads str_upper).
Local Abbreviation setup_node := (setup_node THEMES_JA).
Local Abbreviation cast_vote := (cast_vote str_upper).
Local Abbreviation voting_loop := (voting_loop str_upper).
Local Abbreviation voting_node := (voting_node str_upper).
Local Abbreviation node_run := (node_run str_upper).
Local Abbreviation graph_step := (graph_step str_upper).
Local Abbreviation graph_steps := (graph_steps str_upper).
Local Abbreviation Reachable := (Reachable str_upper THEMES_JA).
Local Abbreviation stream := (stream str_upper).
Local Abbreviation run := (run str_upper THEMES_JA).

(** ** Association lists *)

Lemma str_in_In (x : string) (l : list string) : str_in x l = true <-> In x l.
Proof.
  unfold str_in. rewrite existsb_exists. split.
  - intros [y [Hy Heq]]. apply String.eqb_eq in Heq. now subst.
  - intros H. exists x. split; [assumption | apply String.eqb_refl].
Qed.

Lemma str_in_not_In (x : string) (l : list string) : str_in x l = false <-> ~ In x l.
Proof.
  rewrite <- str_in_In. destruct (str_in x l); split; congruence.
Qed.

Lemma dict_get_set {V} (d : dict V) (k k' : string) (v : V) :
  dict_get (dict_set d k v) k' = if String.eqb k k' then Some v else dict_get d k'.
Proof.
  induction d as [|[k0 v0] d IH]; simpl.
  - reflexivity.
  - destruct (String.eqb_spec k0 k) as [->|Hne]; simpl.
    + destruct (String.eqb_spec k k'); reflexivity.
    + rewrite IH. destruct (String.eqb_spec k0 k') as [->|Hne'].
      * destruct (String.eqb_spec k k'); congruence.
      * reflexivity.
Qed.

Lemma dict_get_set_same {V} (d : dict V) (k : string) (v : V) :
  dict_get (dict_set d k v) k = Some v.
Proof. rewrite dict_get_set, String.eqb_refl. reflexivity. Qed.

Lemma dict_keys_set {V} (d : dict V) (k : string) (v : V) :
  dict_keys (dict_set d k v) =
  if str_in k (dict_keys d) then dict_keys d else (dict_keys d ++ [k])%list.
Proof.
  unfold dict_keys. induction d as [|[k0 v0] d IH]; simpl.
  - reflexivity.
  - rewrite (String.eqb_sym k k0).
    destruct (String.eqb_spec k0 k) as [->|Hne]; simpl.
    + reflexivity.
    + rewrite IH. destruct (str_in k (map fst d)); reflexivity.
Qed.

Lemma dict_keys_set_In {V} (d : dict V) (k : string) (v : V) (x : string) :
  In x (dict_keys (dict_set d k v)) <-> In x (dict_keys d) \/ x = k.
Proof.
  clear str_upper json_loads.
  rewrite dict_keys_set. destruct (str_in k (dict_keys d)) eqn:Hk.
  - apply str_in_In in Hk. split; [tauto | intros [H| ->]; assumption].
  - rewrite in_app_iff. simpl. split; intros [H|H]; auto.
    destruct H as [<-|[]]. now right.
Qed.

Lemma NoDup_snoc {A} (l : list A) (x : A) :
  NoDup l -> ~ In x l -> NoDup (l ++ [x]).
Proof.
  induction l as [|y l IH]; simpl; intros Hnd Hx.
  - constructor; [intros [] | constructor].
  - inversion Hnd; subst. constructor.
    + rewrite in_app_iff. simpl. intros [H|[H|[]]]; [contradiction | subst; tauto].
    + apply IH; [assumption | tauto].
Qed.

Lemma dict_keys_set_NoDup {V} (d : dict V) (k : string) (v : V) :
  NoDup (dict_keys d) -> NoDup (dict_keys (dict_set d k v)).
Proof.
  intros Hnd. rewrite dict_keys_set. destruct (str_in k (dict_keys d)) eqn:Hk.
  - assumption.
  - apply str_in_not_In in Hk. now apply NoDup_snoc.
Qed.

Lemma dict_get_Some_In {V} (d : dict V) (k : string) (v : V) :
  dict_get d k = Some v -> In (k, v) d.
Proof.
  induction d as [|[k0 v0] d IH]; simpl; [discriminate|].
  destruct (String.eqb_spec k0 k) as [->|Hne].
  - intros [= ->]. now left.
  - intros H. right. now apply IH.
Qed.

Lemma dict_get_In_keys {V} (d : dict V) (k : string) :
  In k (dict_keys d) <-> exists v, dict_get d k = Some v.
Proof.
  clear str_upper json_loads.
  unfold dict_keys. induction d as [|[k0 v0] d IH]; simpl.
  - split; [tauto | intros [v H]; discriminate].
  - destruct (String.eqb_spec k0 k) as [->|Hne].
    + split; [intros _; now exists v0 | now left].
    + rewrite <- IH. split; [intros [H|H]; [congruence | assumption] | now right].
Qed.

(** ** PlayResolution picks the smallest card among the PLAY voters *)

Lemma play_candidates_In (ballots : dict string) (a : string) :
  In a (play_candidates ballots) <-> In (a, "PLAY") ballots.
Proof.
  clear str_upper json_loads.
  unfold play_candidates. induction ballots as [|[k v] ballots IH]; simpl.
  - tauto.
  - destruct (String.eqb_spec v "PLAY") as [->|Hne]; simpl.
    + rewrite IH. split; intros [H|H]; auto.
      * left. now subst.
      * left. now inversion H.
    + rewrite IH. split; [now right|].
      intros [H|H]; [inversion H; congruence | assumption].
Qed.

(** [min_by_from] returns the first element of [best :: rest] whose key is
    minimal. *)
Lemma min_by_from_spec {A} (key : A -> Result Z) (rest : list A) :
  forall (best : A) (best_key : Z),
    key best = Ok best_key ->
    (forall x, In x rest -> exists k, key x = Ok k) ->
    exists m km before after,
      min_by_from key best best_key rest = Ok m
      /\ key m = Ok km
      /\ (best :: rest = before ++ m :: after)%list
      /\ km <= best_key
      /\ (forall x kx, In x rest -> key x = Ok kx -> km <= kx)
      /\ (forall x kx, In x before -> key x = Ok kx -> km < kx).
Proof.
  induction rest as [|x rest IH]; intros best best_key Hbest Hdef; simpl.
  - exists best, best_key, [], []. repeat split; auto; try lia; intros x kx [].
  - destruct (Hdef x (or_introl eq_refl)) as [k Hk]. rewrite Hk.
    assert (Hdef' : forall y, In y rest -> exists ky, key y = Ok ky)
      by (intros y Hy; apply Hdef; now right).
    destruct (Z.ltb_spec k best_key) as [Hlt|Hge].
    + destruct (IH x k Hk Hdef') as (m & km & before & after & Hm & Hkm & Hsplit & Hle & Hmin & Hfirst).
      exists m, km, (best :: before), after. repeat split; auto.
      * simpl. now rewrite Hsplit.
      * lia.
      * intros y ky [<-|Hy] Hy'; [congruence | eauto].
      * intros y ky [<-|Hy] Hy'; [ | eauto].
        rewrite Hbest in Hy'. inversion Hy'; subst. lia.
    + destruct (IH best best_key Hbest Hdef') as (m & km & before & after & Hm & Hkm & Hsplit & Hle & Hmin & Hfirst).
      destruct before as [|b before]; simpl in Hsplit; injection Hsplit as Hb Hr.
      * subst m after.
        exists best, km, [], (x :: rest). repeat split; auto.
        intros y ky [<-|Hy] Hy'; [ | eauto].
        rewrite Hk in Hy'. inversion Hy'; subst. lia.
      * subst b.
        assert (Hlt : km < best_key).
        { apply (Hfirst best best_key); [now left | assumption]. }
        exists m, km, (best :: x :: before), after.
        repeat split; auto.
        -- simpl. rewrite Hr. reflexivity.
        -- intros y ky [<-|Hy] Hy'; [ | eauto].
           rewrite Hk in Hy'. inversion Hy'; subst. lia.
        -- intros y ky [<-|[<-|Hy]] Hy'.
           ++ rewrite Hbest in Hy'. inversion Hy'; subst. lia.
           ++ rewrite Hk in Hy'. inversion Hy'; subst. lia.
           ++ apply (Hfirst y ky); [now right | assumption].
Qed.

Lemma dict_index_Ok {V} (d : dict V) (k : string) (v : V) :
  dict_index d k = Ok v <-> dict_get d k = Some v.
Proof.
  unfold dict_index. destruct (dict_get d k); split; congruence.
Qed.

Lemma py_min_by_spec {A} (key : A -> Result Z) (l : list A) :
  l <> [] ->
  (forall x, In x l -> exists k, key x = Ok k) ->
  exists m km before after,
    py_min_by key l = Ok m
    /\ key m = Ok km
    /\ (l = before ++ m :: after)%list
    /\ (forall x kx, In x l -> key x = Ok kx -> km <= kx)
    /\ (forall x kx, In x before -> key x = Ok kx -> km < kx).
Proof.
  destruct l as [|x rest]; [congruence|]. intros _ Hdef. simpl.
  destruct (Hdef x (or_introl eq_refl)) as [k Hk]. rewrite Hk.
  destruct (@min_by_from_spec A key rest x k Hk) as
    (m & km & before & after & Hm & Hkm & Hsplit & Hle & Hmin & Hfirst).
  { intros y Hy. apply Hdef. now right. }
  exists m, km, before, after. repeat split; auto.
  intros y ky [<-|Hy] Hy'; [ | eauto].
  rewrite Hk in Hy'. inversion Hy'; subst. assumption.
Qed.

(** C1. Whenever at least one agent votes PLAY (and the PLAY voters hold a
    card), [_execute_play_node] returns a state; the agent it appends to
    [finished_agents] voted PLAY, the card it appends to [played_cards] and
    stores in [last_played_card] is that agent's hand card, and no PLAY
    voter holds a smaller card.  Among PLAY voters with the same smallest
    card the first one in the order of [votes] is taken. *)
Theorem play_resolution_plays_minimum (s : GameState) :
  (exists a, In (a, "PLAY") (votes s)) ->
  (forall a, In (a, "PLAY") (votes s) -> exists c, dict_get (hands s) a = Some c) ->
  exists s' player card,
    execute_play_node s = Ok s'
    /\ In (player, "PLAY") (votes s)
    /\ dict_get (hands s) player = Some card
    /\ (forall a c, In (a, "PLAY") (votes s) ->
                    dict_get (hands s) a = Some c -> card <= c)
    /\ played_cards s' = (played_cards s ++ [card])%list
    /\ finished_agents s' = (finished_agents s ++ [player])%list
    /\ last_played_card s' = card
    /\ exists before after,
         (play_candidates (votes s) = before ++ player :: after)%list
         /\ forall a c, In a before -> dict_get (hands s) a = Some c -> card < c.
Proof.
  intros [a0 Ha0] Hhands.
  destruct (@py_min_by_spec string (fun x => dict_index (hands s) x)
              (play_candidates (votes s)))
    as (player & card & before & after & Hmin & Hcard & Hsplit & Hle & Hfirst).
  - apply play_candidates_In in Ha0. intros Hnil. rewrite Hnil in Ha0. destruct Ha0.
  - intros x Hx. apply play_candidates_In in Hx.
    destruct (Hhands x Hx) as [c Hc]. exists c. now apply dict_index_Ok.
  - unfold execute_play_node. rewrite Hmin, Hcard.
    eexists _, player, card. split; [reflexivity|]. simpl.
    assert (Hin : In player (play_candidates (votes s))).
    { rewrite Hsplit. apply in_or_app. right. now left. }
    repeat split.
    + now apply play_candidates_In.
    + now apply dict_index_Ok.
    + intros a c Ha Hc. apply (Hle a c).
      * now apply play_candidates_In.
      * now apply dict_index_Ok.
    + exists before, after. split; [assumption|].
      intros a c Ha Hc. apply (Hfirst a c Ha). now apply dict_index_Ok.
Qed.

(** ** [str.strip] applied twice *)

Lemma drop_ws_fixed (width : list ascii -> nat) (fuel : nat) (l : list ascii) :
  width l = O -> PyStr.drop_ws width fuel l = l.
Proof.
  intros H. destruct fuel; simpl; [reflexivity|]. now rewrite H.
Qed.

Lemma drop_ws_stuck (width : list ascii -> nat) :
  width [] = O ->
  forall (fuel : nat) (l : list ascii),
    (List.length l <= fuel)%nat -> width (PyStr.drop_ws width fuel l) = O.
Proof.
  intros Hnil fuel. induction fuel as [|fuel IH]; intros l Hlen; cbn [PyStr.drop_ws].
  - destruct l; [assumption | simpl in Hlen; lia].
  - destruct (width l) as [|k] eqn:Hw; [assumption|].
    apply IH. rewrite length_skipn. lia.
Qed.

Lemma drop_ws_skipn (width : list ascii -> nat) (fuel : nat) (l : list ascii) :
  exists n, PyStr.drop_ws width fuel l = skipn n l.
Proof.
  revert l. induction fuel as [|fuel IH]; intros l; cbn [PyStr.drop_ws].
  - now exists O.
  - destruct (width l) as [|k]; [now exists O|].
    destruct (IH (skipn (S k) l)) as [n Hn]. exists (n + S k)%nat.
    now rewrite Hn, skipn_skipn.
Qed.

(** A text that does not start with whitespace has no prefix that does. *)
Lemma ws_prefix_firstn (l : list ascii) (n : nat) :
  PyStr.ws_prefix l = O -> PyStr.ws_prefix (firstn n l) = O.
Proof.
  destruct l as [|c [|d [|x r]]]; destruct n as [|[|[|n]]]; simpl; try reflexivity;
    destruct (PyStr.is_ws1 c); try discriminate; try reflexivity;
    destruct (PyStr.is_ws2 c d); try discriminate; try reflexivity;
    destruct (PyStr.is_ws3 c d x); try discriminate; reflexivity.
Qed.

Lemma strip_bytes_fixed (l : list ascii) :
  let y := PyStr.rstrip_bytes (PyStr.lstrip_bytes l) in
  PyStr.rstrip_bytes (PyStr.lstrip_bytes y) = y.
Proof.
  intros y.
  assert (Hx : PyStr.ws_prefix (PyStr.lstrip_bytes l) = O).
  { apply drop_ws_stuck; [reflexivity | apply Nat.le_refl]. }
  assert (Hy_suffix : PyStr.ws_suffix_rev (rev y) = O).
  { unfold y, PyStr.rstrip_bytes. rewrite rev_involutive.
    apply drop_ws_stuck; [reflexivity | now rewrite length_rev]. }
  assert (Hy_prefix : PyStr.ws_prefix y = O).
  { unfold y, PyStr.rstrip_bytes.
    destruct (drop_ws_skipn PyStr.ws_suffix_rev
                (List.length (PyStr.lstrip_bytes l)) (rev (PyStr.lstrip_bytes l)))
      as [n Hn].
    rewrite Hn, skipn_rev, rev_involutive. now apply ws_prefix_firstn. }
  unfold PyStr.lstrip_bytes at 1. rewrite (drop_ws_fixed _ _ _ Hy_prefix).
  unfold PyStr.rstrip_bytes at 1. rewrite (drop_ws_fixed _ _ _ Hy_suffix).
  apply rev_involutive.
Qed.

Lemma strip_idempotent (s : string) : PyStr.strip (PyStr.strip s) = PyStr.strip s.
Proof.
  unfold PyStr.strip. rewrite list_ascii_of_string_of_list_ascii.
  now rewrite strip_bytes_fixed.
Qed.

Lemma nonempty_true (s : string) : PyStr.nonempty s = true <-> s <> EmptyString.
Proof. destruct s; simpl; split; congruence. Qed.

(** ** Computations that return *)

Lemma bind_Ok {A B} (m : M A) (f : A -> M B) (w : World) (b : B) (w' : World) :
  bind m f w = Ok (b, w') ->
  exists a w1, m w = Ok (a, w1) /\ f a w1 = Ok (b, w').
Proof.
  unfold bind. destruct (m w) as [[a w1]|err]; [|discriminate].
  intros H. now exists a, w1.
Qed.

Lemma bind_Ok_intro {A B} (m : M A) (f : A -> M B) (w w1 : World) (a : A) :
  m w = Ok (a, w1) -> bind m f w = f a w1.
Proof. unfold bind. now intros ->. Qed.

Lemma ret_Ok {A} (a b : A) (w w' : World) :
  ret a w = Ok (b, w') -> a = b /\ w = w'.
Proof. unfold ret. intros [= -> ->]. now split. Qed.

Lemma lift_Ok {A} (r : Result A) (a : A) (w w' : World) :
  lift r w = Ok (a, w') -> r = Ok a /\ w = w'.
Proof. unfold lift. destruct r; [intros [= -> ->]; now split | discriminate]. Qed.

Ltac monad_inv H :=
  let a := fresh "x" in
  let w1 := fresh "w" in
  let H1 := fresh H "_call" in
  apply bind_Ok in H; destruct H as (a & w1 & H1 & H).

(** ** What each node leaves untouched *)

Lemma speaking_node_frame (e : Engine) (p : Providers) (s s' : GameState) (w w' : World) :
  speaking_node e p s w = Ok (s', w') ->
  played_cards s' = played_cards s /\ last_played_card s' = last_played_card s
  /\ status s' = status s /\ agents s' = agents s /\ hands s' = hands s
  /\ finished_agents s' = finished_agents s /\ votes s' = votes s
  /\ turn_count s' = turn_count s.
Proof.
  unfold speaking_node. intros H. monad_inv H.
  destruct x as [[utt reasonings] history_update].
  apply ret_Ok in H. destruct H as [<- _]. simpl. repeat split.
Qed.

Lemma voting_node_inv (e : Engine) (p : Providers) (s s' : GameState) (w w' : World) :
  voting_node e p s w = Ok (s', w') ->
  exists ballots thoughts,
    voting_loop e p s (PyStr.join PyStr.newline (history s)) (agents s) ([], []) w
      = Ok ((ballots, thoughts), w')
    /\ votes s' = ballots
    /\ played_cards s' = played_cards s /\ last_played_card s' = last_played_card s
    /\ status s' = status s /\ agents s' = agents s /\ hands s' = hands s
    /\ finished_agents s' = finished_agents s /\ history s' = history s
    /\ turn_count s' = turn_count s /\ utterances s' = utterances s
    /\ theme s' = theme s.
Proof.
  unfold voting_node. intros H. monad_inv H. destruct x as [ballots thoughts].
  apply ret_Ok in H. destruct H as [<- <-]. simpl.
  exists ballots, thoughts. split; [assumption | repeat split].
Qed.

(** ** Voting *)

Lemma dict_set_set {V} (d : dict V) (k : string) (v v' : V) :
  dict_set (dict_set d k v) k v' = dict_set d k v'.
Proof.
  induction d as [|[k0 v0] d IH]; simpl.
  - now rewrite String.eqb_refl.
  - destruct (String.eqb_spec k0 k) as [->|Hne]; simpl.
    + now rewrite String.eqb_refl.
    + destruct (String.eqb_spec k0 k); [contradiction | now rewrite IH].
Qed.

Lemma dict_get_default_set_same {V} (d : dict V) (k : string) (v default : V) :
  dict_get_default (dict_set d k v) k default = v.
Proof. unfold dict_get_default. now rewrite dict_get_set_same. Qed.

Lemma normalize_action_cases (raw : pyval) :
  normalize_action raw = "PLAY" \/ normalize_action raw = "WAIT".
Proof.
  unfold normalize_action.
  destruct (str_in (str_upper (PyStr.strip (py_str raw))) ["PLAY"; "WAIT"]) eqn:Hin; simpl.
  - apply str_in_In in Hin. destruct Hin as [<-|[<-|[]]]; auto.
  - now right.
Qed.

Lemma normalize_action_other (raw : pyval) :
  str_upper (PyStr.strip (py_str raw)) <> "PLAY" ->
  str_upper (PyStr.strip (py_str raw)) <> "WAIT" ->
  normalize_action raw = "WAIT".
Proof.
  intros Hp Hw. unfold normalize_action.
  destruct (str_in (str_upper (PyStr.strip (py_str raw))) ["PLAY"; "WAIT"]) eqn:Hin; simpl.
  - apply str_in_In in Hin. destruct Hin as [H|[H|[]]]; congruence.
  - reflexivity.
Qed.

Lemma normalize_action_keeps (raw : pyval) :
  (str_upper (PyStr.strip (py_str raw)) = "PLAY" -> normalize_action raw = "PLAY")
  /\ (str_upper (PyStr.strip (py_str raw)) = "WAIT" -> normalize_action raw = "WAIT").
Proof.
  unfold normalize_action. split; intros ->; reflexivity.
Qed.

(** The body of the voting loop records one vote for the agent, PLAY or
    WAIT; for an agent other than the human one it is the estimator's action
    after normalisation. *)
Lemma cast_vote_spec (e : Engine) (p : Providers) (s : GameState) (h a : string)
    (b t b' t' : dict string) (w w' : World) :
  cast_vote e p s h a (b, t) w = Ok ((b', t'), w') ->
  exists card v,
    dict_get (hands s) a = Some card
    /\ b' = dict_set b a v
    /\ (v = "PLAY" \/ v = "WAIT")
    /\ (is_human e a = false ->
        exists decision,
          estimator_decide_action p (theme s) (last_played_card s)
            (other_utterances_of s a) card
            (dict_get_default (utterances s) a (PyStr EmptyString)) h w
          = Ok (decision, w')
          /\ v = normalize_action (dict_get_default decision "action" (PyStr "WAIT"))).
Proof.
  unfold cast_vote. intros H. monad_inv H.
  apply lift_Ok in H_call. destruct H_call as [Hcard <-].
  apply dict_index_Ok in Hcard. rename x into card.
  destruct (is_human e a) eqn:Hhuman.
  - monad_inv H. apply ret_Ok in H. destruct H as [[= <- <-] <-].
    eexists card, _. split; [assumption|]. split; [reflexivity|].
    split; [|discriminate].
    destruct (String.eqb (str_upper (PyStr.strip x)) "PLAY"); auto.
  - monad_inv H. rename x into decision.
    apply ret_Ok in H. destruct H as [[= <- <-] <-].
    exists card, (normalize_action (dict_get_default decision "action" (PyStr "WAIT"))).
    split; [assumption|]. split.
    + rewrite !dict_get_default_set_same.
      unfold normalize_action.
      set (x := str_upper (PyStr.strip (py_str (dict_get_default decision "action" (PyStr "WAIT"))))).
      change ((if negb (str_in x ["PLAY"; "WAIT"])
               then dict_set (dict_set b a x) a "WAIT" else dict_set b a x)
              = dict_set b a (if negb (str_in x ["PLAY"; "WAIT"]) then "WAIT" else x)).
      destruct (str_in x ["PLAY"; "WAIT"]); simpl; [reflexivity | apply dict_set_set].
    + split; [apply normalize_action_cases|].
      intros _. exists decision. split; [assumption | reflexivity].
Qed.

Lemma voting_loop_cons (e : Engine) (p : Providers) (s : GameState) (h : string)
    (x : string) (rest : list string) (acc : dict string * dict string) :
  voting_loop e p s h (x :: rest) acc =
  if str_in x (finished_agents s) then voting_loop e p s h rest acc
  else bind (cast_vote e p s h x acc) (fun acc' => voting_loop e p s h rest acc').
Proof. reflexivity. Qed.

Lemma voting_loop_spec (e : Engine) (p : Providers) (s : GameState) (h : string)
    (todo : list string) :
  forall (b t b' t' : dict string) (w w' : World),
    voting_loop e p s h todo (b, t) w = Ok ((b', t'), w') ->
    (forall a, In a (dict_keys b') <->
               In a (dict_keys b) \/ (In a todo /\ ~ In a (finished_agents s)))
    /\ (NoDup (dict_keys b) -> NoDup (dict_keys b'))
    /\ (forall a v, dict_get b' a = Some v ->
                    v = "PLAY" \/ v = "WAIT" \/ dict_get b a = Some v)
    /\ (forall a, In a todo -> ~ In a (finished_agents s) ->
                  exists c, dict_get (hands s) a = Some c)
    /\ (forall a, ~ (In a todo /\ ~ In a (finished_agents s)) ->
                  dict_get b' a = dict_get b a)
    /\ (forall a, In a todo -> ~ In a (finished_agents s) -> is_human e a = false ->
          exists decision card w0 w1,
            dict_get (hands s) a = Some card
            /\ estimator_decide_action p (theme s) (last_played_card s)
                 (other_utterances_of s a) card
                 (dict_get_default (utterances s) a (PyStr EmptyString)) h w0
               = Ok (decision, w1)
            /\ dict_get b' a
               = Some (normalize_action (dict_get_default decision "action" (PyStr "WAIT")))).
Proof.
  clear json_loads.
  induction todo as [|x rest IH]; intros b t b' t' w w' H.
  - simpl in H. apply ret_Ok in H. destruct H as [[= <- <-] <-].
    repeat split; try tauto; intros; simpl in *; tauto.
  - rewrite voting_loop_cons in H.
    destruct (str_in x (finished_agents s)) eqn:Hfin.
    + apply str_in_In in Hfin.
      destruct (IH _ _ _ _ _ _ H) as (Hkeys & Hnd & Hval & Hhands & Hold & Hai).
      repeat split.
      * intros Ha. apply Hkeys in Ha. simpl. tauto.
      * intros Ha. apply Hkeys. simpl in Ha.
        destruct Ha as [Ha|[[<-|Ha] Hnf]]; tauto.
      * assumption.
      * assumption.
      * intros a [<-|Ha] Hnf; [contradiction | now apply Hhands].
      * intros a Ha. apply Hold. simpl in Ha. tauto.
      * intros a [<-|Ha] Hnf Hh; [contradiction | now apply Hai].
    + apply str_in_not_In in Hfin.
      monad_inv H. destruct x0 as [b1 t1].
      apply cast_vote_spec in H_call.
      destruct H_call as (card & v & Hcard & -> & Hv & Hdec).
      destruct (IH _ _ _ _ _ _ H) as (Hkeys & Hnd & Hval & Hhands & Hold & Hai).
      repeat split.
      * intros Ha. apply Hkeys in Ha. rewrite dict_keys_set_In in Ha. simpl.
        destruct Ha as [[Ha| ->]|Ha]; tauto.
      * intros Ha. apply Hkeys. rewrite dict_keys_set_In. simpl in Ha.
        destruct Ha as [Ha|[[<-|Ha] Hnf]]; tauto.
      * intros Hb. apply Hnd. now apply dict_keys_set_NoDup.
      * intros a v' Ha. destruct (Hval a v' Ha) as [Hp|[Hw|Hb1]]; auto.
        rewrite dict_get_set in Hb1. destruct (String.eqb x a).
        -- inversion Hb1; subst. destruct Hv; auto.
        -- auto.
      * intros a [<-|Ha] Hnf; [now exists card | now apply Hhands].
      * intros a Ha. rewrite Hold by (simpl in Ha; tauto).
        rewrite dict_get_set. destruct (String.eqb_spec x a) as [->|Hne]; [|reflexivity].
        exfalso. apply Ha. simpl. tauto.
      * intros a Ha Hnf Hh.
        destruct (in_dec string_dec a rest) as [Hin|Hnin]; [now apply Hai|].
        destruct Ha as [<-|Ha]; [|contradiction].
        destruct (Hdec Hh) as (decision & Hcall & ->).
        exists decision, card, w, w0. split; [assumption|]. split; [assumption|].
        rewrite Hold by tauto. apply dict_get_set_same.
Qed.

Lemma voting_loop_keys_exact (e : Engine) (p : Providers) (s : GameState) (h : string)
    (todo : list string) :
  forall (b t b' t' : dict string) (w w' : World),
    NoDup todo ->
    (forall a, In a todo -> ~ In a (dict_keys b)) ->
    voting_loop e p s h todo (b, t) w = Ok ((b', t'), w') ->
    dict_keys b'
    = (dict_keys b ++ filter (fun a => negb (str_in a (finished_agents s))) todo)%list.
Proof.
  induction todo as [|x rest IH]; intros b t b' t' w w' Hnd Hfresh H.
  - simpl in H. apply ret_Ok in H. destruct H as [[= <- <-] <-].
    simpl. now rewrite app_nil_r.
  - rewrite voting_loop_cons in H. inversion Hnd as [|? ? Hx Hrest]; subst.
    simpl. destruct (str_in x (finished_agents s)) eqn:Hfin; simpl.
    + apply (IH _ _ _ _ _ _ Hrest) in H; [assumption|].
      intros a Ha. apply Hfresh. now right.
    + monad_inv H. destruct x0 as [b1 t1].
      apply cast_vote_spec in H_call.
      destruct H_call as (card & v & Hcard & -> & Hv & Hdec).
      apply (IH _ _ _ _ _ _ Hrest) in H.
      * rewrite H, dict_keys_set.
        assert (Hnot : str_in x (dict_keys b) = false).
        { apply str_in_not_In. apply Hfresh. now left. }
        rewrite Hnot, <- app_assoc. reflexivity.
      * intros a Ha. rewrite dict_keys_set_In. intros [Hin| ->].
        -- apply (Hfresh a); [now right | assumption].
        -- contradiction.
Qed.

Lemma cast_vote_returns (e : Engine) (p : Providers) (s : GameState) (h a : string)
    (acc : dict string * dict string) (w : World) :
  providers_return p ->
  (exists c, dict_get (hands s) a = Some c) ->
  exists acc' w', cast_vote e p s h a acc w = Ok (acc', w').
Proof.
  intros (_ & Hest & _) [c Hc]. destruct acc as [b t].
  unfold cast_vote, dict_index. rewrite Hc. unfold lift, bind at 1.
  destruct (is_human e a).
  - unfold bind, input, ret. eauto.
  - destruct (Hest (theme s) (last_played_card s) (other_utterances_of s a) c
                (dict_get_default (utterances s) a (PyStr EmptyString)) h w)
      as (d & w' & Hd).
    unfold bind. rewrite Hd. unfold ret. eauto.
Qed.

Lemma voting_loop_returns (e : Engine) (p : Providers) (s : GameState) (h : string)
    (todo : list string) :
  providers_return p ->
  (forall a, In a todo -> ~ In a (finished_agents s) ->
             exists c, dict_get (hands s) a = Some c) ->
  forall (acc : dict string * dict string) (w : World),
    exists acc' w', voting_loop e p s h todo acc w = Ok (acc', w').
Proof.
  intros Hp. induction todo as [|x rest IH]; intros Hhands acc w.
  - simpl. unfold ret. eauto.
  - rewrite voting_loop_cons.
    assert (Hrest : forall a, In a rest -> ~ In a (finished_agents s) ->
                              exists c, dict_get (hands s) a = Some c)
      by (intros a Ha; apply Hhands; now right).
    destruct (str_in x (finished_agents s)) eqn:Hfin.
    + now apply IH.
    + apply str_in_not_In in Hfin.
      destruct (cast_vote_returns e p s h x acc w Hp) as (acc1 & w1 & H1).
      { apply Hhands; [now left | assumption]. }
      unfold bind. rewrite H1. now apply IH.
Qed.

Lemma voting_loop_ignores_votes (e : Engine) (p : Providers) (s : GameState)
    (ballots : dict string) (h : string) (todo : list string) :
  forall (acc : dict string * dict string) (w : World),
    voting_loop e p (with_votes s ballots) h todo acc w = voting_loop e p s h todo acc w.
Proof.
  induction todo as [|x rest IH]; intros acc w; [reflexivity|].
  rewrite !voting_loop_cons.
  change (finished_agents (with_votes s ballots)) with (finished_agents s).
  destruct (str_in x (finished_agents s)); [apply IH|].
  change (cast_vote e p (with_votes s ballots) h x acc) with (cast_vote e p s h x acc).
  unfold bind. destruct (cast_vote e p s h x acc w) as [[acc1 w1]|err]; [apply IH | reflexivity].
Qed.

(** ** The estimator absorbs its failures *)

Lemma decide_action_returns (th : string) (lp : Z) (u : dict pyval) (n : Z)
    (wd : pyval) (h : string) (w : World) :
  exists d w',
    decide_action th lp u n wd h w = Ok (d, w')
    /\ (dict_get d "action" = Some (PyStr "PLAY")
        \/ dict_get d "action" = Some (PyStr "WAIT")).
Proof.
  unfold decide_action, bind, get_llm, try_chain, chain_invoke.
  destruct (llm_role w REstimator); simpl.
  - destruct (llm w (llm_pos w) (estimator_request th lp u n wd h)) as [text|err].
    + destruct (parse_json_object text) as [result|err]; unfold ret.
      * eexists _, _. split; [reflexivity|]. rewrite dict_get_set_same.
        destruct (normalize_action_cases (dict_get_default result "action" (PyStr "WAIT")))
          as [-> | ->]; auto.
      * eexists _, _. split; [reflexivity|]. now right.
    + unfold ret. eexists _, _. split; [reflexivity|]. now right.
  - unfold ret. eexists _, _. split; [reflexivity|].
    destruct (n <? 20); simpl; auto.
Qed.

Lemma decide_action_failure (th : string) (lp : Z) (u : dict pyval) (n : Z)
    (wd : pyval) (h : string) (w : World) (err : string) :
  llm_role w REstimator = true ->
  (llm w (llm_pos w) (estimator_request th lp u n wd h) = Raised err
   \/ exists text,
        llm w (llm_pos w) (estimator_request th lp u n wd h) = Returned text
        /\ parse_json_object text = Raised err) ->
  exists w',
    decide_action th lp u n wd h w
    = Ok ([("thought", PyStr err); ("action", PyStr "WAIT")], w').
Proof.
  intros Hrole Hfail.
  unfold decide_action, bind, get_llm, try_chain, chain_invoke. rewrite Hrole. simpl.
  destruct Hfail as [-> | (text & -> & ->)]; unfold ret; eauto.
Qed.

Lemma discussion_call_returns (req : LlmRequest) (key fallback : string) (w : World) :
  exists d w', discussion_call req key fallback w = Ok (d, w').
Proof.
  unfold discussion_call, bind, get_llm, try_chain, chain_invoke.
  destruct (llm_role w RDiscussion); simpl; unfold ret; [|eauto].
  destruct (llm w (llm_pos w) req) as [text|err]; [|eauto].
  destruct (parse_json_object text); eauto.
Qed.

Lemma generate_word_returns (th : string) (n : Z) (h : string) (w : World) :
  exists d w', generate_word th n h w = Ok (d, w').
Proof.
  unfold generate_word, bind, get_llm, try_chain, chain_invoke.
  destruct (llm_role w RSpeaker); simpl; unfold ret; [|eauto].
  destruct (llm w (llm_pos w) _) as [text|err]; [|eauto].
  destruct (parse_json_object text); eauto.
Qed.

Lemma module_providers_return : providers_return module_providers.
Proof.
  unfold providers_return. simpl. repeat split; intros.
  - apply generate_word_returns.
  - destruct (decide_action_returns th lp u n wd h w) as (d & w' & H & _). eauto.
  - apply discussion_call_returns.
  - apply discussion_call_returns.
  - apply discussion_call_returns.
Qed.

Lemma dict_get_of_In {V} (d : dict V) (k : string) (v : V) :
  NoDup (dict_keys d) -> In (k, v) d -> dict_get d k = Some v.
Proof.
  unfold dict_keys. induction d as [|[k0 v0] d IH]; simpl; intros Hnd Hin; [contradiction|].
  inversion Hnd as [|? ? Hk0 Hd]; subst.
  destruct Hin as [[= -> ->]|Hin].
  - now rewrite String.eqb_refl.
  - destruct (String.eqb_spec k0 k) as [->|Hne]; [|now apply IH].
    exfalso. apply Hk0. change k with (fst (k, v)). now apply in_map.
Qed.

Lemma voting_node_ignores_votes (e : Engine) (p : Providers) (s : GameState)
    (previous : dict string) (w : World) :
  voting_node e p (with_votes s previous) w = voting_node e p s w.
Proof.
  unfold voting_node, bind. rewrite voting_loop_ignores_votes. reflexivity.
Qed.

Lemma voting_node_returns (e : Engine) (p : Providers) (s : GameState) (w : World) :
  providers_return p -> hands_dealt s ->
  exists s' w', voting_node e p s w = Ok (s', w').
Proof.
  intros Hp Hhands.
  destruct (voting_loop_returns e p s (PyStr.join PyStr.newline (history s)) (agents s)
              Hp Hhands ([], []) w) as ([b t] & w' & H).
  unfold voting_node, bind. rewrite H. unfold ret. eauto.
Qed.

(** C7. In the Voting phase the vote recorded for an agent that has not
    played and is not the human player is exactly PLAY or WAIT: it is the
    estimator's action, trimmed and upper-cased, and WAIT whenever that text
    is neither PLAY nor WAIT.  [decide_action] itself always returns: when
    the chat model raises, or its reply does not decode, the result is the
    action WAIT with the error text as thought, and no exception reaches
    the caller. *)
Theorem voting_records_play_or_wait
    (e : Engine) (p : Providers) (s : GameState) (w : World) :
  providers_return p ->
  hands_dealt s ->
  (exists s' w',
     voting_node e p s w = Ok (s', w')
     /\ forall a, In a (agents s) -> ~ In a (finished_agents s) ->
                  is_human e a = false ->
          exists decision card w0 w1,
            estimator_decide_action p (theme s) (last_played_card s)
              (other_utterances_of s a) card
              (dict_get_default (utterances s) a (PyStr EmptyString))
              (PyStr.join PyStr.newline (history s)) w0
            = Ok (decision, w1)
            /\ let action := dict_get_default decision "action" (PyStr "WAIT") in
               let text := str_upper (PyStr.strip (py_str action)) in
               dict_get (votes s') a = Some (normalize_action action)
               /\ (normalize_action action = "PLAY" \/ normalize_action action = "WAIT")
               /\ (text = "PLAY" -> dict_get (votes s') a = Some "PLAY")
               /\ (text <> "PLAY" -> dict_get (votes s') a = Some "WAIT"))
  /\ (forall th lp u n wd h w0,
        exists d w1,
          decide_action th lp u n wd h w0 = Ok (d, w1)
          /\ (dict_get d "action" = Some (PyStr "PLAY")
              \/ dict_get d "action" = Some (PyStr "WAIT")))
  /\ (forall th lp u n wd h w0 err,
        llm_role w0 REstimator = true ->
        (llm w0 (llm_pos w0) (estimator_request th lp u n wd h) = Raised err
         \/ exists text,
              llm w0 (llm_pos w0) (estimator_request th lp u n wd h) = Returned text
              /\ parse_json_object text = Raised err) ->
        exists w1,
          decide_action th lp u n wd h w0
          = Ok ([("thought", PyStr err); ("action", PyStr "WAIT")], w1)).
Proof.
  intros Hp Hhands. split; [|split].
  - destruct (voting_node_returns e p s w Hp Hhands) as (s' & w' & Hrun).
    exists s', w'. split; [assumption|].
    apply voting_node_inv in Hrun.
    destruct Hrun as (b & t & Hloop & Hvotes & _).
    apply voting_loop_spec in Hloop.
    destruct Hloop as (_ & _ & _ & _ & _ & Hai).
    intros a Ha Hnf Hh.
    destruct (Hai a Ha Hnf Hh) as (decision & card & w0 & w1 & Hcard & Hcall & Hvote).
    exists decision, card, w0, w1. split; [assumption|].
    cbv zeta. rewrite Hvotes, Hvote.
    split; [reflexivity|]. split; [apply normalize_action_cases|]. split.
    + intros Htext. f_equal. now apply normalize_action_keeps.
    + intros Htext. f_equal.
      destruct (string_dec (str_upper (PyStr.strip (py_str
                  (dict_get_default decision "action" (PyStr "WAIT"))))) "WAIT") as [Hw|Hw].
      * now apply normalize_action_keeps.
      * now apply normalize_action_other.
  - intros. apply decide_action_returns.
  - intros th lp u n wd h w0 err Hrole Hfail.
    now apply decide_action_failure.
Qed.

(** C10. A Voting phase over a state in which every agent that has not
    played holds a card returns, and in the state it returns the keys of
    [votes] are exactly the agents of [agents] that are not in
    [finished_agents], each once (in list order when the agent list has no
    repetition); every value is PLAY or WAIT; and the result does not depend
    on the [votes] the phase started from. *)
Theorem voting_replaces_votes
    (e : Engine) (p : Providers) (s : GameState) (w : World) :
  providers_return p ->
  hands_dealt s ->
  exists s' w',
    voting_node e p s w = Ok (s', w')
    /\ (forall a, In a (dict_keys (votes s')) <->
                  In a (agents s) /\ ~ In a (finished_agents s))
    /\ NoDup (dict_keys (votes s'))
    /\ (NoDup (agents s) -> dict_keys (votes s') = active_agents_of s)
    /\ (forall a v, In (a, v) (votes s') -> v = "PLAY" \/ v = "WAIT")
    /\ (forall previous, voting_node e p (with_votes s previous) w = Ok (s', w'))
    /\ agents s' = agents s
    /\ finished_agents s' = finished_agents s.
Proof.
  clear json_loads.
  intros Hp Hhands.
  destruct (voting_node_returns e p s w Hp Hhands) as (s' & w' & Hrun).
  exists s', w'. split; [assumption|].
  pose proof Hrun as Hinv. apply voting_node_inv in Hinv.
  destruct Hinv as (b & t & Hloop & Hvotes & _ & _ & _ & Hagents & _ & Hfin & _).
  pose proof Hloop as Hspec. apply voting_loop_spec in Hspec.
  destruct Hspec as (Hkeys & Hnd & Hval & _).
  assert (Hnodup : NoDup (dict_keys (votes s'))).
  { rewrite Hvotes. apply Hnd. constructor. }
  split; [|split; [assumption|split; [|split; [|split; [|split; assumption]]]]].
  - intros a. rewrite Hvotes, Hkeys. simpl. tauto.
  - intros Hnda. rewrite Hvotes.
    apply (voting_loop_keys_exact e p s _ (agents s) [] [] b t w w' Hnda) in Hloop.
    + exact Hloop.
    + intros a _ [].
  - intros a v Hin. apply dict_get_of_In in Hin; [|assumption].
    rewrite Hvotes in Hin. destruct (Hval a v Hin) as [H|[H|H]]; auto. discriminate.
  - intros previous. now rewrite voting_node_ignores_votes.
Qed.

(** ** Setup *)

Lemma deal_covers (agent_list : list string) :
  forall (hand_map : dict Z) (cards : list Z) (hand_map' : dict Z) (cards' : list Z),
    deal agent_list hand_map cards = Ok (hand_map', cards') ->
    forall a, In a agent_list \/ In a (dict_keys hand_map) -> In a (dict_keys hand_map').
Proof.
  induction agent_list as [|x rest IH]; intros hm cards hm' cards' H a Ha; simpl in H.
  - inversion H; subst. destruct Ha as [[]|Ha]. assumption.
  - destruct (draw_card cards) as [[card cards1]|err]; [|discriminate].
    apply (IH _ _ _ _ H). rewrite dict_keys_set_In.
    destruct Ha as [[<-|Ha]|Ha]; auto.
Qed.

Lemma set_eqb_incl (a b : list string) :
  set_eqb a b = true -> forall x, In x b -> In x a.
Proof.
  unfold set_eqb. intros H x Hx. apply andb_prop in H. destruct H as [_ H].
  rewrite forallb_forall in H. apply str_in_In. now apply H.
Qed.

Lemma setup_node_spec (e : Engine) (init : InitialState) (s : GameState) (w w' : World) :
  setup_node e init w = Ok (s, w') ->
  played_cards s = [] /\ last_played_card s = 0 /\ status s = ACTIVE
  /\ votes s = [] /\ finished_agents s = [] /\ turn_count s = 0
  /\ agents s = list_or (init_agents init) (agent_ids e)
  /\ hands_dealt s.
Proof.
  unfold setup_node. intros H. monad_inv H. destruct x as [hand_map cards].
  monad_inv H. apply ret_Ok in H. destruct H as [<- <-]. simpl.
  repeat split. unfold hands_dealt. simpl. intros a Ha _.
  apply dict_get_In_keys.
  destruct (set_eqb _ _) eqn:Hset in H_call.
  - monad_inv H_call. apply ret_Ok in H_call. destruct H_call as [[= <- _] _].
    now apply (set_eqb_incl _ _ Hset).
  - monad_inv H_call. apply lift_Ok in H_call. destruct H_call as [Hdeal _].
    apply (deal_covers _ _ _ _ _ Hdeal). now left.
Qed.

(** ** PlayResolution and DiscussionRound, step by step *)

Lemma execute_play_node_inv (s s' : GameState) :
  execute_play_node s = Ok s' ->
  exists player card,
    In (player, "PLAY") (votes s)
    /\ dict_get (hands s) player = Some card
    /\ played_cards s' = (played_cards s ++ [card])%list
    /\ finished_agents s' = (finished_agents s ++ [player])%list
    /\ last_played_card s' = card
    /\ status s' =
       (if card <? last_played_card s then FAILED
        else if (List.length (finished_agents s ++ [player]) =? List.length (agents s))%nat
             then SUCCESS else ACTIVE)
    /\ agents s' = agents s /\ hands s' = hands s /\ votes s' = votes s
    /\ turn_count s' = turn_count s.
Proof.
  unfold execute_play_node. intros H.
  destruct (py_min_by _ _) as [player|err] eqn:Hmin; [|discriminate].
  destruct (dict_index (hands s) player) as [card|err] eqn:Hcard; [|discriminate].
  inversion H; subst; clear H. simpl.
  exists player, card. apply dict_index_Ok in Hcard.
  split; [|repeat split; assumption].
  apply play_candidates_In.
  destruct (play_candidates (votes s)) as [|x rest] eqn:Hc; simpl in Hmin; [discriminate|].
  destruct (dict_index (hands s) x) as [k|] eqn:Hk; [|discriminate].
  clear Hc Hcard. revert x k Hk Hmin.
  induction rest as [|y rest IH]; intros x k Hk Hmin; simpl in Hmin.
  - inversion Hmin. now left.
  - destruct (dict_index (hands s) y) as [ky|] eqn:Hky; [|discriminate].
    destruct (ky <? k).
    + destruct (IH y ky Hky Hmin) as [<-|Hin]; [right; now left | right; now right].
    + destruct (IH x k Hk Hmin) as [<-|Hin]; [now left | right; now right].
Qed.

Lemma wait_round_node_inv (e : Engine) (p : Providers) (s s' : GameState) (w w' : World) :
  wait_round_node e p s w = Ok (s', w') ->
  turn_count s' = turn_count s + 1
  /\ votes s' = []
  /\ status s' = (if max_turns e <=? turn_count s + 1 then FAILED else status s)
  /\ played_cards s' = played_cards s /\ last_played_card s' = last_played_card s
  /\ agents s' = agents s /\ hands s' = hands s
  /\ finished_agents s' = finished_agents s
  /\ exists history_update,
       history s' =
       (if max_turns e <=? turn_count s + 1
        then history s ++ history_update ++ [STAGNATION_LINE]
        else history s ++ history_update)%list.
Proof.
  unfold wait_round_node. intros H. monad_inv H. destruct x as [proposals seen].
  monad_inv H. monad_inv H. rename x0 into history_update.
  destruct (max_turns e <=? turn_count s + 1);
    apply ret_Ok in H; destruct H as [<- <-]; simpl;
    repeat split; now exists history_update.
Qed.

(** ** Ascending sequences of cards *)

Lemma last_cons (l : list Z) (x d : Z) : last (x :: l) d = last l x.
Proof.
  revert x d. induction l as [|y l IH]; intros x d; [reflexivity|].
  change (last (x :: y :: l) d) with (last (y :: l) d).
  now rewrite !IH.
Qed.

Lemma ascending_tail (x : Z) (l : list Z) : ascending (x :: l) -> ascending l.
Proof. destruct l; simpl; tauto. Qed.

Lemma ascending_snoc (l : list Z) (x : Z) :
  ascending l -> (forall d, l <> [] -> last l d <= x) -> ascending (l ++ [x]).
Proof.
  induction l as [|a l IH]; intros Hasc Hlast; [exact I|].
  destruct l as [|b l].
  - simpl. split; [|exact I]. apply (Hlast 0). discriminate.
  - destruct Hasc as [Hab Hasc]. split; [assumption|].
    apply IH; [assumption|]. intros d _. apply (Hlast d). discriminate.
Qed.

Lemma ascending_app_last (l : list Z) (x : Z) :
  l <> [] -> ascending (l ++ [x]) -> last l 0 <= x.
Proof.
  induction l as [|a l IH]; intros Hne Hasc; [congruence|].
  destruct l as [|b l].
  - simpl in *. lia.
  - destruct Hasc as [_ Hasc]. change (last (a :: b :: l) 0) with (last (b :: l) 0).
    apply IH; [discriminate | assumption].
Qed.

Lemma ascending_max_is_last (l : list Z) :
  forall x, ascending (x :: l) -> fold_left Z.max l x = last l x.
Proof.
  induction l as [|y l IH]; intros x Hasc; [reflexivity|].
  destruct Hasc as [Hxy Hasc]. simpl fold_left.
  rewrite Z.max_r by assumption. rewrite IH by assumption.
  symmetry. apply last_cons.
Qed.

Lemma ascending_highest_is_last (cards : list Z) :
  ascending (0 :: cards) -> highest_card cards = last cards 0.
Proof.
  destruct cards as [|c rest]; [reflexivity|]. intros Hasc.
  apply ascending_tail in Hasc. unfold highest_card.
  rewrite ascending_max_is_last by assumption. symmetry. apply last_cons.
Qed.

(** ** The invariant of the graph *)

Lemma status_active_dec (st : Status) : st = ACTIVE \/ st <> ACTIVE.
Proof. destruct st; [now left | right; discriminate | right; discriminate]. Qed.

Lemma check_game_end_spec (s : GameState) :
  (status s = ACTIVE /\ check_game_end s = NVoting)
  \/ (status s <> ACTIVE /\ check_game_end s = NEnd).
Proof.
  unfold check_game_end. destruct (status s); simpl;
    [left | right | right]; split; try reflexivity; discriminate.
Qed.

Lemma setup_establishes_inv (e : Engine) (init : InitialState) (s : GameState)
    (w w' : World) :
  setup_node e init w = Ok (s, w') -> node_inv NSpeaking s.
Proof.
  intros H. apply setup_node_spec in H.
  destruct H as (Hplayed & Hlast & Hstatus & Hvotes & Hfin & _ & _ & Hhands).
  unfold node_inv, finished_ok. rewrite Hplayed, Hlast, Hstatus, Hfin.
  repeat split; try assumption; try discriminate; try exact I.
  - intros a [].
  - constructor.
  - congruence.
Qed.

Lemma play_preserves_finished_ok (s s' : GameState) :
  finished_ok s -> voters_ready s -> execute_play_node s = Ok s' -> finished_ok s'.
Proof.
  intros (Hincl & Hnd & Hlen) (_ & Hvoters) H.
  apply execute_play_node_inv in H.
  destruct H as (player & card & Hplay & _ & Hplayed & Hfin & _ & _ & Hagents & _).
  assert (Hkey : In player (dict_keys (votes s))).
  { change player with (fst (player, "PLAY")). now apply in_map. }
  destruct (Hvoters player Hkey) as (Hin & Hnf & _).
  unfold finished_ok. rewrite Hplayed, Hfin, Hagents. repeat split.
  - intros a Ha. apply in_app_or in Ha. destruct Ha as [Ha|[<-|[]]]; auto.
  - now apply NoDup_snoc.
  - rewrite !length_app. simpl. lia.
Qed.

Lemma step_preserves_inv (e : Engine) (p : Providers) (n : Node)
    (s s' : GameState) (w w' : World) :
  node_inv n s -> n <> NEnd -> node_run e p n s w = Ok (s', w') ->
  node_inv (next_node n s') s'.
Proof.
  clear json_loads.
  intros (Hfok & Hhands & Hstat & Hlast & Hasc & Hvote) Hn Hrun.
  assert (Hactive : status s = ACTIVE).
  { destruct (status_active_dec (status s)) as [H|H]; [assumption|].
    now apply Hstat in H. }
  destruct n; simpl in Hrun; try congruence.
  - (* Speaking *)
    apply speaking_node_frame in Hrun.
    destruct Hrun as (Hp & Hl & Hs & Ha & Hh & Hf & _).
    unfold node_inv, finished_ok, hands_dealt in *.
    rewrite Hp, Hl, Hs, Ha, Hh, Hf. simpl.
    repeat split; try tauto; try discriminate; try congruence.
  - (* Voting *)
    apply voting_node_inv in Hrun.
    destruct Hrun as (b & t & Hloop & Hv & Hp & Hl & Hs & Ha & Hh & Hf & _).
    apply voting_loop_spec in Hloop.
    destruct Hloop as (Hkeys & _ & _ & Hcards & _).
    unfold node_inv, finished_ok, hands_dealt, voters_ready in *.
    rewrite Hp, Hl, Hs, Ha, Hh, Hf, Hv. simpl.
    split; [tauto|]. split; [tauto|]. split; [intros Hst; congruence|].
    split; [tauto|]. split; [tauto|]. intros Hroute. split.
    + unfold router_node in Hroute. rewrite Hv in Hroute.
      destruct (play_candidates b) as [|a rest] eqn:Hc; [discriminate|].
      exists a. apply play_candidates_In. rewrite Hc. now left.
    + intros a Hkey. apply Hkeys in Hkey. simpl in Hkey.
      destruct Hkey as [[]|[Hin Hnf]]. auto.
  - (* PlayResolution *)
    apply lift_Ok in Hrun. destruct Hrun as [Hrun _].
    specialize (Hvote eq_refl).
    pose proof (play_preserves_finished_ok s s' Hfok Hvote Hrun) as Hfok'.
    apply execute_play_node_inv in Hrun.
    destruct Hrun as (player & card & Hplay & Hcard & Hplayed & Hfin & Hl & Hs & Ha & Hh & _).
    unfold node_inv. split; [assumption|]. split; [|split; [|split; [|split]]].
    + unfold hands_dealt in *. rewrite Ha, Hh, Hfin. intros a Hin Hnf.
      apply Hhands; [assumption|]. intros Hc. apply Hnf. apply in_or_app. now left.
    + simpl. destruct (check_game_end_spec s') as [[H1 H2]|[H1 H2]]; [congruence|tauto].
    + rewrite Hl, Hplayed. symmetry. apply last_last.
    + intros Hnf. rewrite Hplayed. change (ascending ((0 :: played_cards s) ++ [card])).
      apply ascending_snoc.
      * apply Hasc. congruence.
      * intros d _. rewrite last_cons, <- Hlast.
        rewrite Hs in Hnf. destruct (Z.ltb_spec card (last_played_card s)); [congruence | lia].
    + simpl. destruct (check_game_end_spec s') as [[_ H2]|[_ H2]]; rewrite H2; discriminate.
  - (* DiscussionRound *)
    apply wait_round_node_inv in Hrun.
    destruct Hrun as (_ & _ & Hs & Hp & Hl & Ha & Hh & Hf & _).
    unfold node_inv, finished_ok, hands_dealt in *.
    rewrite Hp, Hl, Ha, Hh, Hf. simpl.
    split; [tauto|]. split; [tauto|]. split; [|split; [tauto|split]].
    + destruct (check_game_end_spec s') as [[H1 H2]|[H1 H2]]; [congruence|tauto].
    + intros Hnf. apply Hasc. rewrite Hs in Hnf.
      destruct (max_turns e <=? turn_count s + 1); congruence.
    + destruct (check_game_end_spec s') as [[_ H2]|[_ H2]]; rewrite H2; discriminate.
Qed.

Lemma Node_eq_dec_end (n : Node) : n = NEnd \/ n <> NEnd.
Proof. destruct n; [right; discriminate .. | now left]. Qed.

Lemma reachable_inv (e : Engine) (p : Providers) (n : Node) (s : GameState) (w : World) :
  Reachable e p n s w -> node_inv n s.
Proof.
  induction 1 as [init w s w' Hsetup | n s w n' s' w' Hreach IH Hstep].
  - now apply setup_establishes_inv in Hsetup.
  - inversion Hstep; subst. now apply (step_preserves_inv e p n s s' w w').
Qed.

Lemma reach_node_run (e : Engine) (p : Providers) (n : Node) (s s' : GameState)
    (w w' : World) :
  Reachable e p n s w -> n <> NEnd -> node_run e p n s w = Ok (s', w') ->
  Reachable e p (next_node n s') s' w'.
Proof.
  intros Hreach Hn Hrun. eapply reach_step; [exact Hreach|]. now constructor.
Qed.

Lemma stream_S (e : Engine) (p : Providers) (fuel : nat) (n : Node) (s : GameState) :
  n <> NEnd ->
  stream e p (S fuel) n s =
  bind (node_run e p n s) (fun s' => stream e p fuel (next_node n s') s').
Proof. destruct n; intros Hn; [reflexivity .. | congruence]. Qed.

Lemma stream_end (e : Engine) (p : Providers) (fuel : nat) (s : GameState) :
  stream e p fuel NEnd s = ret (NEnd, s).
Proof. destruct fuel; reflexivity. Qed.

Lemma stream_reachable (e : Engine) (p : Providers) (fuel : nat) :
  forall n s w n' s' w',
    Reachable e p n s w ->
    stream e p fuel n s w = Ok ((n', s'), w') ->
    Reachable e p n' s' w'.
Proof.
  induction fuel as [|fuel IH]; intros n s w n' s' w' Hreach Hrun.
  - destruct n; simpl in Hrun; apply ret_Ok in Hrun;
      destruct Hrun as [[= <- <-] <-]; assumption.
  - destruct (Node_eq_dec_end n) as [-> | Hn].
    + rewrite stream_end in Hrun. apply ret_Ok in Hrun.
      destruct Hrun as [[= <- <-] <-]. assumption.
    + rewrite stream_S in Hrun by assumption. monad_inv Hrun.
      apply (IH _ _ _ _ _ _) in Hrun; [assumption|].
      now apply (reach_node_run e p n s x w w0).
Qed.

Lemma run_reachable (e : Engine) (p : Providers) (fuel : nat)
    (initial_state : option InitialState) (w : World) (n : Node) (s : GameState)
    (w' : World) :
  run e p fuel initial_state w = Ok ((n, s), w') -> Reachable e p n s w'.
Proof.
  unfold run. intros H. monad_inv H.
  apply (stream_reachable e p fuel NSpeaking x w0); [|assumption].
  eapply reach_setup. exact H_call.
Qed.

Lemma no_step_from_end (e : Engine) (p : Providers) (s : GameState) (w : World)
    (c : Node * GameState * World) :
  graph_steps e p (NEnd, s, w) c -> c = (NEnd, s, w).
Proof.
  intros H. inversion H as [|c1 c2 c3 Hstep Hrest]; subst; [reflexivity|].
  inversion Hstep; subst. congruence.
Qed.

Lemma execute_play_node_returns (s : GameState) :
  voters_ready s -> exists s', execute_play_node s = Ok s'.
Proof.
  intros [[a0 Ha0] Hvoters].
  destruct (py_min_by_spec (fun x => dict_index (hands s) x) (play_candidates (votes s)))
    as (player & card & before & after & Hmin & Hcard & _).
  - apply play_candidates_In in Ha0. intros Hnil. rewrite Hnil in Ha0. destruct Ha0.
  - intros x Hx. apply play_candidates_In in Hx.
    assert (Hkey : In x (dict_keys (votes s))).
    { change x with (fst (x, "PLAY")). now apply in_map. }
    destruct (Hvoters x Hkey) as (_ & _ & c & Hc). exists c. now apply dict_index_Ok.
  - unfold execute_play_node. rewrite Hmin, Hcard. eauto.
Qed.

Lemma all_finished_iff_lengths (agent_list finished : list string) :
  incl finished agent_list -> NoDup finished ->
  (List.length finished = List.length agent_list -> incl agent_list finished)
  /\ (NoDup agent_list -> incl agent_list finished ->
      List.length finished = List.length agent_list).
Proof.
  intros Hincl Hnd. split.
  - intros Hlen. apply NoDup_length_incl; [assumption | lia | assumption].
  - intros Hnda Hall. apply Nat.le_antisymm; now apply NoDup_incl_length.
Qed.

(** C9. In every state a run of the graph reaches after Setup,
    [finished_agents] is contained in [agents] and has no duplicate, and
    [played_cards] has as many entries as [finished_agents]; the state Setup
    returns satisfies this, and every node run from such a state returns a
    state that satisfies it again. *)
Theorem finished_agents_invariant
    (e : Engine) (p : Providers) (n : Node) (s : GameState) (w : World) :
  Reachable e p n s w ->
  (incl (finished_agents s) (agents s)
   /\ NoDup (finished_agents s)
   /\ List.length (played_cards s) = List.length (finished_agents s))
  /\ (forall n' s' w', graph_step e p (n, s, w) (n', s', w') -> finished_ok s')
  /\ (forall init w0 s0 w1, setup_node e init w0 = Ok (s0, w1) -> finished_ok s0).
Proof.
  intros Hreach. split; [|split].
  - apply reachable_inv in Hreach. destruct Hreach as [Hfok _]. exact Hfok.
  - intros n' s' w' Hstep.
    assert (Hreach' : Reachable e p n' s' w') by (eapply reach_step; eassumption).
    apply reachable_inv in Hreach'. now destruct Hreach'.
  - intros init w0 s0 w1 Hsetup. apply setup_establishes_inv in Hsetup.
    now destruct Hsetup.
Qed.

(** C5. In every reachable state whose status is ACTIVE (indeed, whose
    status is not FAILED) [played_cards] is non-decreasing.  A step that
    appends a card strictly below its predecessor returns status FAILED.
    From a reachable state with status FAILED the graph makes no further
    step, so nothing is appended to [played_cards] any more. *)
Theorem played_cards_ascend_until_failure
    (e : Engine) (p : Providers) (n : Node) (s : GameState) (w : World) :
  Reachable e p n s w ->
  (status s = ACTIVE -> ascending (played_cards s))
  /\ (status s <> FAILED -> ascending (played_cards s))
  /\ (forall n' s' w' card,
        graph_step e p (n, s, w) (n', s', w') ->
        played_cards s' = (played_cards s ++ [card])%list ->
        played_cards s <> [] ->
        card < last (played_cards s) 0 ->
        status s' = FAILED /\ n' = NEnd)
  /\ (status s = FAILED ->
      forall n' s' w',
        graph_steps e p (n, s, w) (n', s', w') ->
        s' = s /\ played_cards s' = played_cards s).
Proof.
  intros Hreach. pose proof (reachable_inv e p n s w Hreach) as Hinv.
  destruct Hinv as (_ & _ & Hstat & Hlast & Hasc & _).
  split; [|split; [|split]].
  - intros Hact. apply (ascending_tail 0). apply Hasc. congruence.
  - intros Hnf. apply (ascending_tail 0). now apply Hasc.
  - intros n' s' w' card Hstep Happ Hne Hlt.
    assert (Hreach' : Reachable e p n' s' w') by (eapply reach_step; eassumption).
    apply reachable_inv in Hreach'.
    destruct Hreach' as (_ & _ & Hstat' & _ & Hasc' & _).
    assert (Hfailed : status s' = FAILED).
    { destruct (status s') eqn:Hs'; [exfalso | reflexivity | exfalso].
      - assert (Ha : ascending (0 :: played_cards s')) by (apply Hasc'; discriminate).
        apply ascending_tail in Ha. rewrite Happ in Ha.
        apply ascending_app_last in Ha; [lia | assumption].
      - assert (Ha : ascending (0 :: played_cards s')) by (apply Hasc'; discriminate).
        apply ascending_tail in Ha. rewrite Happ in Ha.
        apply ascending_app_last in Ha; [lia | assumption]. }
    split; [assumption|]. apply Hstat'. rewrite Hfailed. discriminate.
  - intros Hfailed n' s' w' Hsteps.
    assert (Hend : n = NEnd) by (apply Hstat; rewrite Hfailed; discriminate).
    subst n. apply no_step_from_end in Hsteps. inversion Hsteps; subst. now split.
Qed.

(** C4 (amended). In every state reachable from Setup, [last_played_card]
    is the card played last (the last entry of [played_cards]), and 0 when
    no card was played; whenever the status is not FAILED it is also the
    highest card played so far. *)
Theorem last_played_card_is_latest
    (e : Engine) (p : Providers) (n : Node) (s : GameState) (w : World) :
  Reachable e p n s w ->
  last_played_card s = last (played_cards s) 0
  /\ (status s <> FAILED -> last_played_card s = highest_card (played_cards s)).
Proof.
  intros Hreach. apply reachable_inv in Hreach.
  destruct Hreach as (_ & _ & _ & Hlast & Hasc & _).
  split; [assumption|]. intros Hnf.
  rewrite ascending_highest_is_last by (now apply Hasc). assumption.
Qed.

(** C2. A PlayResolution step of a run starts from status ACTIVE and
    returns a state whose status is FAILED if the played card is strictly
    below the previous [last_played_card]; SUCCESS if it is not and every
    agent is now in [finished_agents]; and ACTIVE otherwise.  The code
    compares the lengths of [finished_agents] and [agents]: when the agent
    identifiers are pairwise distinct this is the same as every agent being
    finished, and SUCCESS is never returned unless every agent is. *)
Theorem play_resolution_status
    (e : Engine) (p : Providers) (s : GameState) (w : World) :
  Reachable e p NExecutePlay s w ->
  status s = ACTIVE
  /\ exists s' card,
       execute_play_node s = Ok s'
       /\ played_cards s' = (played_cards s ++ [card])%list
       /\ (card < last_played_card s -> status s' = FAILED)
       /\ (NoDup (agents s) ->
           last_played_card s <= card ->
           (forall a, In a (agents s') -> In a (finished_agents s')) ->
           status s' = SUCCESS)
       /\ (last_played_card s <= card ->
           ~ (forall a, In a (agents s') -> In a (finished_agents s')) ->
           status s' = ACTIVE)
       /\ (status s' = SUCCESS ->
           last_played_card s <= card
           /\ forall a, In a (agents s') -> In a (finished_agents s')).
Proof.
  intros Hreach. apply reachable_inv in Hreach.
  destruct Hreach as (Hfok & _ & Hstat & _ & _ & Hvote).
  specialize (Hvote eq_refl). split.
  { destruct (status_active_dec (status s)) as [H|H]; [assumption|].
    apply Hstat in H. discriminate. }
  destruct (execute_play_node_returns s Hvote) as [s' Hrun].
  pose proof (play_preserves_finished_ok s s' Hfok Hvote Hrun) as (Hincl & Hnd & _).
  pose proof Hrun as Hinv. apply execute_play_node_inv in Hinv.
  destruct Hinv as (player & card & _ & _ & Hplayed & Hfin & _ & Hs & Ha & _).
  exists s', card. split; [assumption|]. split; [assumption|].
  rewrite Hs, <- Hfin, <- Ha.
  destruct (all_finished_iff_lengths (agents s') (finished_agents s') Hincl Hnd)
    as [Hlen_all Hall_len].
  split; [|split; [|split]].
  - intros Hlt. destruct (Z.ltb_spec card (last_played_card s)); [reflexivity | lia].
  - intros Hnda Hge Hall. destruct (Z.ltb_spec card (last_played_card s)); [lia|].
    rewrite (Hall_len Hnda Hall), Nat.eqb_refl. reflexivity.
  - intros Hge Hnot. destruct (Z.ltb_spec card (last_played_card s)); [lia|].
    destruct (Nat.eqb_spec (List.length (finished_agents s')) (List.length (agents s')))
      as [Heq|Hneq]; [|reflexivity].
    exfalso. apply Hnot. exact (Hlen_all Heq).
  - destruct (Z.ltb_spec card (last_played_card s)); [discriminate|].
    destruct (Nat.eqb_spec (List.length (finished_agents s')) (List.length (agents s')))
      as [Heq|Hneq]; [|discriminate].
    intros _. split; [assumption | exact (Hlen_all Heq)].
Qed.

(** ** The deck *)

Lemma py_range_length (n : nat) : forall lo, List.length (py_range lo n) = n.
Proof. induction n as [|n IH]; intros lo; simpl; [reflexivity | now rewrite IH]. Qed.

Lemma remove_nth_length (l : list Z) :
  forall i, (i < List.length l)%nat ->
            List.length (remove_nth i l) = (List.length l - 1)%nat.
Proof.
  induction l as [|x l IH]; intros i Hi; simpl in *; [lia|].
  destruct i as [|i]; simpl; [lia|]. rewrite IH by lia. lia.
Qed.

Lemma shuffle_length (n : nat) :
  forall (pool : list Z) (w : World),
    (n <= List.length pool)%nat ->
    exists l w', shuffle n pool w = Ok (l, w') /\ List.length l = List.length pool.
Proof.
  induction n as [|n IH]; intros pool w Hn; simpl.
  - unfold ret. eauto.
  - unfold bind at 1. unfold randbelow at 1.
    set (i := (rand w (rand_pos w) mod List.length pool)%nat).
    assert (Hi : (i < List.length pool)%nat) by (apply Nat.mod_upper_bound; lia).
    match goal with |- context [bind _ _ ?w1] =>
      destruct (IH (remove_nth i pool) w1) as (rest & w' & Hrest & Hlen) end.
    { rewrite remove_nth_length by assumption. lia. }
    unfold bind. rewrite Hrest. unfold ret. eexists _, _. split; [reflexivity|].
    simpl. rewrite Hlen, remove_nth_length by assumption. lia.
Qed.

Lemma remove_nth_perm (l : list Z) :
  forall i, (i < List.length l)%nat -> Permutation (nth i l 0 :: remove_nth i l) l.
Proof.
  induction l as [|x l IH]; intros i Hi; simpl in Hi; [lia|].
  destruct i as [|i]; simpl; [apply Permutation_refl|].
  eapply perm_trans; [apply perm_swap|]. apply perm_skip. apply IH. lia.
Qed.

(** Whatever the random numbers, [shuffle] returns a permutation. *)
Lemma shuffle_perm (n : nat) :
  forall (pool : list Z) (w : World) (l : list Z) (w' : World),
    (n <= List.length pool)%nat ->
    shuffle n pool w = Ok (l, w') -> Permutation l pool.
Proof.
  induction n as [|n IH]; intros pool w l w' Hn H; simpl in H.
  - apply ret_Ok in H. destruct H as [<- _]. apply Permutation_refl.
  - monad_inv H. monad_inv H. apply ret_Ok in H. destruct H as [<- _].
    unfold randbelow in H_call. injection H_call as <- _.
    set (i := (rand w (rand_pos w) mod List.length pool)%nat) in *.
    assert (Hi : (i < List.length pool)%nat) by (apply Nat.mod_upper_bound; lia).
    apply IH in H_call0; [|rewrite remove_nth_length by assumption; lia].
    eapply perm_trans; [apply perm_skip; exact H_call0|].
    now apply remove_nth_perm.
Qed.

Lemma create_deck_perm (w : World) (l : list Z) (w' : World) :
  create_deck w = Ok (l, w') -> Permutation l (py_range 1 100).
Proof.
  unfold create_deck. intros H. apply shuffle_perm in H; [assumption | apply Nat.le_refl].
Qed.

Lemma create_deck_spec (w : World) :
  exists l w', create_deck w = Ok (l, w') /\ List.length l = 100%nat.
Proof.
  unfold create_deck.
  destruct (shuffle_length (List.length (py_range 1 100)) (py_range 1 100) w (Nat.le_refl _))
    as (l & w' & H & Hlen).
  exists l, w'. split; [assumption|]. now rewrite Hlen, py_range_length.
Qed.

Lemma removelast_length (cards : list Z) :
  forall c, List.length (removelast (c :: cards)) = List.length cards.
Proof.
  induction cards as [|d cards IH]; intros c; [reflexivity|].
  change (removelast (c :: d :: cards)) with (c :: removelast (d :: cards)).
  cbn [List.length]. now rewrite IH.
Qed.

Lemma deal_exhausts (agent_list : list string) :
  forall (hand_map : dict Z) (cards : list Z),
    (List.length cards < List.length agent_list)%nat ->
    deal agent_list hand_map cards = Raise (IndexError "Deck is empty").
Proof.
  induction agent_list as [|a rest IH]; intros hm cards Hlen; simpl in Hlen; [lia|].
  simpl. destruct cards as [|c cards]; [reflexivity|].
  cbn [draw_card]. apply IH.
  rewrite removelast_length. simpl in Hlen. lia.
Qed.

(** C6. [draw_card] on an empty deck raises (IndexError, deck is empty),
    and Setup raises that same error, returning no state, whenever more than
    100 agents are to be dealt a card, that is, whenever the agent list has
    more than 100 entries and the caller supplied no complete hand mapping. *)
Theorem setup_fails_fast_on_empty_deck
    (e : Engine) (state : InitialState) (w : World) :
  (100 < List.length (list_or (init_agents state) (agent_ids e)))%nat ->
  set_eqb (dict_keys (match init_hands state with Some h => h | None => [] end))
          (list_or (init_agents state) (agent_ids e)) = false ->
  draw_card [] = Raise (IndexError "Deck is empty")
  /\ setup_node e state w = Raise (IndexError "Deck is empty").
Proof.
  intros Hmany Hnohands. split; [reflexivity|].
  unfold setup_node. rewrite Hnohands.
  destruct (create_deck_spec w) as (full & w1 & Hdeck & Hlen).
  unfold bind at 1. unfold bind at 1. rewrite Hdeck.
  unfold lift. rewrite deal_exhausts by lia. reflexivity.
Qed.

(** ** DiscussionRound: the loops return *)

Lemma proposal_text_returns (e : Engine) (p : Providers) (s : GameState)
    (h a : string) (w : World) :
  providers_return p -> exists q w', proposal_text e p s h a w = Ok (q, w').
Proof.
  intros (_ & _ & _ & Hpq & _). unfold proposal_text.
  destruct (is_human e a).
  - unfold bind, input, ret. eauto.
  - destruct (Hpq (theme s) (last_played_card s) (utterances s) (my_word_of s a) h w)
      as (d & w' & Hd).
    unfold bind. rewrite Hd. unfold ret. eauto.
Qed.

Lemma proposal_texts_returns (e : Engine) (p : Providers) (s : GameState)
    (h : string) (todo : list string) :
  providers_return p ->
  forall w, exists texts w',
    proposal_texts e p s h todo w = Ok (texts, w')
    /\ List.length texts = List.length todo.
Proof.
  intros Hp. induction todo as [|a rest IH]; intros w; simpl.
  - unfold ret. now exists [], w.
  - destruct (proposal_text_returns e p s h a w Hp) as (q & w1 & Hq).
    destruct (IH w1) as (qs & w2 & Hqs & Hlen).
    unfold bind. rewrite Hq, Hqs. unfold ret.
    exists (q :: qs), w2. split; [reflexivity | simpl; now rewrite Hlen].
Qed.

(** The bookkeeping of [proposal_loop], as a fold over what was proposed. *)
Lemma proposal_loop_texts (e : Engine) (p : Providers) (s : GameState)
    (h : string) (todo : list string) :
  forall (acc : dict string * list string) (w : World),
    proposal_loop e p s h todo acc w =
    bind (proposal_texts e p s h todo)
         (fun texts =>
            ret (fold_left (fun acc '(a, q) => record_proposal a q acc)
                           (combine todo texts) acc)) w.
Proof.
  induction todo as [|a rest IH]; intros acc w; [reflexivity|].
  simpl. unfold bind.
  destruct (proposal_text e p s h a w) as [[q w1]|err]; [|reflexivity].
  rewrite IH. unfold bind.
  destruct (proposal_texts e p s h rest w1) as [[qs w2]|err]; reflexivity.
Qed.

Lemma answer_loop_spec (e : Engine) (p : Providers) (s : GameState)
    (h q_owner q : string) (todo : list string) :
  providers_return p ->
  forall (history_update : list string) (w : World),
    exists history_update' w',
      answer_loop e p s h q_owner q todo history_update w = Ok (history_update', w')
      /\ forall line, In line history_update -> In line history_update'.
Proof.
  intros Hp. pose proof Hp as (_ & _ & _ & _ & Hans).
  induction todo as [|a rest IH]; intros hu w; simpl.
  - unfold ret. eauto.
  - assert (Hcall : exists ans w1,
               (if is_human e a
                then bind input (fun typed => ret (PyStr.strip typed))
                else bind (discussion_generate_answer p (theme s) q (my_word_of s a) h)
                       (fun a_obj => ret (PyStr.strip (py_str
                          (dict_get_default a_obj "answer" (PyStr EmptyString)))))) w
               = Ok (ans, w1)).
    { destruct (is_human e a).
      - unfold bind, input, ret. eauto.
      - destruct (Hans (theme s) q (my_word_of s a) h w) as (d & w1 & Hd).
        unfold bind. rewrite Hd. unfold ret. eauto. }
    destruct Hcall as (ans & w1 & Hcall).
    unfold bind at 1. rewrite Hcall.
    match goal with |- context [answer_loop _ _ _ _ _ _ _ ?hu1 _] =>
      destruct (IH hu1 w1) as (hu' & w' & Hrest & Hincl) end.
    exists hu', w'. split; [assumption|].
    intros line Hline. apply Hincl. destruct (PyStr.nonempty ans); [|assumption].
    apply in_or_app. now left.
Qed.

Lemma question_loop_spec (e : Engine) (p : Providers) (s : GameState)
    (h : string) (active : list string) (todo : dict string) :
  providers_return p ->
  forall (history_update : list string) (w : World),
    exists history_update' w',
      question_loop e p s h active todo history_update w = Ok (history_update', w')
      /\ (forall line, In line history_update -> In line history_update')
      /\ (forall q_owner q,
            In (q_owner, q) todo -> PyStr.nonempty (PyStr.strip q) = true ->
            In (question_line q_owner (PyStr.strip q)) history_update').
Proof.
  intros Hp. induction todo as [|[q_owner q0] rest IH]; intros hu w; simpl.
  - unfold ret. exists hu, w. split; [reflexivity|]. split; [auto|]. intros ? ? [].
  - destruct (PyStr.nonempty (PyStr.strip q0)) eqn:Hq; simpl.
    + destruct (answer_loop_spec e p s h q_owner (PyStr.strip q0) active Hp
                  (hu ++ [question_line q_owner (PyStr.strip q0)])%list w)
        as (hu1 & w1 & Hans & Hincl1).
      destruct (IH hu1 w1) as (hu' & w' & Hrest & Hincl & Hlines).
      unfold bind. rewrite Hans. exists hu', w'. split; [assumption|]. split.
      * intros line Hline. apply Hincl, Hincl1, in_or_app. now left.
      * intros o q [[= <- <-]|Hin] Hne.
        -- apply Hincl, Hincl1, in_or_app. right. now left.
        -- now apply Hlines.
    + destruct (IH hu w) as (hu' & w' & Hrest & Hincl & Hlines).
      exists hu', w'. split; [assumption|]. split; [assumption|].
      intros o q [[= <- <-]|Hin] Hne; [congruence | now apply Hlines].
Qed.

Lemma moderator_fallback_spec (p : Providers) (s : GameState) (h : string)
    (proposals : dict string) (w : World) :
  providers_return p ->
  exists proposals' w',
    moderator_fallback p s h proposals w = Ok (proposals', w')
    /\ (proposals <> [] -> proposals' = proposals)
    /\ (proposals = [] ->
        exists q_obj,
          discussion_generate_question p (theme s) (last_played_card s)
            (utterances s) h w = Ok (q_obj, w')
          /\ proposals' =
             [(MODERATOR,
               let q_text := PyStr.strip (py_str
                               (dict_get_default q_obj "question" (PyStr EmptyString))) in
               if PyStr.nonempty q_text then q_text else GENERIC_QUESTION)]).
Proof.
  intros (_ & _ & Hq & _). unfold moderator_fallback.
  destruct proposals as [|x rest]; simpl.
  - destruct (Hq (theme s) (last_played_card s) (utterances s) h w) as (q_obj & w' & Hcall).
    unfold bind. rewrite Hcall. unfold ret.
    eexists _, w'. split; [reflexivity|]. split; [congruence|].
    intros _. exists q_obj. split; [reflexivity|]. cbv zeta.
    destruct (PyStr.nonempty _); reflexivity.
  - unfold bind, ret. exists (x :: rest), w. split; [reflexivity|].
    split; [reflexivity | discriminate].
Qed.

Lemma wait_round_node_run (e : Engine) (p : Providers) (s : GameState) (w : World) :
  providers_return p ->
  exists texts w1 own seen proposals w2 history_update s' w',
    proposal_texts e p s (PyStr.join PyStr.newline (history s)) (active_agents_of s) w
    = Ok (texts, w1)
    /\ List.length texts = List.length (active_agents_of s)
    /\ proposal_loop e p s (PyStr.join PyStr.newline (history s)) (active_agents_of s)
         ([], []) w = Ok ((own, seen), w1)
    /\ (own, seen) = fold_left (fun acc '(a, q) => record_proposal a q acc)
                       (combine (active_agents_of s) texts) ([], [])
    /\ moderator_fallback p s (PyStr.join PyStr.newline (history s)) own w1
       = Ok (proposals, w2)
    /\ question_loop e p s (PyStr.join PyStr.newline (history s)) (active_agents_of s)
         proposals [WAIT_LINE] w2 = Ok (history_update, w')
    /\ wait_round_node e p s w = Ok (s', w')
    /\ (forall line, In line history_update -> In line (history s')).
Proof.
  intros Hp.
  destruct (proposal_texts_returns e p s (PyStr.join PyStr.newline (history s))
              (active_agents_of s) Hp w) as (texts & w1 & Htexts & Hlen).
  destruct (fold_left (fun acc '(a, q) => record_proposal a q acc)
              (combine (active_agents_of s) texts) ([], [])) as [own seen] eqn:Hfold.
  assert (Hloop : proposal_loop e p s (PyStr.join PyStr.newline (history s))
                    (active_agents_of s) ([], []) w = Ok ((own, seen), w1)).
  { rewrite proposal_loop_texts. unfold bind. rewrite Htexts. unfold ret.
    now rewrite Hfold. }
  destruct (moderator_fallback_spec p s (PyStr.join PyStr.newline (history s))
              own w1 Hp) as (proposals & w2 & Hfb & _).
  destruct (question_loop_spec e p s (PyStr.join PyStr.newline (history s))
              (active_agents_of s) proposals Hp [WAIT_LINE] w2)
    as (hu & w' & Hq & _).
  assert (Hrun : exists s', wait_round_node e p s w = Ok (s', w')
                            /\ forall line, In line hu -> In line (history s')).
  { unfold wait_round_node. unfold bind at 1. rewrite Hloop.
    unfold bind at 1. rewrite Hfb. unfold bind at 1. rewrite Hq.
    destruct (max_turns e <=? turn_count s + 1); unfold ret;
      eexists; (split; [reflexivity|]); simpl; intros line Hline;
      apply in_or_app; right; [apply in_or_app; now left | assumption]. }
  destruct Hrun as (s' & Hrun & Hlines).
  exists texts, w1, own, seen, proposals, w2, hu, s', w'.
  repeat split; try assumption. now symmetry.
Qed.

(** C3. A DiscussionRound (with providers that return) returns a state
    whose [turn_count] is the previous one plus 1 and whose [votes] is
    empty.  When the new [turn_count] has reached [max_turns] the status is
    FAILED and the history ends with the stagnation line; otherwise the
    status is left as it was.  So from a status other than FAILED the round
    ends in FAILED exactly when the new [turn_count] is at least
    [max_turns]. *)
Theorem discussion_round_counts_turn
    (e : Engine) (p : Providers) (s : GameState) (w : World) :
  providers_return p ->
  exists s' w',
    wait_round_node e p s w = Ok (s', w')
    /\ turn_count s' = turn_count s + 1
    /\ votes s' = []
    /\ (max_turns e <= turn_count s' ->
        status s' = FAILED
        /\ exists history_update,
             history s' = (history s ++ history_update ++ [STAGNATION_LINE])%list)
    /\ (turn_count s' < max_turns e ->
        status s' = status s
        /\ exists history_update, history s' = (history s ++ history_update)%list)
    /\ (status s <> FAILED -> (status s' = FAILED <-> max_turns e <= turn_count s')).
Proof.
  intros Hp.
  destruct (wait_round_node_run e p s w Hp)
    as (_ & _ & _ & _ & _ & _ & _ & s' & w' & _ & _ & _ & _ & _ & _ & Hrun & _).
  exists s', w'. split; [assumption|].
  apply wait_round_node_inv in Hrun.
  destruct Hrun as (Hturn & Hvotes & Hstatus & _ & _ & _ & _ & _ & hu & Hhist).
  rewrite Hturn. split; [reflexivity|]. split; [assumption|].
  destruct (Z.leb_spec (max_turns e) (turn_count s + 1)) as [Hmax|Hmax].
  - split; [|split].
    + intros _. split; [assumption | now exists hu].
    + intros Hlt. lia.
    + intros _. split; [intros _; assumption | intros _; assumption].
  - split; [|split].
    + intros Hle. lia.
    + intros _. split; [assumption | now exists hu].
    + intros Hnf. rewrite Hstatus. split; [intros H; contradiction | intros Hle; lia].
Qed.

(** ** DiscussionRound: the first proposer of a text wins *)

Lemma dict_set_fresh {V} (d : dict V) (k : string) (v : V) :
  ~ In k (dict_keys d) -> dict_set d k v = (d ++ [(k, v)])%list.
Proof.
  clear str_upper json_loads.
  unfold dict_keys. induction d as [|[k0 v0] d IH]; simpl; intros Hk; [reflexivity|].
  destruct (String.eqb_spec k0 k) as [->|Hne]; [tauto|].
  rewrite IH by tauto. reflexivity.
Qed.

Lemma filter_unseen_cons (seen : list string) (q : string) (l : dict string) :
  filter (unseen seen) (filter (other_text q) l) = filter (unseen (q :: seen)) l.
Proof.
  induction l as [|[a x] l IH]; simpl; [reflexivity|].
  destruct (String.eqb x q); simpl; [assumption|].
  destruct (str_in x seen); simpl; [assumption | now rewrite IH].
Qed.

Lemma filter_unseen_absorb (seen : list string) (q : string) (l : dict string) :
  str_in q seen = true ->
  filter (unseen seen) (filter (other_text q) l) = filter (unseen seen) l.
Proof.
  intros Hq. induction l as [|[a x] l IH]; simpl; [reflexivity|].
  destruct (String.eqb_spec x q) as [->|Hne]; simpl.
  - now rewrite Hq.
  - destruct (str_in x seen); simpl; [assumption | now rewrite IH].
Qed.

Lemma filter_unseen_nil (l : dict string) : filter (unseen []) l = l.
Proof.
  induction l as [|[a x] l IH]; simpl; [reflexivity | now rewrite IH].
Qed.

Lemma first_proposer_wins_cons (a q : string) (later : list (string * string)) :
  first_proposer_wins ((a, q) :: later) =
  if PyStr.nonempty q
  then (a, q) :: filter (other_text q) (first_proposer_wins later)
  else first_proposer_wins later.
Proof. reflexivity. Qed.

Lemma record_proposal_eq (a q : string) (proposals : dict string) (seen : list string) :
  record_proposal a q (proposals, seen) =
  if PyStr.nonempty q && negb (str_in q seen)
  then (dict_set proposals a q, q :: seen)
  else (proposals, seen).
Proof. reflexivity. Qed.

(** The loop's bookkeeping (a dictionary of proposals and a set of texts
    already seen) computes what the specification describes. *)
Lemma record_fold_first_wins (raw : list (string * string)) :
  forall (proposals : dict string) (seen : list string),
    NoDup (map fst raw) ->
    (forall a, In a (map fst raw) -> ~ In a (dict_keys proposals)) ->
    fst (fold_left (fun acc '(a, q) => record_proposal a q acc) raw (proposals, seen))
    = (proposals ++ filter (unseen seen) (first_proposer_wins raw))%list.
Proof.
  induction raw as [|[a q] raw IH]; intros proposals seen Hnd Hfresh.
  - simpl. now rewrite app_nil_r.
  - simpl in Hnd. inversion Hnd as [|? ? Ha Hnd']; subst.
    cbn [fold_left]. rewrite first_proposer_wins_cons, record_proposal_eq.
    destruct (PyStr.nonempty q) eqn:Hq; simpl andb.
    + destruct (str_in q seen) eqn:Hseen; simpl negb; cbv iota.
      * rewrite IH; [|assumption|].
        -- cbn [filter unseen]. rewrite Hseen. simpl negb. cbv iota.
           now rewrite filter_unseen_absorb.
        -- intros b Hb. apply Hfresh. now right.
      * rewrite IH; [|assumption|].
        -- cbn [filter unseen]. rewrite Hseen. simpl negb. cbv iota.
           rewrite filter_unseen_cons, dict_set_fresh, <- app_assoc.
           ++ reflexivity.
           ++ apply Hfresh. now left.
        -- intros b Hb. rewrite dict_keys_set_In. intros [Hin| ->].
           ++ apply (Hfresh b); [now right | assumption].
           ++ contradiction.
    + cbv iota. rewrite IH; [reflexivity | assumption |].
      intros b Hb. apply Hfresh. now right.
Qed.

Lemma combine_fst_same_length {A B} (l : list A) :
  forall (t : list B), List.length t = List.length l -> map fst (combine l t) = l.
Proof.
  induction l as [|x l IH]; intros t Hlen; [reflexivity|].
  destruct t as [|y t]; [discriminate|]. simpl. rewrite IH; [reflexivity|].
  simpl in Hlen. lia.
Qed.

Lemma first_proposer_wins_In (raw : list (string * string)) (a q : string) :
  In (a, q) (first_proposer_wins raw) -> In (a, q) raw /\ PyStr.nonempty q = true.
Proof.
  induction raw as [|[b x] raw IH]; [intros []|].
  rewrite first_proposer_wins_cons. destruct (PyStr.nonempty x) eqn:Hx.
  - intros [[= <- <-]|Hin].
    + split; [now left | assumption].
    + apply filter_In in Hin. destruct Hin as [Hin _].
      destruct (IH Hin). split; [now right | assumption].
  - intros Hin. destruct (IH Hin). split; [now right | assumption].
Qed.

Lemma NoDup_values_filter (f : string * string -> bool) (l : dict string) :
  NoDup (dict_values l) -> NoDup (dict_values (filter f l)).
Proof.
  unfold dict_values. induction l as [|[a x] l IH]; simpl; intros Hnd; [constructor|].
  inversion Hnd as [|? ? Hx Hnd']; subst.
  destruct (f (a, x)); simpl; [|now apply IH].
  constructor; [|now apply IH].
  intros Hin. apply Hx. apply in_map_iff in Hin.
  destruct Hin as ([b y] & Hy & Hin). apply filter_In in Hin. destruct Hin as [Hin _].
  apply in_map_iff. now exists (b, y).
Qed.

Lemma first_proposer_wins_NoDup (raw : list (string * string)) :
  NoDup (dict_values (first_proposer_wins raw)).
Proof.
  induction raw as [|[a q] raw IH]; [constructor|].
  rewrite first_proposer_wins_cons. destruct (PyStr.nonempty q); [|assumption].
  unfold dict_values. simpl. constructor.
  - intros Hin. apply in_map_iff in Hin. destruct Hin as ([b y] & Hy & Hin).
    apply filter_In in Hin. destruct Hin as [_ Hne]. simpl in Hy. subst y.
    simpl in Hne. now rewrite String.eqb_refl in Hne.
  - now apply NoDup_values_filter.
Qed.

Lemma In_dict_set {V} (d : dict V) (k : string) (v : V) (k' : string) (v' : V) :
  In (k', v') (dict_set d k v) -> (k', v') = (k, v) \/ In (k', v') d.
Proof.
  induction d as [|[k0 v0] d IH]; simpl.
  - intros [H|[]]. left. now symmetry.
  - destruct (String.eqb_spec k0 k) as [->|Hne]; simpl.
    + intros [H|H]; [left; now symmetry | right; now right].
    + intros [H|H]; [right; now left|].
      destruct (IH H) as [Heq|Hin]; [now left | right; now right].
Qed.

Lemma NoDup_values_set (d : dict string) (k v : string) :
  NoDup (dict_values d) -> ~ In v (dict_values d) -> NoDup (dict_values (dict_set d k v)).
Proof.
  unfold dict_values. induction d as [|[k0 v0] d IH]; simpl; intros Hnd Hv.
  - constructor; [intros [] | constructor].
  - inversion Hnd as [|? ? Hv0 Hd]; subst.
    destruct (String.eqb_spec k0 k) as [->|Hne]; simpl.
    + constructor; [intros Hin; apply Hv; now right | assumption].
    + constructor.
      * intros Hin. apply in_map_iff in Hin. destruct Hin as ([k1 v1] & Hv1 & Hin).
        simpl in Hv1. subst v1. apply In_dict_set in Hin. destruct Hin as [[= -> ->]|Hin].
        -- apply Hv. now left.
        -- apply Hv0. change v0 with (snd (k1, v0)). now apply in_map.
      * apply IH; [assumption|]. intros Hin. apply Hv. now right.
Qed.

(** What the bookkeeping of [proposal_loop] guarantees whatever the agent
    list: a recorded text is not empty, its owner is the first agent that
    proposed it, and no text is recorded twice. *)
Lemma record_fold_sound (raw : list (string * string)) :
  forall (processed : list (string * string)) (proposals : dict string)
         (seen : list string),
    (forall a q, In (a, q) proposals ->
       In q seen /\ PyStr.nonempty q = true
       /\ exists r1 r2, (processed = r1 ++ (a, q) :: r2)%list /\ ~ In q (map snd r1)) ->
    (forall a q, In (a, q) processed -> PyStr.nonempty q = true -> In q seen) ->
    NoDup (dict_values proposals) ->
    (forall a q,
       In (a, q) (fst (fold_left (fun acc '(a, q) => record_proposal a q acc)
                         raw (proposals, seen))) ->
       PyStr.nonempty q = true
       /\ exists r1 r2, (processed ++ raw = r1 ++ (a, q) :: r2)%list /\ ~ In q (map snd r1))
    /\ NoDup (dict_values (fst (fold_left (fun acc '(a, q) => record_proposal a q acc)
                                  raw (proposals, seen)))).
Proof.
  clear str_upper json_loads.
  induction raw as [|[a q] raw IH]; intros processed proposals seen H1 H2 H3.
  - simpl. split; [|assumption]. intros b x Hin.
    destruct (H1 b x Hin) as (_ & Hne & r1 & r2 & Hsplit & Hfirst).
    split; [assumption|]. exists r1, r2. now rewrite app_nil_r.
  - cbn [fold_left]. rewrite record_proposal_eq.
    replace (processed ++ (a, q) :: raw)%list
      with ((processed ++ [(a, q)]) ++ raw)%list by (rewrite <- app_assoc; reflexivity).
    destruct (PyStr.nonempty q && negb (str_in q seen)) eqn:Hcond.
    + apply andb_prop in Hcond. destruct Hcond as [Hq Hseen].
      apply negb_true_iff in Hseen. apply str_in_not_In in Hseen.
      assert (Hfresh : ~ In q (map snd processed)).
      { intros Hin. apply in_map_iff in Hin. destruct Hin as ([c y] & Hy & Hin).
        simpl in Hy. subst y. apply Hseen. now apply (H2 c q). }
      apply IH.
      * intros b x Hin. apply In_dict_set in Hin. destruct Hin as [[= -> ->]|Hin].
        -- split; [now left|]. split; [assumption|].
           exists processed, []. split; [reflexivity | assumption].
        -- destruct (H1 b x Hin) as (Hs & Hne & r1 & r2 & Hsplit & Hfirst).
           split; [now right|]. split; [assumption|].
           exists r1, (r2 ++ [(a, q)])%list. split; [|assumption].
           rewrite Hsplit, <- app_assoc. reflexivity.
      * intros b x Hin Hne. apply in_app_or in Hin. destruct Hin as [Hin|[[= <- <-]|[]]].
        -- right. now apply (H2 b x).
        -- now left.
      * apply NoDup_values_set; [assumption|]. intros Hin.
        apply in_map_iff in Hin. destruct Hin as ([c y] & Hy & Hin).
        simpl in Hy. subst y. apply Hseen. now destruct (H1 c q Hin).
    + apply IH.
      * intros b x Hin. destruct (H1 b x Hin) as (Hs & Hne & r1 & r2 & Hsplit & Hfirst).
        split; [assumption|]. split; [assumption|].
        exists r1, (r2 ++ [(a, q)])%list. split; [|assumption].
        rewrite Hsplit, <- app_assoc. reflexivity.
      * intros b x Hin Hne. apply in_app_or in Hin. destruct Hin as [Hin|[[= <- <-]|[]]].
        -- now apply (H2 b x).
        -- rewrite Hne in Hcond. simpl in Hcond. apply negb_false_iff in Hcond.
           now apply str_in_In.
      * assumption.
Qed.

Lemma proposal_text_stripped (e : Engine) (p : Providers) (s : GameState)
    (h a q : string) (w w' : World) :
  proposal_text e p s h a w = Ok (q, w') -> PyStr.strip q = q.
Proof.
  unfold proposal_text. intros H. destruct (is_human e a);
    monad_inv H; apply ret_Ok in H; destruct H as [<- _]; apply strip_idempotent.
Qed.

Lemma proposal_texts_stripped (e : Engine) (p : Providers) (s : GameState)
    (h : string) (todo : list string) :
  forall texts w w',
    proposal_texts e p s h todo w = Ok (texts, w') ->
    forall q, In q texts -> PyStr.strip q = q.
Proof.
  induction todo as [|a rest IH]; intros texts w w' H q Hq; simpl in H.
  - apply ret_Ok in H. destruct H as [<- _]. destruct Hq.
  - monad_inv H. monad_inv H. apply ret_Ok in H. destruct H as [<- _].
    destruct Hq as [<-|Hq].
    + now apply proposal_text_stripped in H_call.
    + now apply (IH _ _ _ H_call0).
Qed.

Lemma generic_question_stripped :
  PyStr.strip GENERIC_QUESTION = GENERIC_QUESTION
  /\ PyStr.nonempty GENERIC_QUESTION = true.
Proof. split; vm_compute; reflexivity. Qed.

(** C8. In a DiscussionRound the proposals recorded by the loop over the
    active agents are deduplicated by exact string equality: a recorded text
    is not empty, its owner is the first agent, in agent-list order, that
    proposed it, and no text is recorded twice; over pairwise distinct agents
    the recorded proposals are exactly [first_proposer_wins] of what was
    proposed.  When nothing was recorded, the only question is the
    moderator's: the text of the general-question provider, or the fixed
    default text when that text is empty.  In every case at least one
    question is recorded, and each recorded question has its line in the
    history of the state the round returns. *)
Theorem discussion_questions_deduplicated
    (e : Engine) (p : Providers) (s : GameState) (w : World) :
  providers_return p ->
  exists texts w1 own seen proposals w2 s' w',
    proposal_texts e p s (PyStr.join PyStr.newline (history s)) (active_agents_of s) w
    = Ok (texts, w1)
    /\ List.length texts = List.length (active_agents_of s)
    /\ proposal_loop e p s (PyStr.join PyStr.newline (history s)) (active_agents_of s)
         ([], []) w = Ok ((own, seen), w1)
    /\ (forall a q, In (a, q) own ->
          PyStr.nonempty q = true
          /\ exists earlier later,
               (combine (active_agents_of s) texts = earlier ++ (a, q) :: later)%list
               /\ ~ In q (map snd earlier))
    /\ NoDup (dict_values own)
    /\ (NoDup (agents s) ->
        own = first_proposer_wins (combine (active_agents_of s) texts))
    /\ moderator_fallback p s (PyStr.join PyStr.newline (history s)) own w1
       = Ok (proposals, w2)
    /\ (own <> [] -> proposals = own)
    /\ (own = [] ->
        exists q_obj,
          discussion_generate_question p (theme s) (last_played_card s)
            (utterances s) (PyStr.join PyStr.newline (history s)) w1 = Ok (q_obj, w2)
          /\ proposals =
             [(MODERATOR,
               let q_text := PyStr.strip (py_str
                               (dict_get_default q_obj "question" (PyStr EmptyString))) in
               if PyStr.nonempty q_text then q_text else GENERIC_QUESTION)])
    /\ wait_round_node e p s w = Ok (s', w')
    /\ proposals <> []
    /\ NoDup (dict_values proposals)
    /\ (forall q_owner q, In (q_owner, q) proposals ->
                          In (question_line q_owner q) (history s')).
Proof.
  intros Hp.
  destruct (wait_round_node_run e p s w Hp)
    as (texts & w1 & own & seen & proposals & w2 & hu & s' & w'
        & Htexts & Hlen & Hloop & Hfold & Hfb & Hq & Hrun & Hhist).
  assert (Hown : own = fst (fold_left (fun acc '(a, q) => record_proposal a q acc)
                              (combine (active_agents_of s) texts) ([], [])))
    by (now rewrite <- Hfold).
  assert (Hrec : (forall a q, In (a, q) own ->
                    PyStr.nonempty q = true
                    /\ exists earlier later,
                         (combine (active_agents_of s) texts
                          = earlier ++ (a, q) :: later)%list
                         /\ ~ In q (map snd earlier))
                 /\ NoDup (dict_values own)).
  { rewrite Hown.
    apply (record_fold_sound (combine (active_agents_of s) texts) [] [] []).
    - intros a q [].
    - intros a q [].
    - constructor. }
  destruct Hrec as [Hsound Hnodup].
  destruct (moderator_fallback_spec p s (PyStr.join PyStr.newline (history s)) own w1 Hp)
    as (proposals2 & w3 & Hfb2 & Hkeep & Hmod).
  rewrite Hfb in Hfb2. injection Hfb2 as <- <-.
  assert (Hgood : forall q_owner q, In (q_owner, q) proposals ->
                    PyStr.strip q = q /\ PyStr.nonempty q = true).
  { intros o q Hin. destruct own as [|x rest] eqn:Hown_eq.
    - destruct (Hmod eq_refl) as (q_obj & _ & ->). destruct Hin as [[= <- <-]|[]].
      cbv zeta. destruct (PyStr.nonempty _) eqn:Hne.
      + split; [apply strip_idempotent | assumption].
      + apply generic_question_stripped.
    - rewrite Hkeep in Hin by discriminate.
      destruct (Hsound o q Hin) as (Hne & earlier & later & Hsplit & _).
      split; [|assumption].
      assert (Hraw : In (o, q) (combine (active_agents_of s) texts)).
      { rewrite Hsplit. apply in_or_app. right. now left. }
      apply in_combine_r in Hraw.
      now apply (proposal_texts_stripped _ _ _ _ _ _ _ _ Htexts). }
  exists texts, w1, own, seen, proposals, w2, s', w'.
  split; [assumption|]. split; [assumption|]. split; [assumption|].
  split; [assumption|]. split; [assumption|]. split.
  { intros Hnda. rewrite Hown, record_fold_first_wins.
    - simpl. apply filter_unseen_nil.
    - rewrite combine_fst_same_length by assumption.
      unfold active_agents_of. now apply NoDup_filter.
    - intros a _ []. }
  split; [assumption|]. split; [assumption|]. split; [assumption|].
  split; [assumption|]. split; [|split].
  - destruct own as [|x rest].
    + destruct (Hmod eq_refl) as (q_obj & _ & ->). discriminate.
    + rewrite Hkeep; discriminate.
  - destruct own as [|x rest] eqn:Hown_eq.
    + destruct (Hmod eq_refl) as (q_obj & _ & ->).
      unfold dict_values. simpl. constructor; [intros [] | constructor].
    + rewrite Hkeep by discriminate. assumption.
  - intros o q Hin. apply Hhist.
    destruct (question_loop_spec e p s (PyStr.join PyStr.newline (history s))
                (active_agents_of s) proposals Hp [WAIT_LINE] w2)
      as (hu2 & w4 & Hq2 & _ & Hlines).
    rewrite Hq in Hq2. injection Hq2 as <- <-.
    destruct (Hgood o q Hin) as [Hstrip Hne].
    rewrite <- Hstrip. apply Hlines; [assumption|]. now rewrite Hstrip.
Qed.

(** ** What a run keeps, and what it only extends *)

Lemma speaking_node_log (e : Engine) (p : Providers) (s s' : GameState) (w w' : World) :
  speaking_node e p s w = Ok (s', w') ->
  theme s' = theme s /\ deck s' = deck s /\ theme_override s' = theme_override s
  /\ debug s' = debug s /\ reveal s' = reveal s
  /\ estimator_thoughts s' = estimator_thoughts s
  /\ exists history_update, history s' = (history s ++ history_update)%list.
Proof.
  unfold speaking_node. intros H. monad_inv H.
  destruct x as [[utt reasonings] history_update].
  apply ret_Ok in H. destruct H as [<- _]. simpl.
  repeat split. now exists history_update.
Qed.

Lemma voting_node_log (e : Engine) (p : Providers) (s s' : GameState) (w w' : World) :
  voting_node e p s w = Ok (s', w') ->
  deck s' = deck s /\ theme_override s' = theme_override s
  /\ debug s' = debug s /\ reveal s' = reveal s
  /\ speaker_reasonings s' = speaker_reasonings s.
Proof.
  unfold voting_node. intros H. monad_inv H. destruct x as [ballots thoughts].
  apply ret_Ok in H. destruct H as [<- _]. simpl. repeat split.
Qed.

Lemma execute_play_node_log (s s' : GameState) :
  execute_play_node s = Ok s' ->
  theme s' = theme s /\ deck s' = deck s /\ theme_override s' = theme_override s
  /\ debug s' = debug s /\ reveal s' = reveal s
  /\ utterances s' = utterances s /\ speaker_reasonings s' = speaker_reasonings s
  /\ estimator_thoughts s' = estimator_thoughts s
  /\ exists line, history s' = (history s ++ [line])%list.
Proof.
  unfold execute_play_node. intros H.
  destruct (py_min_by _ _) as [player|err]; [|discriminate].
  destruct (dict_index (hands s) player) as [card|err]; [|discriminate].
  inversion H; subst; clear H. simpl. repeat split. eexists. reflexivity.
Qed.

Lemma wait_round_node_log (e : Engine) (p : Providers) (s s' : GameState) (w w' : World) :
  wait_round_node e p s w = Ok (s', w') ->
  theme s' = theme s /\ deck s' = deck s /\ theme_override s' = theme_override s
  /\ debug s' = debug s /\ reveal s' = reveal s
  /\ utterances s' = utterances s /\ speaker_reasonings s' = speaker_reasonings s
  /\ estimator_thoughts s' = estimator_thoughts s.
Proof.
  unfold wait_round_node. intros H. monad_inv H. destruct x as [proposals seen].
  monad_inv H. monad_inv H.
  destruct (max_turns e <=? turn_count s + 1);
    apply ret_Ok in H; destruct H as [<- _]; simpl; repeat split.
Qed.

(** One node of the graph: what it keeps and what it extends. *)
Lemma node_run_frame (e : Engine) (p : Providers) (n : Node) (s s' : GameState)
    (w w' : World) :
  node_run e p n s w = Ok (s', w') ->
  (agents s' = agents s /\ hands s' = hands s /\ deck s' = deck s
   /\ theme s' = theme s /\ theme_override s' = theme_override s
   /\ debug s' = debug s /\ reveal s' = reveal s)
  /\ (n <> NSpeaking ->
      utterances s' = utterances s /\ speaker_reasonings s' = speaker_reasonings s)
  /\ (exists lines, history s' = (history s ++ lines)%list)
  /\ (exists cards, played_cards s' = (played_cards s ++ cards)%list)
  /\ (exists players, finished_agents s' = (finished_agents s ++ players)%list)
  /\ turn_count s <= turn_count s'.
Proof.
  clear json_loads.
  intros Hrun. destruct n; simpl in Hrun.
  - pose proof (speaking_node_frame e p s s' w w' Hrun)
      as (Hp & _ & _ & Ha & Hh & Hf & _ & Ht).
    pose proof (speaking_node_log e p s s' w w' Hrun)
      as (Hth & Hd & Hto & Hdb & Hrv & _ & hu & Hhist).
    split; [repeat split; assumption|]. split; [congruence|].
    split; [now exists hu|]. split; [exists []; now rewrite app_nil_r|].
    split; [exists []; now rewrite app_nil_r | lia].
  - pose proof (voting_node_log e p s s' w w' Hrun) as (Hd & Hto & Hdb & Hrv & Hsr).
    apply voting_node_inv in Hrun.
    destruct Hrun as (b & t & _ & _ & Hp & _ & _ & Ha & Hh & Hf & Hhist & Ht & Hu & Hth).
    split; [repeat split; assumption|]. split; [intros _; now split|].
    split; [exists []; now rewrite app_nil_r|].
    split; [exists []; now rewrite app_nil_r|].
    split; [exists []; now rewrite app_nil_r | lia].
  - apply lift_Ok in Hrun. destruct Hrun as [Hrun _].
    pose proof (execute_play_node_log s s' Hrun)
      as (Hth & Hd & Hto & Hdb & Hrv & Hu & Hsr & _ & line & Hhist).
    apply execute_play_node_inv in Hrun.
    destruct Hrun as (player & card & _ & _ & Hp & Hf & _ & _ & Ha & Hh & _ & Ht).
    split; [repeat split; assumption|]. split; [intros _; now split|].
    split; [now exists [line]|]. split; [now exists [card]|].
    split; [now exists [player] | lia].
  - pose proof (wait_round_node_log e p s s' w w' Hrun)
      as (Hth & Hd & Hto & Hdb & Hrv & Hu & Hsr & _).
    apply wait_round_node_inv in Hrun.
    destruct Hrun as (Ht & _ & _ & Hp & _ & Ha & Hh & Hf & hu & Hhist).
    split; [repeat split; assumption|]. split; [intros _; now split|].
    split.
    { destruct (max_turns e <=? turn_count s + 1); eexists; exact Hhist. }
    split; [exists []; now rewrite app_nil_r|].
    split; [exists []; now rewrite app_nil_r | lia].
  - apply ret_Ok in Hrun. destruct Hrun as [<- _].
    split; [repeat split|]. split; [intros _; now split|].
    split; [exists []; now rewrite app_nil_r|].
    split; [exists []; now rewrite app_nil_r|].
    split; [exists []; now rewrite app_nil_r | lia].
Qed.

Lemma next_node_not_speaking (n : Node) (s : GameState) : next_node n s <> NSpeaking.
Proof.
  destruct n; simpl; try discriminate.
  - unfold router_node. destruct (play_candidates (votes s)); discriminate.
  - unfold check_game_end. destruct (negb _); discriminate.
  - unfold check_game_end. destruct (negb _); discriminate.
Qed.

(** X1. Setup lays the table once: no node of the graph changes [agents],
    [hands], [deck], [theme], [theme_override], [debug] or [reveal].  The
    Speaking phase is never entered again once it has run, so from any node
    other than Speaking the utterances and the speakers' reasonings stay as
    the Speaking phase left them, round after round. *)
Theorem table_is_fixed_by_setup
    (e : Engine) (p : Providers) (n n' : Node) (s s' : GameState) (w w' : World) :
  graph_steps e p (n, s, w) (n', s', w') ->
  (agents s' = agents s /\ hands s' = hands s /\ deck s' = deck s
   /\ theme s' = theme s /\ theme_override s' = theme_override s
   /\ debug s' = debug s /\ reveal s' = reveal s)
  /\ (n <> NSpeaking ->
      n' <> NSpeaking
      /\ utterances s' = utterances s
      /\ speaker_reasonings s' = speaker_reasonings s)
  /\ ((n', s', w') <> (n, s, w) -> n' <> NSpeaking).
Proof.
  clear json_loads.
  intros Hsteps.
  remember (n, s, w) as c1 eqn:E1. remember (n', s', w') as c2 eqn:E2.
  revert n s w E1 n' s' w' E2.
  induction Hsteps as [c | c1 c2 c3 Hstep Hrest IH]; intros n s w E1 n' s' w' E2; subst.
  - inversion E2; subst. split; [repeat split|]. split; [intros Hn; now repeat split|].
    intros Hne. congruence.
  - inversion Hstep as [n0 s0 w0 s1 w1 Hn Hrun]; subst.
    pose proof (node_run_frame e p n s s1 w w1 Hrun)
      as ((Ha & Hh & Hd & Hth & Hto & Hdb & Hrv) & Hutt & _).
    destruct (IH _ _ _ eq_refl _ _ _ eq_refl)
      as ((Ha' & Hh' & Hd' & Hth' & Hto' & Hdb' & Hrv') & Hutt' & Hmoved).
    pose proof (next_node_not_speaking n s1) as Hnext.
    destruct (Hutt' Hnext) as (Hn' & Hu' & Hsr').
    split; [repeat split; congruence|]. split; [|intros _; assumption].
    intros Hns. destruct (Hutt Hns) as (Hu & Hsr). repeat split; congruence.
Qed.

(** X2. The records of a game are append-only: along any run of the graph
    [history], [played_cards] and [finished_agents] only get new entries at
    their end, and [turn_count] never decreases. *)
Theorem game_records_are_append_only
    (e : Engine) (p : Providers) (n n' : Node) (s s' : GameState) (w w' : World) :
  graph_steps e p (n, s, w) (n', s', w') ->
  (exists lines, history s' = (history s ++ lines)%list)
  /\ (exists cards, played_cards s' = (played_cards s ++ cards)%list)
  /\ (exists players, finished_agents s' = (finished_agents s ++ players)%list)
  /\ turn_count s <= turn_count s'.
Proof.
  clear json_loads.
  intros Hsteps.
  remember (n, s, w) as c1 eqn:E1. remember (n', s', w') as c2 eqn:E2.
  revert n s w E1 n' s' w' E2.
  induction Hsteps as [c | c1 c2 c3 Hstep Hrest IH]; intros n s w E1 n' s' w' E2; subst.
  - inversion E2; subst.
    split; [exists []; now rewrite app_nil_r|].
    split; [exists []; now rewrite app_nil_r|].
    split; [exists []; now rewrite app_nil_r | lia].
  - inversion Hstep as [n0 s0 w0 s1 w1 Hn Hrun]; subst.
    pose proof (node_run_frame e p n s s1 w w1 Hrun)
      as (_ & _ & (l1 & Hl1) & (c1 & Hc1) & (f1 & Hf1) & Ht1).
    destruct (IH _ _ _ eq_refl _ _ _ eq_refl)
      as ((l2 & Hl2) & (c2 & Hc2) & (f2 & Hf2) & Ht2).
    split; [exists (l1 ++ l2)%list; now rewrite Hl2, Hl1, app_assoc|].
    split; [exists (c1 ++ c2)%list; now rewrite Hc2, Hc1, app_assoc|].
    split; [exists (f1 ++ f2)%list; now rewrite Hf2, Hf1, app_assoc | lia].
Qed.

(** ** How a game ends *)

Lemma setup_establishes_end_inv (e : Engine) (init : InitialState) (s : GameState)
    (w w' : World) :
  setup_node e init w = Ok (s, w') -> end_inv e NSpeaking s.
Proof.
  intros H. apply setup_node_spec in H.
  destruct H as (Hplayed & _ & Hstatus & _ & Hfin & Hturn & _).
  unfold end_inv. rewrite Hplayed, Hstatus, Hfin, Hturn. simpl.
  repeat split; try discriminate; try reflexivity; try lia.
Qed.

Lemma router_node_cases (s : GameState) :
  (router_node s = NExecutePlay /\ play_candidates (votes s) <> [])
  \/ (router_node s = NWaitRound /\ play_candidates (votes s) = []).
Proof.
  unfold router_node. destruct (play_candidates (votes s)); [right | left];
    split; try reflexivity; discriminate.
Qed.

Lemma step_preserves_end_inv (e : Engine) (p : Providers) (n : Node)
    (s s' : GameState) (w w' : World) :
  node_inv n s -> end_inv e n s -> n <> NEnd -> node_run e p n s w = Ok (s', w') ->
  end_inv e (next_node n s') s'.
Proof.
  clear json_loads.
  intros (_ & _ & Hstat & Hlast & _ & _) (_ & _ & _ & Hcards & _ & Hturn & Hbudget) Hn Hrun.
  assert (Hactive : status s = ACTIVE).
  { destruct (status_active_dec (status s)) as [H|H]; [assumption|].
    now apply Hstat in H. }
  specialize (Hbudget Hactive).
  destruct n; simpl in Hrun; try congruence.
  - (* Speaking *)
    apply speaking_node_frame in Hrun.
    destruct Hrun as (Hp & _ & Hs & Ha & Hh & Hf & _ & Ht).
    unfold end_inv. rewrite Hp, Hs, Ha, Hh, Hf, Ht, Hactive. simpl.
    repeat split; try discriminate; auto.
  - (* Voting *)
    apply voting_node_inv in Hrun.
    destruct Hrun as (b & t & _ & Hv & Hp & _ & Hs & Ha & Hh & Hf & _ & Ht & _).
    unfold end_inv. rewrite Hp, Hs, Ha, Hh, Hf, Ht, Hactive. simpl.
    destruct (router_node_cases s') as [[Hr Hc]|[Hr Hc]]; rewrite Hr;
      repeat split; try discriminate; auto.
  - (* PlayResolution *)
    apply lift_Ok in Hrun. destruct Hrun as [Hrun _].
    apply execute_play_node_inv in Hrun.
    destruct Hrun as (player & card & _ & Hcard & Hp & Hf & _ & Hs & Ha & Hh & _ & Ht).
    unfold end_inv. rewrite Hp, Hf, Ha, Hh, Ht. simpl.
    split; [|split; [|split; [|split; [|split; [|split]]]]].
    + intros Hend.
      destruct (check_game_end_spec s') as [[H1 H2]|[H1 H2]]; [congruence | assumption].
    + rewrite Hs. destruct (card <? last_played_card s); [discriminate|].
      destruct (Nat.eqb_spec (List.length (finished_agents s ++ [player]))
                  (List.length (agents s))); [auto | discriminate].
    + rewrite Hs. destruct (Z.ltb_spec card (last_played_card s)) as [Hlt|Hge].
      * intros _. left. exists (played_cards s), card. split; [reflexivity | lia].
      * destruct (_ =? _)%nat; discriminate.
    + rewrite !map_app, Hcards. simpl. now rewrite Hcard.
    + intros Hw.
      destruct (check_game_end_spec s') as [[_ H2]|[_ H2]]; rewrite H2 in Hw; discriminate.
    + assumption.
    + intros _. assumption.
  - (* DiscussionRound *)
    apply wait_round_node_inv in Hrun.
    destruct Hrun as (Ht & _ & Hs & Hp & _ & Ha & Hh & Hf & _).
    unfold end_inv. rewrite Hp, Hf, Ha, Hh, Ht. simpl.
    split; [|split; [|split; [|split; [|split; [|split]]]]].
    + intros Hend.
      destruct (check_game_end_spec s') as [[H1 H2]|[H1 H2]]; [congruence | assumption].
    + rewrite Hs, Hactive. destruct (max_turns e <=? turn_count s + 1); discriminate.
    + rewrite Hs, Hactive.
      destruct (Z.leb_spec (max_turns e) (turn_count s + 1)); [|discriminate].
      intros _. now right.
    + assumption.
    + intros Hw.
      destruct (check_game_end_spec s') as [[_ H2]|[_ H2]]; rewrite H2 in Hw; discriminate.
    + lia.
    + rewrite Hs, Hactive.
      destruct (Z.leb_spec (max_turns e) (turn_count s + 1)); [discriminate|].
      intros _. now right.
Qed.

Lemma reachable_end_inv (e : Engine) (p : Providers) (n : Node) (s : GameState) (w : World) :
  Reachable e p n s w -> end_inv e n s.
Proof.
  induction 1 as [init w s w' Hsetup | n s w n' s' w' Hreach IH Hstep].
  - now apply setup_establishes_end_inv in Hsetup.
  - inversion Hstep; subst.
    apply (step_preserves_end_inv e p n s s' w w'); try assumption.
    now apply reachable_inv in Hreach.
Qed.

(** ** Every node of a run returns *)

Lemma speaking_loop_cons (e : Engine) (p : Providers) (s : GameState) (h : string)
    (x : string) (rest : list string) (utt : dict pyval) (reasonings : dict string)
    (hu : list string) :
  speaking_loop e p s h (x :: rest) (utt, reasonings, hu) =
  if str_in x (finished_agents s) then speaking_loop e p s h rest (utt, reasonings, hu)
  else
    bind (lift (dict_index (hands s) x)) (fun card =>
    bind (spoken_word e p s h x card reasonings) (fun '(word, reasonings') =>
      speaking_loop e p s h rest
        (dict_set utt x word, reasonings', (hu ++ [utterance_line x word])%list))).
Proof. reflexivity. Qed.

Lemma spoken_word_returns (e : Engine) (p : Providers) (s : GameState) (h a : string)
    (card : Z) (reasonings : dict string) (w : World) :
  providers_return p ->
  exists word reasonings' w', spoken_word e p s h a card reasonings w
                              = Ok ((word, reasonings'), w').
Proof.
  intros (Hsp & _). unfold spoken_word. destruct (is_human e a).
  - unfold bind, input, ret. eauto.
  - destruct (Hsp (theme s) card h w) as (d & w' & Hd).
    unfold bind. rewrite Hd. unfold ret. eauto.
Qed.

Lemma speaking_loop_returns (e : Engine) (p : Providers) (s : GameState) (h : string)
    (todo : list string) :
  providers_return p ->
  (forall a, In a todo -> ~ In a (finished_agents s) ->
             exists c, dict_get (hands s) a = Some c) ->
  forall (acc : dict pyval * dict string * list string) (w : World),
    exists acc' w', speaking_loop e p s h todo acc w = Ok (acc', w').
Proof.
  intros Hp. induction todo as [|x rest IH]; intros Hhands [[utt reasonings] hu] w.
  - simpl. unfold ret. eauto.
  - rewrite speaking_loop_cons.
    assert (Hrest : forall a, In a rest -> ~ In a (finished_agents s) ->
                              exists c, dict_get (hands s) a = Some c)
      by (intros a Ha; apply Hhands; now right).
    destruct (str_in x (finished_agents s)) eqn:Hfin; [now apply IH|].
    apply str_in_not_In in Hfin.
    destruct (Hhands x (or_introl eq_refl) Hfin) as [c Hc].
    unfold dict_index. rewrite Hc. unfold lift, bind at 1.
    destruct (spoken_word_returns e p s h x c reasonings w Hp) as (word & r' & w1 & H1).
    unfold bind at 1. rewrite H1. now apply IH.
Qed.

Lemma speaking_node_returns (e : Engine) (p : Providers) (s : GameState) (w : World) :
  providers_return p -> hands_dealt s ->
  exists s' w', speaking_node e p s w = Ok (s', w').
Proof.
  intros Hp Hhands.
  destruct (speaking_loop_returns e p s (PyStr.join PyStr.newline (history s)) (agents s)
              Hp Hhands ([], speaker_reasonings s, []) w) as ([[u r] hu] & w' & H).
  unfold speaking_node, bind. rewrite H. unfold ret. eauto.
Qed.

(** From a reachable state every node returns. *)
Lemma reachable_node_returns (e : Engine) (p : Providers) (n : Node) (s : GameState)
    (w : World) :
  providers_return p -> Reachable e p n s w ->
  exists s' w', node_run e p n s w = Ok (s', w').
Proof.
  intros Hp Hreach. apply reachable_inv in Hreach.
  destruct Hreach as (_ & Hhands & _ & _ & _ & Hvote).
  destruct n; simpl.
  - now apply speaking_node_returns.
  - now apply voting_node_returns.
  - destruct (execute_play_node_returns s (Hvote eq_refl)) as [s' Hs'].
    rewrite Hs'. unfold lift. eauto.
  - destruct (wait_round_node_run e p s w Hp)
      as (_ & _ & _ & _ & _ & _ & _ & s' & w' & _ & _ & _ & _ & _ & _ & Hrun & _).
    eauto.
  - unfold ret. eauto.
Qed.

Lemma rounds_left_positive (e : Engine) (s : GameState) : (1 <= rounds_left e s)%nat.
Proof. unfold rounds_left. lia. Qed.

(** A round that does not end the game leaves one round less. *)
Lemma round_uses_budget (e : Engine) (p : Providers) (n : Node) (s s' : GameState)
    (w w' : World) :
  Reachable e p n s w ->
  n = NExecutePlay \/ n = NWaitRound ->
  node_run e p n s w = Ok (s', w') ->
  status s' = ACTIVE ->
  (S (rounds_left e s') <= rounds_left e s)%nat.
Proof.
  clear json_loads.
  intros Hreach Hn Hrun Hactive.
  assert (Hreach' : Reachable e p (next_node n s') s' w').
  { apply (reach_node_run e p n s s' w w'); try assumption.
    destruct Hn as [-> | ->]; discriminate. }
  apply reachable_inv in Hreach'. destruct Hreach' as ((Hincl & Hnd & _) & _).
  pose proof (NoDup_incl_length Hnd Hincl) as Hle.
  unfold rounds_left. destruct Hn as [-> | ->]; simpl in Hrun.
  - apply lift_Ok in Hrun. destruct Hrun as [Hrun _].
    apply execute_play_node_inv in Hrun.
    destruct Hrun as (player & card & _ & _ & _ & Hf & _ & Hs & Ha & _ & _ & Ht).
    rewrite Hs in Hactive. rewrite Hf, Ha in Hle. rewrite Hf, Ha, Ht.
    destruct (card <? last_played_card s); [discriminate|].
    destruct (Nat.eqb_spec (List.length (finished_agents s ++ [player]))
                (List.length (agents s))) as [Heq|Hneq]; [discriminate|].
    rewrite length_app in *. simpl in *. lia.
  - apply wait_round_node_inv in Hrun.
    destruct Hrun as (Ht & _ & Hs & _ & _ & Ha & _ & Hf & _).
    rewrite Hs in Hactive. rewrite Hf, Ha, Ht.
    destruct (Z.leb_spec (max_turns e) (turn_count s + 1)); [discriminate|]. lia.
Qed.

(** From the Voting phase, [k] rounds of budget are used up within [2 * k]
    nodes. *)
Lemma voting_rounds_end (e : Engine) (p : Providers) :
  providers_return p ->
  forall (k : nat) (s : GameState) (w : World),
    Reachable e p NVoting s w ->
    (rounds_left e s <= k)%nat ->
    exists s' w',
      stream e p (2 * k) NVoting s w = Ok ((NEnd, s'), w')
      /\ Reachable e p NEnd s' w'.
Proof.
  intros Hp. induction k as [|k IH]; intros s w Hreach Hk.
  - pose proof (rounds_left_positive e s). lia.
  - replace (2 * S k)%nat with (S (S (2 * k))) by lia.
    rewrite stream_S by discriminate.
    destruct (reachable_node_returns e p NVoting s w Hp Hreach) as (s1 & w1 & Hrun1).
    unfold bind at 1. rewrite Hrun1.
    pose proof (reach_node_run e p NVoting s s1 w w1 Hreach ltac:(discriminate) Hrun1)
      as Hreach1.
    assert (Hsame : rounds_left e s1 = rounds_left e s).
    { simpl in Hrun1. apply voting_node_inv in Hrun1.
      destruct Hrun1 as (b & t & _ & _ & _ & _ & _ & Ha & _ & Hf & _ & Ht & _).
      unfold rounds_left. now rewrite Ha, Hf, Ht. }
    assert (Hn1 : next_node NVoting s1 = NExecutePlay \/ next_node NVoting s1 = NWaitRound).
    { simpl. destruct (router_node_cases s1) as [[H _]|[H _]]; auto. }
    set (n1 := next_node NVoting s1) in *.
    assert (Hn1' : n1 <> NEnd) by (destruct Hn1 as [-> | ->]; discriminate).
    rewrite stream_S by assumption.
    destruct (reachable_node_returns e p n1 s1 w1 Hp Hreach1) as (s2 & w2 & Hrun2).
    unfold bind at 1. rewrite Hrun2.
    pose proof (reach_node_run e p n1 s1 s2 w1 w2 Hreach1 Hn1' Hrun2) as Hreach2.
    assert (Hnext : next_node n1 s2 = check_game_end s2)
      by (destruct Hn1 as [-> | ->]; reflexivity).
    rewrite Hnext in *.
    destruct (check_game_end_spec s2) as [[Hst Hc]|[Hst Hc]]; rewrite Hc in *.
    + apply IH; [assumption|].
      pose proof (round_uses_budget e p n1 s1 s2 w1 w2 Hreach1 Hn1 Hrun2 Hst). lia.
    + rewrite stream_end. unfold ret. eauto.
Qed.

Lemma stream_more_fuel (e : Engine) (p : Providers) (fuel : nat) :
  forall (extra : nat) (n : Node) (s : GameState) (w : World) (s' : GameState) (w' : World),
    stream e p fuel n s w = Ok ((NEnd, s'), w') ->
    stream e p (fuel + extra) n s w = Ok ((NEnd, s'), w').
Proof.
  induction fuel as [|fuel IH]; intros extra n s w s' w' H.
  - destruct n; simpl in H; apply ret_Ok in H; destruct H as [[= <-] <-];
      try discriminate.
    rewrite stream_end. reflexivity.
  - destruct (Node_eq_dec_end n) as [-> | Hn].
    + rewrite stream_end in *. assumption.
    + change (S fuel + extra)%nat with (S (fuel + extra)).
      rewrite stream_S in * by assumption.
      unfold bind in *. destruct (node_run e p n s w) as [[s1 w1]|err]; [|discriminate].
      now apply IH.
Qed.

(** X3. A game always ends.  From the state Setup returns, with callables
    that return, the graph reaches END after at most
    [1 + 2 * (len(agents) + max(max_turns, 1))] nodes (Speaking, then rounds
    of Voting followed by PlayResolution or DiscussionRound), no node raises
    on the way, and the final status is SUCCESS or FAILED, never ACTIVE.
    ([run] stands for [ItoGameGraph.run]; the recursion limit of the graph
    library, which can abort a long run earlier, is outside the model.) *)
Theorem game_always_ends
    (e : Engine) (p : Providers) (init : InitialState) (w : World)
    (s0 : GameState) (w0 : World) :
  providers_return p ->
  setup_node e init w = Ok (s0, w0) ->
  exists s' w',
    (forall fuel,
       (1 + 2 * (List.length (agents s0) + Z.to_nat (Z.max (max_turns e) 1)) <= fuel)%nat ->
       run e p fuel (Some init) w = Ok ((NEnd, s'), w'))
    /\ (status s' = SUCCESS \/ status s' = FAILED).
Proof.
  intros Hp Hsetup.
  assert (Hreach0 : Reachable e p NSpeaking s0 w0) by (eapply reach_setup; eassumption).
  destruct (reachable_node_returns e p NSpeaking s0 w0 Hp Hreach0) as (s1 & w1 & Hrun1).
  pose proof (reach_node_run e p NSpeaking s0 s1 w0 w1 Hreach0 ltac:(discriminate) Hrun1)
    as Hreach1.
  simpl next_node in Hreach1.
  set (k := (List.length (agents s0) + Z.to_nat (Z.max (max_turns e) 1))%nat).
  assert (Hk : (rounds_left e s1 <= k)%nat).
  { pose proof Hsetup as Hspec. apply setup_node_spec in Hspec.
    destruct Hspec as (_ & _ & _ & _ & Hfin & Hturn & _).
    simpl in Hrun1. apply speaking_node_frame in Hrun1.
    destruct Hrun1 as (_ & _ & _ & Ha & _ & Hf & _ & Ht).
    unfold rounds_left, k. rewrite Ha, Hf, Ht, Hfin, Hturn. simpl.
    rewrite Z.sub_0_r. lia. }
  destruct (voting_rounds_end e p Hp k s1 w1 Hreach1 Hk) as (s' & w' & Hstream & Hend).
  exists s', w'. split.
  - intros fuel Hfuel. unfold run, bind at 1. rewrite Hsetup.
    replace fuel with (S (2 * k) + (fuel - S (2 * k)))%nat by lia.
    apply stream_more_fuel. rewrite stream_S by discriminate.
    unfold bind. rewrite Hrun1. exact Hstream.
  - apply reachable_end_inv in Hend. destruct Hend as (Hstatus & _).
    specialize (Hstatus eq_refl). destruct (status s'); [congruence | now right | now left].
Qed.

(** X4. A game that ends in SUCCESS has played every card, in order: the
    graph stands on END, [finished_agents] is a permutation of [agents]
    (so the agent identifiers are pairwise distinct: a game whose agent list
    names an agent twice cannot succeed), [played_cards] is non-decreasing,
    and its entries are the hand cards of the finished agents, position by
    position. *)
Theorem success_means_all_cards_in_order
    (e : Engine) (p : Providers) (n : Node) (s : GameState) (w : World) :
  Reachable e p n s w ->
  status s = SUCCESS ->
  n = NEnd
  /\ Permutation (finished_agents s) (agents s)
  /\ NoDup (agents s)
  /\ ascending (played_cards s)
  /\ map (dict_get (hands s)) (finished_agents s) = map Some (played_cards s).
Proof.
  intros Hreach Hsuccess.
  pose proof (reachable_inv e p n s w Hreach)
    as ((Hincl & Hnd & _) & _ & Hstat & _ & Hasc & _).
  pose proof (reachable_end_inv e p n s w Hreach) as (_ & Hlen & _ & Hcards & _).
  specialize (Hlen Hsuccess).
  assert (Hperm : Permutation (finished_agents s) (agents s)).
  { apply NoDup_Permutation_bis; [assumption | lia | assumption]. }
  split; [apply Hstat; congruence|]. split; [assumption|].
  split; [now apply (Permutation_NoDup Hperm)|].
  split; [|assumption]. apply (ascending_tail 0). apply Hasc. congruence.
Qed.

(** X5. A game fails in two ways only.  In a reachable state with status
    FAILED the graph stands on END, and either the card played last is below
    the card played before it (below 0 for a first card), or [turn_count]
    has reached [max_turns].  Whatever the status, [turn_count] is never
    negative and never exceeds [max(max_turns, 1)]; while the status is
    ACTIVE it is 0 or below [max_turns]. *)
Theorem failure_is_descent_or_stagnation
    (e : Engine) (p : Providers) (n : Node) (s : GameState) (w : World) :
  Reachable e p n s w ->
  (status s = FAILED ->
   n = NEnd
   /\ ((exists before card,
          played_cards s = (before ++ [card])%list /\ card < last before 0)
       \/ max_turns e <= turn_count s))
  /\ 0 <= turn_count s <= Z.max (max_turns e) 1
  /\ (status s = ACTIVE -> turn_count s = 0 \/ turn_count s < max_turns e)
  /\ (n = NEnd <-> status s <> ACTIVE).
Proof.
  intros Hreach.
  pose proof (reachable_inv e p n s w Hreach) as (_ & _ & Hstat & _).
  assert (Hbound : turn_count s <= Z.max (max_turns e) 1).
  { clear Hstat. induction Hreach as [init w s w' Hsetup | n s w n' s' w' Hreach IH Hstep].
    - apply setup_node_spec in Hsetup.
      destruct Hsetup as (_ & _ & _ & _ & _ & Hturn & _). lia.
    - inversion Hstep as [n0 s0 w0 s1 w1 Hn Hrun]; subst.
      pose proof (reachable_inv e p n s w Hreach) as (_ & _ & Hstat & _).
      pose proof (reachable_end_inv e p n s w Hreach) as (_ & _ & _ & _ & _ & _ & Hbudget).
      assert (Hactive : status s = ACTIVE).
      { destruct (status_active_dec (status s)) as [H|H]; [assumption|].
        now apply Hstat in H. }
      specialize (Hbudget Hactive).
      destruct n; simpl in Hrun; try congruence.
      + apply speaking_node_frame in Hrun. destruct Hrun as (_ & _ & _ & _ & _ & _ & _ & Ht).
        lia.
      + apply voting_node_inv in Hrun.
        destruct Hrun as (b & t & _ & _ & _ & _ & _ & _ & _ & _ & _ & Ht & _). lia.
      + apply lift_Ok in Hrun. destruct Hrun as [Hrun _].
        apply execute_play_node_inv in Hrun.
        destruct Hrun as (player & card & _ & _ & _ & _ & _ & _ & _ & _ & _ & Ht). lia.
      + apply wait_round_node_inv in Hrun. destruct Hrun as (Ht & _). lia. }
  pose proof (reachable_end_inv e p n s w Hreach)
    as (Hend & _ & Hfailed & _ & _ & Hturn & Hbudget).
  split; [|split; [|split]].
  - intros Hf. split; [apply Hstat; congruence | now apply Hfailed].
  - lia.
  - assumption.
  - split; assumption.
Qed.

(** What [stream] returns is reached by transitions of the graph. *)
Lemma stream_steps (e : Engine) (p : Providers) (fuel : nat) :
  forall n s w n' s' w',
    stream e p fuel n s w = Ok ((n', s'), w') ->
    graph_steps e p (n, s, w) (n', s', w').
Proof.
  induction fuel as [|fuel IH]; intros n s w n' s' w' Hrun.
  - destruct n; simpl in Hrun; apply ret_Ok in Hrun;
      destruct Hrun as [[= <- <-] <-]; constructor.
  - destruct (Node_eq_dec_end n) as [-> | Hn].
    + rewrite stream_end in Hrun. apply ret_Ok in Hrun.
      destruct Hrun as [[= <- <-] <-]. constructor.
    + rewrite stream_S in Hrun by assumption. monad_inv Hrun.
      eapply graph_steps_next; [|apply IH; eassumption].
      now constructor.
Qed.

(** X6. The cards on the table are the hands of the agents that played:
    in every reachable state the entry of [played_cards] at a position is
    the hand card of the agent at the same position of [finished_agents]
    (and [hands] still holds that card: playing does not remove it). *)
Theorem played_cards_are_the_finished_hands
    (e : Engine) (p : Providers) (n : Node) (s : GameState) (w : World) :
  Reachable e p n s w ->
  map (dict_get (hands s)) (finished_agents s) = map Some (played_cards s)
  /\ forall i a, nth_error (finished_agents s) i = Some a ->
       exists card, nth_error (played_cards s) i = Some card
                    /\ dict_get (hands s) a = Some card.
Proof.
  intros Hreach. apply reachable_end_inv in Hreach.
  destruct Hreach as (_ & _ & _ & Hcards & _).
  split; [assumption|]. intros i a Ha.
  assert (Hi : nth_error (map (dict_get (hands s)) (finished_agents s)) i
               = Some (dict_get (hands s) a)).
  { rewrite nth_error_map, Ha. reflexivity. }
  rewrite Hcards, nth_error_map in Hi.
  destruct (nth_error (played_cards s) i) as [card|]; [|discriminate].
  simpl in Hi. injection Hi as Hi. exists card. split; [reflexivity | now symmetry].
Qed.

(** ** Speaking *)





(** ** A missing hand *)

Lemma speaking_loop_raises (e : Engine) (p : Providers) (s : GameState) (h : string)
    (before : list string) (a : string) (after : list string) :
  providers_return p ->
  (forall b, In b before ->
             In b (finished_agents s) \/ exists c, dict_get (hands s) b = Some c) ->
  ~ In a (finished_agents s) ->
  dict_get (hands s) a = None ->
  forall (acc : dict pyval * dict string * list string) (w : World),
    speaking_loop e p s h (before ++ a :: after) acc w = Raise (KeyError a).
Proof.
  intros Hp Hbefore Hnf Hnone.
  induction before as [|x rest IH]; intros [[utt r] hu] w; simpl app;
    rewrite speaking_loop_cons.
  - apply str_in_not_In in Hnf. rewrite Hnf.
    unfold dict_index. rewrite Hnone. reflexivity.
  - assert (Hrest : forall b, In b rest ->
                      In b (finished_agents s) \/ exists c, dict_get (hands s) b = Some c)
      by (intros b Hb; apply Hbefore; now right).
    destruct (str_in x (finished_agents s)) eqn:Hfin; [now apply IH|].
    apply str_in_not_In in Hfin.
    destruct (Hbefore x (or_introl eq_refl)) as [Hin|[c Hc]]; [contradiction|].
    unfold dict_index. rewrite Hc. unfold lift, bind at 1.
    destruct (spoken_word_returns e p s h x c r w Hp) as (word & r' & w1 & H1).
    unfold bind at 1. rewrite H1. now apply IH.
Qed.

Lemma voting_loop_raises (e : Engine) (p : Providers) (s : GameState) (h : string)
    (before : list string) (a : string) (after : list string) :
  providers_return p ->
  (forall b, In b before ->
             In b (finished_agents s) \/ exists c, dict_get (hands s) b = Some c) ->
  ~ In a (finished_agents s) ->
  dict_get (hands s) a = None ->
  forall (acc : dict string * dict string) (w : World),
    voting_loop e p s h (before ++ a :: after) acc w = Raise (KeyError a).
Proof.
  intros Hp Hbefore Hnf Hnone.
  induction before as [|x rest IH]; intros acc w; simpl app; rewrite voting_loop_cons.
  - apply str_in_not_In in Hnf. rewrite Hnf. destruct acc as [b t].
    unfold cast_vote, dict_index. rewrite Hnone. reflexivity.
  - assert (Hrest : forall b, In b rest ->
                      In b (finished_agents s) \/ exists c, dict_get (hands s) b = Some c)
      by (intros b Hb; apply Hbefore; now right).
    destruct (str_in x (finished_agents s)) eqn:Hfin; [now apply IH|].
    apply str_in_not_In in Hfin.
    destruct (Hbefore x (or_introl eq_refl)) as [Hin|Hc]; [contradiction|].
    destruct (cast_vote_returns e p s h x acc w Hp Hc) as (acc1 & w1 & H1).
    unfold bind. rewrite H1. now apply IH.
Qed.

Lemma min_by_from_raises (key : string -> Result Z) (before : list string) (a : string)
    (after : list string) (x : string) :
  (forall b, In b before -> exists k, key b = Ok k) ->
  key a = Raise (KeyError x) ->
  forall best best_key,
    min_by_from key best best_key (before ++ a :: after) = Raise (KeyError x).
Proof.
  intros Hbefore Ha. induction before as [|y rest IH]; intros best best_key; simpl.
  - now rewrite Ha.
  - destruct (Hbefore y (or_introl eq_refl)) as [k Hk]. rewrite Hk.
    destruct (k <? best_key); apply IH; intros b Hb; apply Hbefore; now right.
Qed.

(** X8. A node that needs the card of an agent without an entry in [hands]
    raises KeyError for that agent and returns no state.  Speaking and Voting
    raise it for the first agent in list order that has not played and holds
    no card; PlayResolution raises it for the first PLAY voter without a
    card; and PlayResolution run on votes without any PLAY raises the
    ValueError of [min] on an empty sequence. *)
Theorem missing_hand_raises_key_error
    (e : Engine) (p : Providers) (s : GameState) (w : World) (a : string) :
  dict_get (hands s) a = None ->
  (forall before after,
     providers_return p ->
     agents s = (before ++ a :: after)%list ->
     (forall b, In b before ->
                In b (finished_agents s) \/ exists c, dict_get (hands s) b = Some c) ->
     ~ In a (finished_agents s) ->
     speaking_node e p s w = Raise (KeyError a)
     /\ voting_node e p s w = Raise (KeyError a))
  /\ (forall before after,
        play_candidates (votes s) = (before ++ a :: after)%list ->
        (forall b, In b before -> exists c, dict_get (hands s) b = Some c) ->
        execute_play_node s = Raise (KeyError a))
  /\ (play_candidates (votes s) = [] ->
      exists msg, execute_play_node s = Raise (ValueError msg)).
Proof.
  intros Hnone. split; [|split].
  - intros before after Hp Hagents Hbefore Hnf. split.
    + unfold speaking_node, bind. rewrite Hagents.
      now rewrite (speaking_loop_raises e p s _ before a after Hp Hbefore Hnf Hnone).
    + unfold voting_node, bind. rewrite Hagents.
      now rewrite (voting_loop_raises e p s _ before a after Hp Hbefore Hnf Hnone).
  - intros before after Hcand Hcards. unfold execute_play_node. rewrite Hcand.
    assert (Hkey : dict_index (hands s) a = Raise (KeyError a))
      by (unfold dict_index; now rewrite Hnone).
    destruct before as [|b0 rest]; simpl.
    + now rewrite Hkey.
    + destruct (Hcards b0 (or_introl eq_refl)) as [c0 Hc0].
      unfold dict_index at 1. rewrite Hc0.
      rewrite (min_by_from_raises (fun x => dict_index (hands s) x) rest a after a);
        [reflexivity | | assumption].
      intros b Hb. destruct (Hcards b (or_intror Hb)) as [c Hc].
      exists c. unfold dict_index. now rewrite Hc.
  - intros Hcand. unfold execute_play_node. rewrite Hcand. simpl. eauto.
Qed.

(** ** The vote of the human player *)



(** ** Dealing *)

Lemma draw_card_snoc (cards : list Z) (c : Z) :
  draw_card (cards ++ [c]) = Ok (c, cards).
Proof.
  unfold draw_card. destruct (cards ++ [c])%list eqn:E.
  - destruct cards; discriminate.
  - rewrite <- E. now rewrite last_last, removelast_last.
Qed.

(** Agents named once each are dealt the last cards of the deck, from the
    end backwards. *)
Lemma deal_spec (agent_list : list string) :
  forall (hand_map : dict Z) (rest_deck dealt : list Z),
    NoDup agent_list ->
    (forall a, In a agent_list -> ~ In a (dict_keys hand_map)) ->
    List.length dealt = List.length agent_list ->
    deal agent_list hand_map (rest_deck ++ rev dealt)
    = Ok ((hand_map ++ combine agent_list dealt)%list, rest_deck).
Proof.
  clear str_upper json_loads.
  induction agent_list as [|a rest IH]; intros hm rest_deck dealt Hnd Hfresh Hlen.
  - destruct dealt; [|discriminate]. simpl. now rewrite !app_nil_r.
  - destruct dealt as [|c dealt]; [discriminate|].
    inversion Hnd as [|? ? Ha Hrest]; subst.
    simpl rev. rewrite app_assoc. cbn [deal]. rewrite draw_card_snoc.
    rewrite IH.
    + rewrite dict_set_fresh by (apply Hfresh; now left).
      rewrite <- app_assoc. reflexivity.
    + assumption.
    + intros b Hb. rewrite dict_keys_set_In. intros [Hin| ->].
      * apply (Hfresh b); [now right | assumption].
      * contradiction.
    + simpl in Hlen. lia.
Qed.

Lemma deal_returns (agent_list : list string) :
  forall (hand_map : dict Z) (cards : list Z),
    (List.length agent_list <= List.length cards)%nat ->
    exists hand_map' cards', deal agent_list hand_map cards = Ok (hand_map', cards').
Proof.
  induction agent_list as [|a rest IH]; intros hm cards Hlen; simpl.
  - eauto.
  - destruct cards as [|c cards]; [simpl in Hlen; lia|].
    cbn [draw_card]. apply IH. rewrite removelast_length. simpl in Hlen. lia.
Qed.

Lemma py_range_In (n : nat) :
  forall lo c, In c (py_range lo n) <-> lo <= c < lo + Z.of_nat n.
Proof.
  induction n as [|n IH]; intros lo c; simpl py_range.
  - simpl. lia.
  - simpl In. rewrite IH. lia.
Qed.

Lemma py_range_NoDup (n : nat) : forall lo, NoDup (py_range lo n).
Proof.
  induction n as [|n IH]; intros lo; simpl; constructor; [|apply IH].
  rewrite py_range_In. lia.
Qed.

Lemma combine_snd_same_length {A B} (l : list A) :
  forall (t : list B), List.length t = List.length l -> map snd (combine l t) = t.
Proof.
  induction l as [|x l IH]; intros t Hlen.
  - destruct t; [reflexivity | discriminate].
  - destruct t as [|y t]; [discriminate|]. simpl. rewrite IH; [reflexivity|].
    simpl in Hlen. lia.
Qed.

Lemma NoDup_app_disjoint {A} (l l' : list A) :
  NoDup (l ++ l') -> forall x, In x l -> ~ In x l'.
Proof.
  induction l as [|y l IH]; simpl; intros Hnd x Hx; [contradiction|].
  inversion Hnd as [|? ? Hy Hrest]; subst. destruct Hx as [<-|Hx].
  - intros Hin. apply Hy. apply in_or_app. now right.
  - now apply IH.
Qed.

(** X10. Setup deals distinct cards.  When the caller supplies no complete
    hand mapping and the agents are pairwise distinct, the state Setup
    returns has one hand per agent, in list order; the hands are the last
    cards of the shuffled deck, taken from its end, and [deck] is what is
    left: hands and deck together are the cards 1 to 100, each once.  So every
    hand is between 1 and 100, no two agents hold the same card, no hand is
    still in the deck, and the deck has [100 - len(agents)] cards. *)
Theorem setup_deals_distinct_cards
    (e : Engine) (init : InitialState) (w : World) (s : GameState) (w' : World) :
  NoDup (list_or (init_agents init) (agent_ids e)) ->
  set_eqb (dict_keys (match init_hands init with Some h => h | None => [] end))
          (list_or (init_agents init) (agent_ids e)) = false ->
  setup_node e init w = Ok (s, w') ->
  dict_keys (hands s) = agents s
  /\ (exists full w1,
        create_deck w = Ok (full, w1)
        /\ full = (deck s ++ rev (dict_values (hands s)))%list)
  /\ Permutation (dict_values (hands s) ++ deck s) (py_range 1 100)
  /\ NoDup (dict_values (hands s))
  /\ (forall c, In c (dict_values (hands s)) -> 1 <= c <= 100 /\ ~ In c (deck s))
  /\ (List.length (deck s) + List.length (agents s) = 100)%nat.
Proof.
  clear str_upper json_loads.
  intros Hnd Hset Hrun. unfold setup_node in Hrun. rewrite Hset in Hrun.
  monad_inv Hrun. destruct x as [hand_map cards].
  monad_inv Hrun. apply ret_Ok in Hrun. destruct Hrun as [<- _].
  cbn [hands deck agents].
  monad_inv Hrun_call. rename x0 into full. rename Hrun_call_call into Hcreate.
  apply lift_Ok in Hrun_call. destruct Hrun_call as [Hdeal _].
  set (agent_list := list_or (init_agents init) (agent_ids e)) in *.
  pose proof (create_deck_perm _ _ _ Hcreate) as Hperm.
  assert (Hfull : List.length full = 100%nat).
  { rewrite (Permutation_length Hperm). apply py_range_length. }
  assert (Hn : (List.length agent_list <= 100)%nat).
  { destruct (Nat.le_gt_cases (List.length agent_list) 100) as [H|H]; [assumption|].
    rewrite deal_exhausts in Hdeal by lia. discriminate. }
  set (k := (100 - List.length agent_list)%nat).
  assert (Hsplit : full = (firstn k full ++ rev (rev (skipn k full)))%list)
    by (now rewrite rev_involutive, firstn_skipn).
  rewrite Hsplit in Hdeal. rewrite deal_spec in Hdeal.
  - injection Hdeal as <- <-. simpl app.
    assert (Hlen : List.length (rev (skipn k full)) = List.length agent_list).
    { rewrite length_rev, length_skipn. unfold k. lia. }
    assert (Hvalues : dict_values (combine agent_list (rev (skipn k full)))
                      = rev (skipn k full)).
    { unfold dict_values. now apply combine_snd_same_length. }
    rewrite Hvalues, rev_involutive.
    assert (Hperm' : Permutation (rev (skipn k full) ++ firstn k full) (py_range 1 100)).
    { eapply perm_trans; [|exact Hperm].
      eapply perm_trans; [apply Permutation_app_comm|].
      rewrite <- (firstn_skipn k full) at 3.
      apply Permutation_app_head. symmetry. apply Permutation_rev. }
    assert (Hnodup : NoDup (rev (skipn k full) ++ firstn k full)).
    { apply (Permutation_NoDup (Permutation_sym Hperm')). apply py_range_NoDup. }
    split; [unfold dict_keys; now apply combine_fst_same_length|].
    split; [exists full, w2; split; [assumption | now rewrite firstn_skipn]|].
    split; [assumption|].
    split; [now apply NoDup_app_remove_r in Hnodup|].
    split.
    + intros c Hc. split.
      * assert (Hin : In c (py_range 1 100)).
        { apply (Permutation_in c Hperm'). apply in_or_app. now left. }
        apply py_range_In in Hin. simpl in Hin. lia.
      * now apply (NoDup_app_disjoint _ _ Hnodup).
    + rewrite length_firstn. unfold k. lia.
  - assumption.
  - intros a _ [].
  - rewrite length_rev, length_skipn. unfold k. lia.
Qed.

Lemma Z_in_In (x : Z) (l : list Z) : Z_in x l = true <-> In x l.
Proof.
  unfold Z_in. rewrite existsb_exists. split.
  - intros [y [Hy Heq]]. apply Z.eqb_eq in Heq. now subst.
  - intros H. exists x. split; [assumption | apply Z.eqb_refl].
Qed.

(** X11. Setup keeps a complete hand mapping.  When the keys of the hands
    the caller supplies are, as a set, the agents, the state Setup returns
    holds those hands as given (nothing checks the cards), and [deck] is the
    shuffled deck without the cards that are in a hand: no card twice, and
    exactly the cards from 1 to 100 that no hand holds. *)
Theorem setup_keeps_complete_hands
    (e : Engine) (init : InitialState) (w : World) (s : GameState) (w' : World) :
  set_eqb (dict_keys (match init_hands init with Some h => h | None => [] end))
          (list_or (init_agents init) (agent_ids e)) = true ->
  setup_node e init w = Ok (s, w') ->
  hands s = match init_hands init with Some h => h | None => [] end
  /\ (exists full w1,
        create_deck w = Ok (full, w1)
        /\ deck s = filter (fun card => negb (Z_in card (dict_values (hands s)))) full)
  /\ NoDup (deck s)
  /\ (forall c, In c (deck s) <->
                1 <= c <= 100 /\ ~ In c (dict_values (hands s))).
Proof.
  clear str_upper json_loads.
  intros Hset Hrun. unfold setup_node in Hrun. rewrite Hset in Hrun.
  monad_inv Hrun. destruct x as [hand_map cards].
  monad_inv Hrun. apply ret_Ok in Hrun. destruct Hrun as [<- _].
  cbn [hands deck agents].
  monad_inv Hrun_call. rename x0 into full. rename Hrun_call_call into Hcreate.
  apply ret_Ok in Hrun_call. destruct Hrun_call as [[= <- <-] _].
  pose proof (create_deck_perm _ _ _ Hcreate) as Hperm.
  split; [reflexivity|].
  split; [exists full, w2; split; [exact Hcreate | reflexivity]|]. split.
  - apply NoDup_filter. apply (Permutation_NoDup (Permutation_sym Hperm)).
    apply py_range_NoDup.
  - intros c. rewrite filter_In, negb_true_iff.
    assert (Hin : In c full <-> 1 <= c <= 100).
    { split; intros H.
      - apply (Permutation_in c Hperm) in H. apply py_range_In in H. simpl in H. lia.
      - apply (Permutation_in c (Permutation_sym Hperm)). apply py_range_In. simpl. lia. }
    rewrite Hin. split; intros [H1 H2]; (split; [assumption|]).
    + intros Hc. apply Z_in_In in Hc. congruence.
    + destruct (Z_in c _) eqn:Hz; [|reflexivity]. apply Z_in_In in Hz. contradiction.
Qed.

(** ** When Setup raises *)

Lemma random_choice_cases (seq : list string) (w : World) :
  (seq = [] /\ random_choice seq w = Raise (IndexError "Cannot choose from an empty sequence"))
  \/ (seq <> [] /\ exists x w', random_choice seq w = Ok (x, w') /\ In x seq).
Proof.
  destruct seq as [|first rest]; [left; now split|]. right. split; [discriminate|].
  unfold random_choice, bind, randbelow, ret. eexists _, _. split; [reflexivity|].
  apply nth_In. apply Nat.mod_upper_bound. discriminate.
Qed.

(** X12. Setup fails in two ways only.  It raises the IndexError of the
    empty deck exactly when it has to deal (no complete hand mapping was
    supplied) to more than 100 agents; otherwise it raises the IndexError of
    [random.choice] exactly when there is no theme to take: the override is
    empty after trimming, the engine has no theme, and the pool of themes is
    empty; in every other case it returns a state. *)
Theorem setup_fails_in_two_ways_only
    (e : Engine) (init : InitialState) (w : World) :
  let agent_list := list_or (init_agents init) (agent_ids e) in
  let provided := match init_hands init with Some h => h | None => [] end in
  let no_deck := set_eqb (dict_keys provided) agent_list = false
                 /\ (100 < List.length agent_list)%nat in
  let no_theme :=
    PyStr.nonempty (PyStr.strip (str_or (init_theme_override init) EmptyString)) = false
    /\ str_or (self_theme e) EmptyString = EmptyString
    /\ THEMES_JA = [] in
  (setup_node e init w = Raise (IndexError "Deck is empty") <-> no_deck)
  /\ (setup_node e init w = Raise (IndexError "Cannot choose from an empty sequence")
      <-> ~ no_deck /\ no_theme)
  /\ ((exists s w', setup_node e init w = Ok (s, w')) <-> ~ no_deck /\ ~ no_theme).
Proof.
  clear str_upper json_loads.
  intros agent_list provided no_deck no_theme.
  destruct (create_deck_spec w) as (full & w1 & Hdeck & Hfull).
  assert (Hhands :
    (no_deck /\ setup_node e init w = Raise (IndexError "Deck is empty"))
    \/ (~ no_deck /\ exists hand_map cards,
          setup_node e init w =
          bind (if PyStr.nonempty (PyStr.strip (str_or (init_theme_override init) EmptyString))
                then ret (PyStr.strip (str_or (init_theme_override init) EmptyString))
                else match self_theme e with
                     | Some (String c r) => ret (String c r)
                     | _ => random_choice THEMES_JA
                     end)
            (fun chosen =>
               ret {| theme := chosen;
                      history := list_or (init_history init) [GAME_START ++ chosen];
                      played_cards := [];
                      last_played_card := 0;
                      utterances := [];
                      turn_count := 0;
                      status := ACTIVE;
                      deck := cards;
                      agents := agent_list;
                      votes := [];
                      finished_agents := [];
                      speaker_reasonings := [];
                      estimator_thoughts := [];
                      debug := self_debug e;
                      reveal := reveal_hands e;
                      theme_override :=
                        PyStr.strip (str_or (init_theme_override init) EmptyString);
                      hands := hand_map |}) w1)).
  { unfold setup_node. fold agent_list. fold provided.
    destruct (set_eqb (dict_keys provided) agent_list) eqn:Hset.
    - right. split; [intros [H _]; discriminate|].
      unfold bind at 1. unfold bind at 1. rewrite Hdeck. unfold ret at 1.
      eexists _, _. reflexivity.
    - destruct (Nat.le_gt_cases (List.length agent_list) 100) as [Hle|Hgt].
      + right. split; [intros [_ H]; lia|].
        destruct (deal_returns agent_list [] full) as (hm & cards & Hdeal); [lia|].
        unfold bind at 1. unfold bind at 1. rewrite Hdeck. unfold lift. rewrite Hdeal.
        eexists _, _. reflexivity.
      + left. split; [split; [reflexivity | assumption]|].
        unfold bind at 1. unfold bind at 1. rewrite Hdeck. unfold lift.
        rewrite deal_exhausts by lia. reflexivity. }
  destruct Hhands as [[Hno Hraise]|[Hyes (hm & cards & Hrun)]].
  - rewrite Hraise. split; [|split].
    + split; [intros _; assumption | reflexivity].
    + split; [discriminate | intros [H _]; contradiction].
    + split; [intros (s & w' & H); discriminate | intros [H _]; contradiction].
  - rewrite Hrun. unfold no_theme.
    destruct (PyStr.nonempty (PyStr.strip (str_or (init_theme_override init) EmptyString)))
      eqn:Hover.
    + unfold bind, ret. split; [|split].
      * split; [discriminate | intros H; contradiction].
      * split; [discriminate | intros [_ [H _]]; discriminate].
      * split; [intros _; split; [assumption | intros [H _]; discriminate] | eauto].
    + destruct (self_theme e) as [[|c r]|] eqn:Htheme; simpl str_or.
      1,3: destruct (random_choice_cases THEMES_JA w1)
             as [[Hnil Hchoice]|[Hne (x & w2 & Hchoice & _)]];
           unfold bind; rewrite Hchoice; unfold ret;
           (split; [|split]);
           [ split; [discriminate | intros H; contradiction]
           | split; [intros _; split; [assumption | now repeat split]
                    | reflexivity]
           | split; [intros (s & w' & H); discriminate
                    | intros [_ H]; exfalso; apply H; now repeat split]
           | split; [discriminate | intros H; contradiction]
           | split; [discriminate | intros [_ (_ & _ & H)]; contradiction]
           | split; [intros _; split; [assumption | intros (_ & _ & H); contradiction]
                    | eauto] ].
      unfold bind, ret. split; [|split].
      * split; [discriminate | intros H; contradiction].
      * split; [discriminate | intros [_ (_ & H & _)]; discriminate].
      * split; [intros _; split; [assumption | intros (_ & H & _); discriminate] | eauto].
Qed.

(** ** The deck, again *)

(** X13. [create_deck] returns the cards 1 to 100, each exactly once, in
    the order the random module chose, whatever that order is; it never
    raises. *)
Theorem create_deck_is_a_permutation (w : World) :
  exists cards w',
    create_deck w = Ok (cards, w')
    /\ Permutation cards (py_range 1 100)
    /\ NoDup cards
    /\ List.length cards = 100%nat
    /\ forall c, In c cards <-> 1 <= c <= 100.
Proof.
  destruct (create_deck_spec w) as (cards & w' & Hdeck & Hlen).
  pose proof (create_deck_perm _ _ _ Hdeck) as Hperm.
  exists cards, w'. split; [assumption|]. split; [assumption|].
  split; [apply (Permutation_NoDup (Permutation_sym Hperm)), py_range_NoDup|].
  split; [assumption|]. intros c. split; intros H.
  - apply (Permutation_in c Hperm) in H. apply py_range_In in H. simpl in H. lia.
  - apply (Permutation_in c (Permutation_sym Hperm)). apply py_range_In. simpl. lia.
Qed.

(** X14. [draw_card] takes the last card of the deck and leaves the others
    in their order: it returns [card] and [rest] exactly on the deck
    [rest + [card]], and it raises exactly on the empty deck.  Dealing to a
    list of agents therefore succeeds whenever the deck has at least as many
    cards as the list has entries. *)
Theorem draw_card_takes_the_last_card :
  (forall cards card rest,
     draw_card cards = Ok (card, rest) <-> cards = (rest ++ [card])%list)
  /\ (forall cards,
        (exists err, draw_card cards = Raise err) <-> cards = [])
  /\ (forall agent_list hand_map cards,
        (exists hand_map' cards', deal agent_list hand_map cards = Ok (hand_map', cards'))
        <-> (List.length agent_list <= List.length cards)%nat).
Proof.
  split; [|split].
  - intros cards card rest. split.
    + intros H. destruct cards as [|c cards]; [discriminate|].
      assert (E : c :: cards = (removelast (c :: cards) ++ [last (c :: cards) 0])%list)
        by (apply app_removelast_last; discriminate).
      unfold draw_card in H. injection H as Hcard Hrest. rewrite E.
      f_equal; [exact Hrest | f_equal; exact Hcard].
    + intros ->. apply draw_card_snoc.
  - intros cards. split.
    + intros [err H]. destruct cards; [reflexivity | discriminate].
    + intros ->. eexists. reflexivity.
  - intros agent_list hand_map cards. split.
    + intros (hm & rest & Hok).
      destruct (Nat.le_gt_cases (List.length agent_list) (List.length cards)) as [H|H];
        [assumption|].
      rewrite deal_exhausts in Hok by lia. discriminate.
    + apply deal_returns.
Qed.

(** ** The speaker and the discussion agents *)





(** ** Texts: prefixes, suffixes and positions *)

Lemma string_length_app (a b : string) :
  String.length (a ++ b) = (String.length a + String.length b)%nat.
Proof. induction a as [|c a IH]; simpl; [reflexivity | now rewrite IH]. Qed.

Lemma string_app_nil_r (a : string) : a ++ EmptyString = a.
Proof. induction a as [|c a IH]; simpl; [reflexivity | now rewrite IH]. Qed.

Lemma string_app_assoc (a b c : string) : (a ++ b) ++ c = a ++ (b ++ c).
Proof. induction a as [|x a IH]; simpl; [reflexivity | now rewrite IH]. Qed.

Lemma has_char_app (c : ascii) (a b : string) :
  has_char c (a ++ b) = has_char c a || has_char c b.
Proof.
  induction a as [|x a IH]; simpl; [reflexivity|]. now rewrite IH, orb_assoc.
Qed.

Lemma substring_skip (a b : string) (n : nat) :
  substring (String.length a) n (a ++ b) = substring 0 n b.
Proof. induction a as [|c a IH]; simpl; [reflexivity | assumption]. Qed.

Lemma substring_take (a b : string) : substring 0 (String.length a) (a ++ b) = a.
Proof.
  induction a as [|c a IH]; simpl.
  - destruct b; reflexivity.
  - now rewrite IH.
Qed.

Lemma substring_all (a : string) : substring 0 (String.length a) a = a.
Proof. rewrite <- (string_app_nil_r a) at 2. apply substring_take. Qed.

Lemma prefix_app (p x : string) : String.prefix p (p ++ x) = true.
Proof.
  induction p as [|c p IH]; simpl; [destruct x; reflexivity|].
  destruct (ascii_dec c c); [assumption | congruence].
Qed.

Lemma drop_app (p x : string) : Re.drop (String.length p) (p ++ x) = x.
Proof.
  unfold Re.drop. rewrite string_length_app, substring_skip.
  replace (String.length p + String.length x - String.length p)%nat
    with (String.length x) by lia.
  apply substring_all.
Qed.

Lemma endswith_app (a x : string) : Re.endswith x (a ++ x) = true.
Proof.
  unfold Re.endswith. rewrite string_length_app.
  replace (String.length a + String.length x - String.length x)%nat
    with (String.length a) by lia.
  rewrite substring_skip, substring_all, String.eqb_refl.
  destruct (Nat.leb_spec (String.length x) (String.length a + String.length x));
    [reflexivity | lia].
Qed.

Lemma skip_fence_lang_app (lang : string) (c : ascii) (r : string) :
  all_chars Re.is_fence_lang_char lang = true ->
  Re.is_fence_lang_char c = false ->
  Re.skip_fence_lang (lang ++ String c r) = String c r.
Proof.
  intros Hlang Hc. induction lang as [|x lang IH]; simpl.
  - now rewrite Hc.
  - simpl in Hlang. apply andb_prop in Hlang. destruct Hlang as [Hx Hlang].
    rewrite Hx. now apply IH.
Qed.

(** Two ways of cutting one text meet: a cut further right continues the
    text of the cut further left. *)
Lemma string_app_split (pre : string) :
  forall (rest a post : string) (c1 c2 : ascii),
    pre ++ String c1 rest = a ++ String c2 post ->
    (String.length pre < String.length a)%nat ->
    exists mid, a = pre ++ String c1 mid /\ rest = mid ++ String c2 post.
Proof.
  induction pre as [|x pre IH]; intros rest a post c1 c2 Heq Hlen.
  - destruct a as [|y a]; [simpl in Hlen; lia|].
    simpl in Heq. injection Heq as <- ->. now exists a.
  - destruct a as [|y a]; [simpl in Hlen; lia|].
    simpl in Heq. injection Heq as <- Heq. simpl in Hlen.
    destruct (IH rest a post c1 c2 Heq) as (mid & -> & ->); [lia|].
    now exists mid.
Qed.

Lemma string_app_same_length (pre : string) :
  forall (x a y : string),
    pre ++ x = a ++ y -> String.length pre = String.length a -> pre = a /\ x = y.
Proof.
  induction pre as [|c pre IH]; intros x a y Heq Hlen.
  - destruct a; [now split | discriminate].
  - destruct a as [|d a]; [discriminate|].
    simpl in Heq. injection Heq as <- Heq. simpl in Hlen.
    destruct (IH x a y Heq) as [-> ->]; [lia | now split].
Qed.

Lemma index_char_cons (c b : ascii) (r : string) :
  String.index 0 (String c EmptyString) (String b r) =
  if Ascii.eqb b c then Some O
  else match String.index 0 (String c EmptyString) r with
       | Some n => Some (S n)
       | None => None
       end.
Proof.
  cbn [String.index String.prefix].
  destruct (ascii_dec c b) as [->|Hne].
  - rewrite Ascii.eqb_refl. destruct r; reflexivity.
  - destruct (Ascii.eqb_spec b c) as [->|_]; [congruence | reflexivity].
Qed.

Lemma index_char_nil (c : ascii) : String.index 0 (String c EmptyString) EmptyString = None.
Proof. reflexivity. Qed.

Lemma index_char_spec (c : ascii) (s : string) :
  match String.index 0 (String c EmptyString) s with
  | Some i => exists pre rest,
                s = pre ++ String c rest /\ String.length pre = i
                /\ has_char c pre = false
  | None => has_char c s = false
  end.
Proof.
  induction s as [|b r IH]; [reflexivity|].
  rewrite index_char_cons. destruct (Ascii.eqb_spec b c) as [->|Hne].
  - exists EmptyString, r. now repeat split.
  - destruct (String.index 0 (String c EmptyString) r) as [i|].
    + destruct IH as (pre & rest & -> & <- & Hpre).
      exists (String b pre), rest. repeat split. simpl.
      destruct (Ascii.eqb_spec b c); [contradiction | assumption].
    + simpl. destruct (Ascii.eqb_spec b c); [contradiction | assumption].
Qed.

Lemma index_char_first (c : ascii) (pre rest : string) :
  has_char c pre = false ->
  String.index 0 (String c EmptyString) (pre ++ String c rest)
  = Some (String.length pre).
Proof.
  induction pre as [|b pre IH]; intros Hpre.
  - simpl append. rewrite index_char_cons, Ascii.eqb_refl. reflexivity.
  - simpl in Hpre. apply orb_false_elim in Hpre. destruct Hpre as [Hb Hpre].
    simpl append. rewrite index_char_cons, Hb, IH by assumption. reflexivity.
Qed.

Lemma rindex_spec (c : ascii) (s : string) :
  match Re.rindex c s with
  | Some j => exists a post,
                s = a ++ String c post /\ String.length a = j
                /\ has_char c post = false
  | None => has_char c s = false
  end.
Proof.
  induction s as [|b r IH]; [reflexivity|].
  cbn [Re.rindex]. destruct (Re.rindex c r) as [j|].
  - destruct IH as (a & post & -> & <- & Hpost).
    exists (String b a), post. now repeat split.
  - destruct (Ascii.eqb_spec b c) as [->|Hne].
    + exists EmptyString, r. now repeat split.
    + simpl. destruct (Ascii.eqb_spec b c); [contradiction | assumption].
Qed.

Lemma rindex_last (c : ascii) (a post : string) :
  has_char c post = false ->
  Re.rindex c (a ++ String c post) = Some (String.length a).
Proof.
  intros Hpost. induction a as [|b a IH].
  - simpl append. cbn [Re.rindex].
    pose proof (rindex_spec c post) as H.
    destruct (Re.rindex c post) as [j|].
    + destruct H as (x & y & -> & _ & _).
      rewrite has_char_app in Hpost. simpl in Hpost.
      rewrite Ascii.eqb_refl, orb_true_r in Hpost. discriminate.
    + now rewrite Ascii.eqb_refl.
  - simpl append. cbn [Re.rindex]. now rewrite IH.
Qed.

Lemma has_char_here (c : ascii) (a b : string) : has_char c (a ++ String c b) = true.
Proof. rewrite has_char_app. simpl. now rewrite Ascii.eqb_refl, orb_true_r. Qed.

Lemma search_json_block_found (pre mid post : string) :
  has_char "{" pre = false -> has_char "}" post = false ->
  Re.search_json_block (pre ++ "{" ++ mid ++ "}" ++ post) = Some ("{" ++ mid ++ "}").
Proof.
  intros Hpre Hpost. unfold Re.search_json_block.
  change (pre ++ "{" ++ mid ++ "}" ++ post)
    with (pre ++ String "{" (mid ++ String "}" post)).
  rewrite index_char_first by assumption.
  replace (pre ++ String "{" (mid ++ String "}" post))
    with ((pre ++ String "{" mid) ++ String "}" post)
    by (now rewrite string_app_assoc).
  rewrite rindex_last by assumption.
  rewrite string_length_app. cbn [String.length].
  destruct (Nat.ltb_spec (String.length pre) (String.length pre + S (String.length mid)));
    [|lia].
  f_equal. rewrite string_app_assoc. cbn [append].
  rewrite substring_skip.
  replace (String.length pre + S (String.length mid) - String.length pre + 1)%nat
    with (String.length (String "{" (mid ++ "}")))
    by (cbn [String.length]; rewrite string_length_app; simpl; lia).
  change (String "{" (mid ++ String "}" post))
    with (String "{" (mid ++ ("}" ++ post))).
  rewrite <- string_app_assoc.
  change (String "{" ((mid ++ "}") ++ post)) with (String "{" (mid ++ "}") ++ post).
  apply substring_take.
Qed.

Lemma search_json_block_some (s block : string) :
  Re.search_json_block s = Some block ->
  exists pre mid post,
    s = pre ++ "{" ++ mid ++ "}" ++ post
    /\ block = "{" ++ mid ++ "}"
    /\ has_char "{" pre = false
    /\ has_char "}" post = false.
Proof.
  intros H. pose proof H as H0. unfold Re.search_json_block in H.
  pose proof (index_char_spec "{" s) as Hi.
  pose proof (rindex_spec "}" s) as Hj.
  destruct (String.index 0 "{" s) as [i|]; [|discriminate].
  destruct (Re.rindex "}" s) as [j|]; [|discriminate].
  destruct (Nat.ltb_spec i j) as [Hlt|]; [|discriminate].
  destruct Hi as (pre & rest & Hs & Hlen & Hpre).
  destruct Hj as (a & post & Hs' & Hlen' & Hpost).
  assert (Heq : pre ++ String "{" rest = a ++ String "}" post) by congruence.
  destruct (string_app_split pre rest a post "{" "}" Heq) as (mid & -> & ->); [lia|].
  exists pre, mid, post.
  assert (Hshape : s = pre ++ "{" ++ mid ++ "}" ++ post) by exact Hs.
  split; [assumption|]. split; [|now split].
  rewrite Hshape, search_json_block_found in H0 by assumption. now injection H0 as <-.
Qed.

(** X17. The block [parse_json_object] falls back to runs from the first
    opening brace of the text to its last closing brace (the pattern is
    greedy and its dot matches line ends too): [search_json_block] returns a
    block exactly for a text with a closing brace somewhere after an opening
    one, and then the block starts at the first opening brace and ends at the
    last closing brace of the whole text, whatever lies between them, other
    braces included. *)
Theorem json_block_runs_from_first_brace_to_last (s : string) :
  (forall block,
     Re.search_json_block s = Some block <->
     exists pre mid post,
       s = pre ++ "{" ++ mid ++ "}" ++ post
       /\ block = "{" ++ mid ++ "}"
       /\ has_char "{" pre = false
       /\ has_char "}" post = false)
  /\ (Re.search_json_block s = None <->
      forall pre mid post, s <> pre ++ "{" ++ mid ++ "}" ++ post).
Proof.
  split.
  - intros block. split; [apply search_json_block_some|].
    intros (pre & mid & post & -> & -> & Hpre & Hpost). now apply search_json_block_found.
  - split.
    + intros Hnone pre mid post Hs. unfold Re.search_json_block in Hnone.
      pose proof (index_char_spec "{" s) as Hi.
      pose proof (rindex_spec "}" s) as Hj.
      destruct (String.index 0 "{" s) as [i|].
      * destruct (Re.rindex "}" s) as [j|].
        -- destruct (Nat.ltb_spec i j) as [|Hge]; [discriminate|].
           destruct Hi as (p1 & r1 & Hs1 & Hl1 & Hp1).
           destruct Hj as (a2 & p2 & Hs2 & Hl2 & Hp2).
           (* the first opening brace is not after the one of the cut *)
           assert (Hfirst : (i <= String.length pre)%nat).
           { destruct (Nat.le_gt_cases i (String.length pre)) as [|Hgt]; [assumption|].
             exfalso.
             assert (Heq : pre ++ String "{" (mid ++ "}" ++ post) = p1 ++ String "{" r1)
               by (rewrite <- Hs1; exact (eq_sym Hs)).
             destruct (string_app_split pre _ p1 r1 "{" "{" Heq) as (m & -> & _); [lia|].
             rewrite has_char_here in Hp1. discriminate. }
           (* the last closing brace is not before the one of the cut *)
           assert (Hlast : (String.length pre + 1 + String.length mid <= j)%nat).
           { destruct (Nat.le_gt_cases (String.length pre + 1 + String.length mid) j)
               as [|Hgt]; [assumption|]. exfalso.
             assert (Heq : a2 ++ String "}" p2 = (pre ++ String "{" mid) ++ String "}" post).
             { rewrite <- Hs2, Hs. now rewrite string_app_assoc. }
             destruct (string_app_split a2 p2 (pre ++ String "{" mid) post "}" "}" Heq)
               as (m & _ & ->).
             { rewrite string_length_app. cbn [String.length]. lia. }
             rewrite has_char_here in Hp2. discriminate. }
           lia.
        -- assert (Hc : has_char "}" s = true).
           { rewrite Hs.
             replace (pre ++ "{" ++ mid ++ "}" ++ post)
               with ((pre ++ String "{" mid) ++ String "}" post)
               by (now rewrite string_app_assoc).
             apply has_char_here. }
           congruence.
      * assert (Hc : has_char "{" s = true) by (rewrite Hs; apply has_char_here).
        congruence.
    + intros Hno. destruct (Re.search_json_block s) as [block|] eqn:H; [|reflexivity].
      destruct (search_json_block_some s block H) as (pre & mid & post & Hs & _).
      exfalso. exact (Hno pre mid post Hs).
Qed.

(** ** [parse_json_object] *)

Lemma parse_json_object_unfold (text : string) :
  parse_json_object text =
  match json_loads (cleaned_text text) with
  | Returned (JObject value) => Returned value
  | _ =>
      match Re.search_json_block (cleaned_text text) with
      | None => Raised "No JSON object found in model output"
      | Some block =>
          match json_loads block with
          | Raised msg => Raised msg
          | Returned (JObject value) => Returned value
          | Returned JNotObject => Raised "Parsed JSON is not an object"
          end
      end
  end.
Proof. reflexivity. Qed.

(** X18. What [parse_json_object] can give.  A dictionary it returns was
    decoded by [json.loads] as an object, from the cleaned text (this is
    preferred) or else from its brace block.  It raises in three cases only:
    there is no brace block (the ValueError that no JSON object was found),
    [json.loads] raises on the block (its own exception goes through), or
    the block decodes to something that is not an object.  When the cleaned
    text is prose around braces and is not itself a JSON object, the outcome
    is that of [json.loads] on the text from its first opening brace to its
    last closing brace. *)
Theorem parse_json_object_outcomes (text : string) :
  let cleaned := cleaned_text text in
  (forall d, json_loads cleaned = Returned (JObject d) ->
             parse_json_object text = Returned d)
  /\ (forall d, parse_json_object text = Returned d ->
        json_loads cleaned = Returned (JObject d)
        \/ exists block,
             Re.search_json_block cleaned = Some block
             /\ json_loads block = Returned (JObject d))
  /\ (forall msg, parse_json_object text = Raised msg ->
        (Re.search_json_block cleaned = None
         /\ msg = "No JSON object found in model output")
        \/ exists block,
             Re.search_json_block cleaned = Some block
             /\ (json_loads block = Raised msg
                 \/ (json_loads block = Returned JNotObject
                     /\ msg = "Parsed JSON is not an object")))
  /\ (forall pre mid post,
        cleaned = pre ++ "{" ++ mid ++ "}" ++ post ->
        has_char "{" pre = false ->
        has_char "}" post = false ->
        (forall d, json_loads cleaned <> Returned (JObject d)) ->
        parse_json_object text =
        match json_loads ("{" ++ mid ++ "}") with
        | Raised msg => Raised msg
        | Returned (JObject d) => Returned d
        | Returned JNotObject => Raised "Parsed JSON is not an object"
        end).
Proof.
  intros cleaned. rewrite parse_json_object_unfold. fold cleaned.
  split; [|split; [|split]].
  - intros d ->. reflexivity.
  - intros d H. destruct (json_loads cleaned) as [[d0|]|err0] eqn:Hdirect.
    + left. congruence.
    + right. destruct (Re.search_json_block cleaned) as [block|]; [|discriminate].
      exists block. split; [reflexivity|].
      destruct (json_loads block) as [[d1|]|err1]; congruence.
    + right. destruct (Re.search_json_block cleaned) as [block|]; [|discriminate].
      exists block. split; [reflexivity|].
      destruct (json_loads block) as [[d1|]|err1]; congruence.
  - intros msg H.
    assert (Hblock : match Re.search_json_block cleaned with
                     | None => Raised "No JSON object found in model output"
                     | Some block =>
                         match json_loads block with
                         | Raised m => Raised m
                         | Returned (JObject value) => Returned value
                         | Returned JNotObject => Raised "Parsed JSON is not an object"
                         end
                     end = @Raised (dict pyval) msg).
    { destruct (json_loads cleaned) as [[d0|]|err0]; [discriminate | exact H | exact H]. }
    destruct (Re.search_json_block cleaned) as [block|].
    + right. exists block. split; [reflexivity|].
      destruct (json_loads block) as [[d1|]|err1].
      * discriminate.
      * right. split; [reflexivity | congruence].
      * left. congruence.
    + left. split; [reflexivity | congruence].
  - intros pre mid post Hshape Hpre Hpost Hnot.
    assert (Hblock : Re.search_json_block cleaned = Some ("{" ++ mid ++ "}"))
      by (rewrite Hshape; now apply search_json_block_found).
    rewrite Hblock.
    destruct (json_loads cleaned) as [[d0|]|err0] eqn:Hdirect; try reflexivity.
    exfalso. exact (Hnot d0 eq_refl).
Qed.

Lemma list_ascii_of_string_app (a b : string) :
  list_ascii_of_string (a ++ b)
  = (list_ascii_of_string a ++ list_ascii_of_string b)%list.
Proof. induction a as [|c a IH]; simpl; [reflexivity | now rewrite IH]. Qed.

(** A text that neither starts nor ends with white space is its own trim. *)
Lemma strip_fixed (s : string) :
  PyStr.ws_prefix (list_ascii_of_string s) = O ->
  PyStr.ws_suffix_rev (rev (list_ascii_of_string s)) = O ->
  PyStr.strip s = s.
Proof.
  intros Hp Hs. unfold PyStr.strip, PyStr.lstrip_bytes.
  rewrite (drop_ws_fixed _ _ _ Hp). unfold PyStr.rstrip_bytes.
  rewrite (drop_ws_fixed _ _ _ Hs). rewrite rev_involutive.
  apply string_of_list_ascii_of_string.
Qed.

Lemma fenced_text_stripped (x : string) :
  PyStr.strip ("```" ++ x ++ "```") = "```" ++ x ++ "```".
Proof.
  apply strip_fixed.
  - reflexivity.
  - change ("```" ++ x ++ "```") with (("```" ++ x) ++ "```") at 1.
    replace ("```" ++ x ++ "```") with (("```" ++ x) ++ "```")
      by (now rewrite string_app_assoc).
    rewrite list_ascii_of_string_app, rev_app_distr. reflexivity.
Qed.

Lemma cleaned_text_fenced (lang body : string) :
  all_chars Re.is_fence_lang_char lang = true ->
  PyStr.strip body = body ->
  cleaned_text ("```" ++ lang ++ PyStr.newline ++ body ++ PyStr.newline ++ "```") = body.
Proof.
  intros Hlang Hbody. unfold cleaned_text. cbv zeta.
  replace ("```" ++ lang ++ PyStr.newline ++ body ++ PyStr.newline ++ "```")
    with ("```" ++ (lang ++ PyStr.newline ++ body ++ PyStr.newline) ++ "```")
    by (now rewrite !string_app_assoc).
  rewrite fenced_text_stripped.
  unfold PyStr.startswith. rewrite prefix_app.
  assert (Hopen : Re.sub_fence_open
                    ("```" ++ (lang ++ PyStr.newline ++ body ++ PyStr.newline) ++ "```")
                  = body ++ PyStr.newline ++ "```").
  { unfold Re.sub_fence_open. rewrite prefix_app.
    change 3%nat with (String.length "```"). rewrite drop_app.
    rewrite !string_app_assoc.
    change (lang ++ PyStr.newline ++ body ++ PyStr.newline ++ "```")
      with (lang ++ String (ascii_of_nat 10) (body ++ PyStr.newline ++ "```")).
    rewrite skip_fence_lang_app by (assumption || reflexivity).
    reflexivity. }
  rewrite Hopen.
  assert (Hclose : Re.sub_fence_close (body ++ PyStr.newline ++ "```") = body).
  { unfold Re.sub_fence_close. rewrite endswith_app, string_length_app.
    replace (String.length body + String.length (PyStr.newline ++ "```") - 4)%nat
      with (String.length body) by (simpl; lia).
    apply substring_take. }
  now rewrite Hclose.
Qed.

Lemma cleaned_text_plain (body : string) :
  PyStr.strip body = body -> PyStr.startswith "```" body = false ->
  cleaned_text body = body.
Proof. intros Hbody Hplain. unfold cleaned_text. cbv zeta. now rewrite Hbody, Hplain. Qed.

(** X19. A reply in a code fence parses like its body.  For a body without
    white space around it that is not itself fenced, the text made of an
    opening fence with a language tag, a line end, the body, a line end and a
    closing fence is cleaned to the body, so [parse_json_object] gives for it
    exactly what it gives for the body alone. *)
Theorem fenced_reply_parses_like_its_body (lang body : string) :
  all_chars Re.is_fence_lang_char lang = true ->
  PyStr.strip body = body ->
  PyStr.startswith "```" body = false ->
  cleaned_text ("```" ++ lang ++ PyStr.newline ++ body ++ PyStr.newline ++ "```") = body
  /\ parse_json_object ("```" ++ lang ++ PyStr.newline ++ body ++ PyStr.newline ++ "```")
     = parse_json_object body.
Proof.
  intros Hlang Hbody Hplain.
  pose proof (cleaned_text_fenced lang body Hlang Hbody) as Hfenced.
  split; [assumption|].
  rewrite !parse_json_object_unfold, Hfenced, cleaned_text_plain by assumption.
  reflexivity.
Qed.

End ItoProperties.

(* ===================================================================== *)
(** * The properties on concrete games *)
(* ===================================================================== *)

Example strip_ascii : PyStr.strip "  play  " = "play".
Proof. reflexivity. Qed.

Example strip_ideographic_space : PyStr.strip "　質問　 " = "質問".
Proof. reflexivity. Qed.

Example of_int_examples :
  PyStr.of_int (-5) = "-5" /\ PyStr.of_int 0 = "0" /\ PyStr.of_int 100 = "100".
Proof. repeat split; reflexivity. Qed.

Example sub_fence_open_ex :
  Re.sub_fence_open ("```json" ++ PyStr.newline ++ "{}") = "{}".
Proof. reflexivity. Qed.

Example search_json_block_ex :
  Re.search_json_block "Sure: {a: {b: 1}} done } {" = Some "{a: {b: 1}} done }".
Proof. reflexivity. Qed.

Example parse_demo_reply :
  parse_json_object demo_json_loads ("Here you go: " ++ PLAY_REPLY ++ " ok")
  = Returned [("action", PyStr " play")].
Proof. reflexivity. Qed.

Example parse_no_object :
  parse_json_object demo_json_loads "WAIT"
  = Raised "No JSON object found in model output".
Proof. reflexivity. Qed.

(** The game of [descent_engine]: A plays 10, then B plays 5. *)
Example descent_game :
  played_cards (descent_state 3) = [10] /\ status (descent_state 3) = ACTIVE
  /\ descent_node 5 = NEnd /\ played_cards (descent_state 5) = [10; 5]
  /\ status (descent_state 5) = FAILED.
Proof. vm_compute. repeat split. Qed.

Lemma descent_reachable (fuel : nat) :
  (fuel <= 9)%nat ->
  Reachable ascii_upper DEMO_THEMES descent_engine
    (module_providers demo_json_loads ascii_upper)
    (descent_node fuel) (descent_state fuel) (descent_world fuel).
Proof.
  intros Hfuel.
  apply (run_reachable ascii_upper DEMO_THEMES descent_engine
           (module_providers demo_json_loads ascii_upper) fuel
           (Some descent_initial_state) mock_world).
  do 10 (destruct fuel as [|fuel]; [vm_compute; reflexivity|]). lia.
Qed.

Lemma hands_dealt_two_agents : hands_dealt two_agents_state.
Proof.
  unfold hands_dealt. simpl. intros a [<-|[<-|[]]] _; eexists; reflexivity.
Defined.

Lemma NoDup_two_agents : NoDup ["A"; "B"].
Proof.
  constructor; [simpl; intros [H|[]]; discriminate|].
  constructor; [intros [] | constructor].
Defined.

(** C1 on [three_voters_state]: A (50) and C (10) vote PLAY, C plays. *)
Lemma play_resolution_plays_minimum_witness :
  (exists a, In (a, "PLAY") (votes three_voters_state))
  /\ (forall a, In (a, "PLAY") (votes three_voters_state) ->
                exists c, dict_get (hands three_voters_state) a = Some c)
  /\ exists s' player card,
       execute_play_node three_voters_state = Ok s'
       /\ dict_get (hands three_voters_state) player = Some card
       /\ last_played_card s' = card
       /\ forall a c, In (a, "PLAY") (votes three_voters_state) ->
                      dict_get (hands three_voters_state) a = Some c -> card <= c.
Proof.
  assert (H1 : exists a, In (a, "PLAY") (votes three_voters_state)).
  { exists "A". simpl. now left. }
  assert (H2 : forall a, In (a, "PLAY") (votes three_voters_state) ->
                         exists c, dict_get (hands three_voters_state) a = Some c).
  { simpl. intros a [H|[H|[H|[]]]]; inversion H; subst; eexists; reflexivity. }
  split; [exact H1|]. split; [exact H2|].
  destruct (play_resolution_plays_minimum three_voters_state H1 H2)
    as (s' & player & card & Hrun & _ & Hcard & Hmin & _ & _ & Hlast & _).
  exists s', player, card. repeat split; assumption.
Defined.

(** C2 on the first PlayResolution of the game of [descent_engine]. *)
Lemma play_resolution_status_witness :
  Reachable ascii_upper DEMO_THEMES descent_engine
    (module_providers demo_json_loads ascii_upper)
    NExecutePlay (descent_state 2) (descent_world 2)
  /\ NoDup (agents (descent_state 2))
  /\ status (descent_state 2) = ACTIVE
  /\ exists s' card,
       execute_play_node (descent_state 2) = Ok s'
       /\ played_cards s' = (played_cards (descent_state 2) ++ [card])%list
       /\ (card < last_played_card (descent_state 2) -> status s' = FAILED)
       /\ (last_played_card (descent_state 2) <= card ->
           (forall a, In a (agents s') -> In a (finished_agents s')) ->
           status s' = SUCCESS).
Proof.
  assert (Hreach : Reachable ascii_upper DEMO_THEMES descent_engine
                     (module_providers demo_json_loads ascii_upper)
                     NExecutePlay (descent_state 2) (descent_world 2)).
  { apply (descent_reachable 2). repeat constructor. }
  assert (Hnd : NoDup (agents (descent_state 2))) by exact NoDup_two_agents.
  split; [exact Hreach|]. split; [exact Hnd|].
  destruct (play_resolution_status ascii_upper DEMO_THEMES descent_engine
              (module_providers demo_json_loads ascii_upper)
              (descent_state 2) (descent_world 2) Hreach)
    as (Hactive & s' & card & Hrun & Hplayed & Hfail & Hsuccess & _).
  split; [exact Hactive|]. exists s', card.
  split; [exact Hrun|]. split; [exact Hplayed|]. split; [exact Hfail|].
  exact (Hsuccess Hnd).
Defined.

(** C3 on a DiscussionRound in mock mode. *)
Lemma discussion_round_counts_turn_witness :
  providers_return (module_providers demo_json_loads ascii_upper)
  /\ exists s' w',
       wait_round_node duo_engine (module_providers demo_json_loads ascii_upper)
         two_agents_state mock_world = Ok (s', w')
       /\ turn_count s' = turn_count two_agents_state + 1
       /\ votes s' = [].
Proof.
  split; [apply module_providers_return|].
  destruct (discussion_round_counts_turn duo_engine
              (module_providers demo_json_loads ascii_upper) two_agents_state mock_world
              (module_providers_return demo_json_loads ascii_upper))
    as (s' & w' & Hrun & Hturn & Hvotes & _).
  exists s', w'. repeat split; assumption.
Defined.

(** C4: in the game of [descent_engine] A plays 10 and B then plays 5; the
    final state is reachable, its [last_played_card] is 5 and the highest
    card played is 10. *)
Lemma last_played_card_below_highest :
  Reachable ascii_upper DEMO_THEMES descent_engine
    (module_providers demo_json_loads ascii_upper)
    NEnd (descent_state 5) (descent_world 5)
  /\ played_cards (descent_state 5) = [10; 5]
  /\ last_played_card (descent_state 5) = 5
  /\ highest_card (played_cards (descent_state 5)) = 10
  /\ last_played_card (descent_state 5) <> highest_card (played_cards (descent_state 5)).
Proof.
  split; [apply (descent_reachable 5); repeat constructor|].
  vm_compute. repeat split; discriminate.
Qed.

(** C4 (amended) on the final state of that game. *)
Lemma last_played_card_is_latest_witness :
  Reachable ascii_upper DEMO_THEMES descent_engine
    (module_providers demo_json_loads ascii_upper)
    NEnd (descent_state 5) (descent_world 5)
  /\ last_played_card (descent_state 5) = last (played_cards (descent_state 5)) 0.
Proof.
  assert (Hreach : Reachable ascii_upper DEMO_THEMES descent_engine
                     (module_providers demo_json_loads ascii_upper)
                     NEnd (descent_state 5) (descent_world 5)).
  { apply (descent_reachable 5). repeat constructor. }
  split; [exact Hreach|].
  exact (proj1 (last_played_card_is_latest ascii_upper DEMO_THEMES descent_engine
                  (module_providers demo_json_loads ascii_upper)
                  NEnd (descent_state 5) (descent_world 5) Hreach)).
Defined.

(** C5 on the state before the second card of that game is played. *)
Lemma played_cards_ascend_until_failure_witness :
  Reachable ascii_upper DEMO_THEMES descent_engine
    (module_providers demo_json_loads ascii_upper)
    NExecutePlay (descent_state 4) (descent_world 4)
  /\ (status (descent_state 4) = ACTIVE -> ascending (played_cards (descent_state 4))).
Proof.
  assert (Hreach : Reachable ascii_upper DEMO_THEMES descent_engine
                     (module_providers demo_json_loads ascii_upper)
                     NExecutePlay (descent_state 4) (descent_world 4)).
  { apply (descent_reachable 4). repeat constructor. }
  split; [exact Hreach|].
  exact (proj1 (played_cards_ascend_until_failure ascii_upper DEMO_THEMES descent_engine
                  (module_providers demo_json_loads ascii_upper)
                  NExecutePlay (descent_state 4) (descent_world 4) Hreach)).
Defined.

(** C6 on an engine with 101 agents. *)
Lemma setup_fails_fast_on_empty_deck_witness :
  (100 < List.length (list_or (init_agents empty_initial_state) (agent_ids crowd_engine)))%nat
  /\ setup_node DEMO_THEMES crowd_engine empty_initial_state mock_world
     = Raise (IndexError "Deck is empty").
Proof.
  assert (Hmany : (100 < List.length (list_or (init_agents empty_initial_state)
                                        (agent_ids crowd_engine)))%nat).
  { apply Nat.ltb_lt. vm_compute. reflexivity. }
  split; [exact Hmany|].
  apply (setup_fails_fast_on_empty_deck DEMO_THEMES crowd_engine empty_initial_state
           mock_world Hmany).
  vm_compute. reflexivity.
Defined.

(** C7 on a Voting phase whose estimator replies with [PLAY_REPLY]. *)
Lemma voting_records_play_or_wait_witness :
  providers_return (module_providers demo_json_loads ascii_upper)
  /\ hands_dealt two_agents_state
  /\ exists s' w',
       voting_node ascii_upper duo_engine (module_providers demo_json_loads ascii_upper)
         two_agents_state llm_world = Ok (s', w')
       /\ (dict_get (votes s') "A" = Some "PLAY" \/ dict_get (votes s') "A" = Some "WAIT").
Proof.
  split; [apply module_providers_return|]. split; [exact hands_dealt_two_agents|].
  destruct (voting_records_play_or_wait demo_json_loads ascii_upper duo_engine
              (module_providers demo_json_loads ascii_upper) two_agents_state llm_world
              (module_providers_return demo_json_loads ascii_upper)
              hands_dealt_two_agents)
    as ((s' & w' & Hrun & Hvotes) & _).
  exists s', w'. split; [exact Hrun|].
  destruct (Hvotes "A") as (decision & card & w0 & w1 & _ & Hvote & Hcases & _).
  - simpl. now left.
  - simpl. intros [].
  - reflexivity.
  - rewrite Hvote. destruct Hcases as [-> | ->]; [now left | now right].
Defined.

(** C8 on a DiscussionRound in mock mode: both agents propose the same
    text, one question is recorded. *)
Lemma discussion_questions_deduplicated_witness :
  providers_return (module_providers demo_json_loads ascii_upper)
  /\ exists proposals s' w',
       wait_round_node duo_engine (module_providers demo_json_loads ascii_upper)
         two_agents_state mock_world = Ok (s', w')
       /\ proposals <> []
       /\ NoDup (dict_values proposals)
       /\ forall q_owner q, In (q_owner, q) proposals ->
                            In (question_line q_owner q) (history s').
Proof.
  split; [apply module_providers_return|].
  destruct (discussion_questions_deduplicated duo_engine
              (module_providers demo_json_loads ascii_upper) two_agents_state mock_world
              (module_providers_return demo_json_loads ascii_upper))
    as (texts & w1 & own & seen & proposals & w2 & s' & w'
        & _ & _ & _ & _ & _ & _ & _ & _ & _ & Hrun & Hne & Hnd & Hlines).
  exists proposals, s', w'. repeat split; assumption.
Defined.

(** C9 on the state after the first card of the game of [descent_engine]. *)
Lemma finished_agents_invariant_witness :
  Reachable ascii_upper DEMO_THEMES descent_engine
    (module_providers demo_json_loads ascii_upper)
    NVoting (descent_state 3) (descent_world 3)
  /\ incl (finished_agents (descent_state 3)) (agents (descent_state 3))
  /\ NoDup (finished_agents (descent_state 3))
  /\ List.length (played_cards (descent_state 3))
     = List.length (finished_agents (descent_state 3)).
Proof.
  assert (Hreach : Reachable ascii_upper DEMO_THEMES descent_engine
                     (module_providers demo_json_loads ascii_upper)
                     NVoting (descent_state 3) (descent_world 3)).
  { apply (descent_reachable 3). repeat constructor. }
  split; [exact Hreach|].
  exact (proj1 (finished_agents_invariant ascii_upper DEMO_THEMES descent_engine
                  (module_providers demo_json_loads ascii_upper)
                  NVoting (descent_state 3) (descent_world 3) Hreach)).
Defined.

(** C10 on a Voting phase that starts from stale votes. *)
Lemma voting_replaces_votes_witness :
  providers_return (module_providers demo_json_loads ascii_upper)
  /\ hands_dealt two_agents_state
  /\ exists s' w',
       voting_node ascii_upper duo_engine (module_providers demo_json_loads ascii_upper)
         two_agents_state llm_world = Ok (s', w')
       /\ dict_keys (votes s') = active_agents_of two_agents_state
       /\ forall a v, In (a, v) (votes s') -> v = "PLAY" \/ v = "WAIT".
Proof.
  split; [apply module_providers_return|]. split; [exact hands_dealt_two_agents|].
  destruct (voting_replaces_votes ascii_upper duo_engine
              (module_providers demo_json_loads ascii_upper) two_agents_state llm_world
              (module_providers_return demo_json_loads ascii_upper)
              hands_dealt_two_agents)
    as (s' & w' & Hrun & _ & _ & Hkeys & Hvals & _).
  exists s', w'. split; [exact Hrun|]. split; [exact (Hkeys NoDup_two_agents) | exact Hvals].
Defined.

(** The run of [descent_engine] from its first Voting phase to its end. *)
Lemma descent_steps :
  graph_steps ascii_upper descent_engine (module_providers demo_json_loads ascii_upper)
    (descent_node 1, descent_state 1, descent_world 1)
    (descent_node 5, descent_state 5, descent_world 5).
Proof.
  apply (stream_steps ascii_upper descent_engine
           (module_providers demo_json_loads ascii_upper) 4).
  vm_compute. reflexivity.
Defined.

Lemma ascent_reachable (fuel : nat) :
  (fuel <= 6)%nat ->
  Reachable ascii_upper DEMO_THEMES duo_engine
    (module_providers demo_json_loads ascii_upper)
    (node_of (ascent_run fuel)) (state_of (ascent_run fuel)) (world_of (ascent_run fuel)).
Proof.
  intros Hfuel.
  apply (run_reachable ascii_upper DEMO_THEMES duo_engine
           (module_providers demo_json_loads ascii_upper) fuel
           (Some ascent_initial_state) mock_world).
  do 7 (destruct fuel as [|fuel]; [vm_compute; reflexivity|]). lia.
Qed.

(** The game of [ascent_run]: A plays 5, then B plays 10. *)
Example ascent_game :
  node_of (ascent_run 5) = NEnd
  /\ played_cards (state_of (ascent_run 5)) = [5; 10]
  /\ status (state_of (ascent_run 5)) = SUCCESS.
Proof. vm_compute. repeat split. Qed.

(** X1 on the game of [descent_engine], from the first Voting phase on. *)
Lemma table_is_fixed_by_setup_witness :
  graph_steps ascii_upper descent_engine (module_providers demo_json_loads ascii_upper)
    (descent_node 1, descent_state 1, descent_world 1)
    (descent_node 5, descent_state 5, descent_world 5)
  /\ hands (descent_state 5) = hands (descent_state 1)
  /\ (descent_node 1 <> NSpeaking ->
      utterances (descent_state 5) = utterances (descent_state 1)).
Proof.
  split; [exact descent_steps|].
  destruct (table_is_fixed_by_setup ascii_upper descent_engine
              (module_providers demo_json_loads ascii_upper)
              (descent_node 1) (descent_node 5) (descent_state 1) (descent_state 5)
              (descent_world 1) (descent_world 5) descent_steps)
    as ((_ & Hh & _) & Hutt & _).
  split; [exact Hh|]. intros Hn. exact (proj1 (proj2 (Hutt Hn))).
Defined.

(** X2 on the same run. *)
Lemma game_records_are_append_only_witness :
  graph_steps ascii_upper descent_engine (module_providers demo_json_loads ascii_upper)
    (descent_node 1, descent_state 1, descent_world 1)
    (descent_node 5, descent_state 5, descent_world 5)
  /\ (exists lines, history (descent_state 5) = (history (descent_state 1) ++ lines)%list)
  /\ turn_count (descent_state 1) <= turn_count (descent_state 5).
Proof.
  split; [exact descent_steps|].
  destruct (game_records_are_append_only ascii_upper descent_engine
              (module_providers demo_json_loads ascii_upper)
              (descent_node 1) (descent_node 5) (descent_state 1) (descent_state 5)
              (descent_world 1) (descent_world 5) descent_steps)
    as (Hhist & _ & _ & Hturn).
  split; [exact Hhist | exact Hturn].
Defined.

(** X3 on the game of [descent_engine]. *)
Lemma game_always_ends_witness :
  providers_return (module_providers demo_json_loads ascii_upper)
  /\ setup_node DEMO_THEMES descent_engine descent_initial_state mock_world
     = Ok (descent_state 0, descent_world 0)
  /\ exists s' w',
       (forall fuel,
          (1 + 2 * (List.length (agents (descent_state 0))
                    + Z.to_nat (Z.max (max_turns descent_engine) 1)) <= fuel)%nat ->
          run ascii_upper DEMO_THEMES descent_engine
            (module_providers demo_json_loads ascii_upper) fuel
            (Some descent_initial_state) mock_world = Ok ((NEnd, s'), w'))
       /\ (status s' = SUCCESS \/ status s' = FAILED).
Proof.
  assert (Hsetup : setup_node DEMO_THEMES descent_engine descent_initial_state mock_world
                   = Ok (descent_state 0, descent_world 0))
    by (vm_compute; reflexivity).
  split; [apply module_providers_return|]. split; [exact Hsetup|].
  exact (game_always_ends ascii_upper DEMO_THEMES descent_engine
           (module_providers demo_json_loads ascii_upper) descent_initial_state mock_world
           (descent_state 0) (descent_world 0)
           (module_providers_return demo_json_loads ascii_upper) Hsetup).
Defined.

(** X4 on the final state of the game of [ascent_run]. *)
Lemma success_means_all_cards_in_order_witness :
  Reachable ascii_upper DEMO_THEMES duo_engine
    (module_providers demo_json_loads ascii_upper)
    (node_of (ascent_run 5)) (state_of (ascent_run 5)) (world_of (ascent_run 5))
  /\ status (state_of (ascent_run 5)) = SUCCESS
  /\ Permutation (finished_agents (state_of (ascent_run 5)))
                 (agents (state_of (ascent_run 5)))
  /\ ascending (played_cards (state_of (ascent_run 5))).
Proof.
  assert (Hreach : Reachable ascii_upper DEMO_THEMES duo_engine
                     (module_providers demo_json_loads ascii_upper)
                     (node_of (ascent_run 5)) (state_of (ascent_run 5))
                     (world_of (ascent_run 5))).
  { apply (ascent_reachable 5). repeat constructor. }
  assert (Hsuccess : status (state_of (ascent_run 5)) = SUCCESS)
    by (vm_compute; reflexivity).
  split; [exact Hreach|]. split; [exact Hsuccess|].
  destruct (success_means_all_cards_in_order ascii_upper DEMO_THEMES duo_engine
              (module_providers demo_json_loads ascii_upper)
              (node_of (ascent_run 5)) (state_of (ascent_run 5))
              (world_of (ascent_run 5)) Hreach Hsuccess)
    as (_ & Hperm & _ & Hasc & _).
  split; [exact Hperm | exact Hasc].
Defined.

(** X5 on the final state of the game of [descent_engine], which failed
    because 5 was played after 10. *)
Lemma failure_is_descent_or_stagnation_witness :
  Reachable ascii_upper DEMO_THEMES descent_engine
    (module_providers demo_json_loads ascii_upper)
    NEnd (descent_state 5) (descent_world 5)
  /\ status (descent_state 5) = FAILED
  /\ ((exists before card,
         played_cards (descent_state 5) = (before ++ [card])%list
         /\ card < last before 0)
      \/ max_turns descent_engine <= turn_count (descent_state 5)).
Proof.
  assert (Hreach : Reachable ascii_upper DEMO_THEMES descent_engine
                     (module_providers demo_json_loads ascii_upper)
                     NEnd (descent_state 5) (descent_world 5)).
  { apply (descent_reachable 5). repeat constructor. }
  assert (Hfailed : status (descent_state 5) = FAILED) by (vm_compute; reflexivity).
  split; [exact Hreach|]. split; [exact Hfailed|].
  destruct (failure_is_descent_or_stagnation ascii_upper DEMO_THEMES descent_engine
              (module_providers demo_json_loads ascii_upper)
              NEnd (descent_state 5) (descent_world 5) Hreach)
    as (Hcause & _).
  exact (proj2 (Hcause Hfailed)).
Defined.

(** X6 on the final state of the game of [descent_engine]. *)
Lemma played_cards_are_the_finished_hands_witness :
  Reachable ascii_upper DEMO_THEMES descent_engine
    (module_providers demo_json_loads ascii_upper)
    NEnd (descent_state 5) (descent_world 5)
  /\ map (dict_get (hands (descent_state 5))) (finished_agents (descent_state 5))
     = map Some (played_cards (descent_state 5)).
Proof.
  assert (Hreach : Reachable ascii_upper DEMO_THEMES descent_engine
                     (module_providers demo_json_loads ascii_upper)
                     NEnd (descent_state 5) (descent_world 5)).
  { apply (descent_reachable 5). repeat constructor. }
  split; [exact Hreach|].
  exact (proj1 (played_cards_are_the_finished_hands ascii_upper DEMO_THEMES descent_engine
                  (module_providers demo_json_loads ascii_upper)
                  NEnd (descent_state 5) (descent_world 5) Hreach)).
Defined.


(** X8 on [no_hand_state]: B holds no card. *)
Lemma missing_hand_raises_key_error_witness :
  dict_get (hands no_hand_state) "B" = None
  /\ speaking_node duo_engine (module_providers demo_json_loads ascii_upper)
       no_hand_state mock_world = Raise (KeyError "B")
  /\ voting_node ascii_upper duo_engine (module_providers demo_json_loads ascii_upper)
       no_hand_state mock_world = Raise (KeyError "B")
  /\ execute_play_node no_hand_state = Raise (KeyError "B").
Proof.
  assert (Hnone : dict_get (hands no_hand_state) "B" = None) by reflexivity.
  split; [exact Hnone|].
  destruct (missing_hand_raises_key_error ascii_upper duo_engine
              (module_providers demo_json_loads ascii_upper) no_hand_state mock_world
              "B" Hnone) as (Hloops & Hplay & _).
  destruct (Hloops ["A"] [] (module_providers_return demo_json_loads ascii_upper) eq_refl)
    as (Hspeak & Hvote).
  - simpl. intros b [<-|[]]. right. eexists. reflexivity.
  - simpl. intros [].
  - split; [exact Hspeak|]. split; [exact Hvote|].
    apply (Hplay [] []); [reflexivity | intros b []].
Defined.


(** X10 on the Setup of [fresh_run]: the two agents are dealt the last two
    cards of the shuffled deck. *)
Lemma setup_deals_distinct_cards_witness :
  NoDup (list_or (init_agents (default_initial_state duo_engine)) (agent_ids duo_engine))
  /\ setup_node DEMO_THEMES duo_engine (default_initial_state duo_engine) mock_world
     = Ok (state_of (fresh_run 0), world_of (fresh_run 0))
  /\ dict_keys (hands (state_of (fresh_run 0))) = ["A"; "B"]
  /\ NoDup (dict_values (hands (state_of (fresh_run 0))))
  /\ (List.length (deck (state_of (fresh_run 0))) + 2 = 100)%nat.
Proof.
  assert (Hnd : NoDup (list_or (init_agents (default_initial_state duo_engine))
                         (agent_ids duo_engine))) by exact NoDup_two_agents.
  assert (Hsetup : setup_node DEMO_THEMES duo_engine (default_initial_state duo_engine)
                     mock_world
                   = Ok (state_of (fresh_run 0), world_of (fresh_run 0)))
    by (vm_compute; reflexivity).
  split; [exact Hnd|]. split; [exact Hsetup|].
  destruct (setup_deals_distinct_cards DEMO_THEMES duo_engine
              (default_initial_state duo_engine) mock_world
              (state_of (fresh_run 0)) (world_of (fresh_run 0)) Hnd eq_refl Hsetup)
    as (Hkeys & _ & _ & Hvalues & _ & Hlen).
  split; [exact Hkeys|]. split; [exact Hvalues | exact Hlen].
Defined.

(** X11 on the Setup of the game of [descent_engine], whose caller supplies
    the hands A: 10 and B: 5. *)
Lemma setup_keeps_complete_hands_witness :
  setup_node DEMO_THEMES descent_engine descent_initial_state mock_world
  = Ok (descent_state 0, descent_world 0)
  /\ hands (descent_state 0) = [("A", 10); ("B", 5)]
  /\ (forall c, In c (deck (descent_state 0)) <->
                1 <= c <= 100 /\ ~ In c (dict_values (hands (descent_state 0)))).
Proof.
  assert (Hsetup : setup_node DEMO_THEMES descent_engine descent_initial_state mock_world
                   = Ok (descent_state 0, descent_world 0))
    by (vm_compute; reflexivity).
  split; [exact Hsetup|].
  destruct (setup_keeps_complete_hands DEMO_THEMES descent_engine descent_initial_state
              mock_world (descent_state 0) (descent_world 0) eq_refl Hsetup)
    as (Hhands & _ & _ & Hdeck).
  split; [exact Hhands | exact Hdeck].
Defined.

(** X12 on an engine with 101 agents, and on one without any theme to
    choose from. *)
Example setup_fails_in_two_ways_only_examples :
  setup_node DEMO_THEMES crowd_engine empty_initial_state mock_world
  = Raise (IndexError "Deck is empty")
  /\ setup_node [] duo_engine empty_initial_state mock_world
     = Raise (IndexError "Cannot choose from an empty sequence").
Proof. split; vm_compute; reflexivity. Qed.

(** X17 and X18 on a reply with two objects: the block spans both. *)
Example json_block_spans_two_objects :
  Re.search_json_block "first {a} then {b}." = Some "{a} then {b}"
  /\ parse_json_object demo_json_loads "first {a} then {b}."
     = Raised "Expecting value: line 1 column 1 (char 0)".
Proof. split; reflexivity. Qed.

(** X19 on the reply [PLAY_REPLY] in a fence tagged json. *)
Lemma fenced_reply_parses_like_its_body_witness :
  all_chars Re.is_fence_lang_char "json" = true
  /\ PyStr.strip PLAY_REPLY = PLAY_REPLY
  /\ PyStr.startswith "```" PLAY_REPLY = false
  /\ parse_json_object demo_json_loads
       ("```" ++ "json" ++ PyStr.newline ++ PLAY_REPLY ++ PyStr.newline ++ "```")
     = parse_json_object demo_json_loads PLAY_REPLY.
Proof.
  assert (H1 : all_chars Re.is_fence_lang_char "json" = true) by reflexivity.
  assert (H2 : PyStr.strip PLAY_REPLY = PLAY_REPLY) by reflexivity.
  assert (H3 : PyStr.startswith "```" PLAY_REPLY = false) by reflexivity.
  split; [exact H1|]. split; [exact H2|]. split; [exact H3|].
  exact (proj2 (fenced_reply_parses_like_its_body demo_json_loads "json" PLAY_REPLY
                  H1 H2 H3)).
Defined.
